(** * openai-ocr-mcp: a shallow embedding of [src/ocr.ts]

    The server reads newline-delimited JSON-RPC from stdin, extracts text
    from local images through a remote vision model, stores the text next
    to the image under a content-derived name and appends later analysis
    to that file.

    Conventions of the embedding.
    - A JavaScript string is a [string] of bytes (its UTF-8 encoding);
      case mapping and white space are the ASCII ones.
    - Paths follow the POSIX flavour of Node's [path] module.
    - Exceptions are the [Throw] outcome of a state-and-error monad whose
      state is the whole process: the module-level variables of the
      script, the file system, the lines written to stdout and the
      remote calls spawned so far.
    - Runtime services the script does not define ([JSON.parse],
      [JSON.stringify], the clock, the [curl] child process) are fields
      of the [Runtime] class; SHA-256 is implemented in full.
    - Writes to stderr ([log]) are diagnostics and are left out.
    - A handler runs to completion before the next line is taken. *)

From Stdlib Require Import ZArith NArith Ascii String List Lia Bool Sorted DecimalString.
From stdpp Require Import base strings gmap list.

Local Open Scope Z_scope.
Set Warnings "-register-all".

(* ===================================================================== *)
(** * Strings *)
(* ===================================================================== *)

Module Str.

(** [s.startsWith(p)] *)
Definition startsWith (s p : string) : bool := String.prefix p s.

Fixpoint rev_acc (s acc : string) : string :=
  match s with
  | EmptyString => acc
  | String c s' => rev_acc s' (String c acc)
  end.

Definition rev (s : string) : string := rev_acc s EmptyString.

(** [s.endsWith(p)] *)
Definition endsWith (s p : string) : bool := String.prefix (rev p) (rev s).

(** ASCII lower-casing of one character *)
Definition lower_ascii (c : ascii) : ascii :=
  let n := nat_of_ascii c in
  if ((65 <=? n)%nat && (n <=? 90)%nat)%bool then ascii_of_nat (n + 32) else c.

(** [s.toLowerCase()] *)
Fixpoint toLowerCase (s : string) : string :=
  match s with
  | EmptyString => EmptyString
  | String c s' => String (lower_ascii c) (toLowerCase s')
  end.

(** case-insensitive [startsWith], as the [i] flag of a regular
    expression compares characters *)
Definition startsWith_ci (s p : string) : bool :=
  String.prefix (toLowerCase p) (toLowerCase s).

(** [parts.join(sep)] *)
Fixpoint join (sep : string) (parts : list string) : string :=
  match parts with
  | [] => ""
  | [p] => p
  | p :: rest => p +:+ sep +:+ join sep rest
  end.

(** [s.substring(0, n)] *)
Definition take (n : nat) (s : string) : string := String.substring 0 n s.

Definition newline : string := String (ascii_of_nat 10) EmptyString.

(** Decimal rendering of an integer, as a template literal prints it *)
Definition of_Z (z : Z) : string :=
  match z with
  | Z0 => "0"
  | Zpos p => NilEmpty.string_of_uint (Pos.to_uint p)
  | Zneg p => "-" +:+ NilEmpty.string_of_uint (Pos.to_uint p)
  end.

End Str.

(* ===================================================================== *)
(** * SHA-256 (FIPS 180-4), as [createHash('sha256')] computes it *)
(* ===================================================================== *)

Module SHA256.

Local Open Scope N_scope.

Definition mask32 : N := 0xFFFFFFFF.
Definition w32 (x : N) : N := N.land x mask32.
Definition add32 (x y : N) : N := w32 (x + y).
Definition not32 (x : N) : N := N.lxor (w32 x) mask32.
Definition rotr (n x : N) : N := N.lor (N.shiftr x n) (w32 (N.shiftl x (32 - n))).
Definition shr (n x : N) : N := N.shiftr x n.

Definition Ch (x y z : N) : N := N.lxor (N.land x y) (N.land (not32 x) z).
Definition Maj (x y z : N) : N :=
  N.lxor (N.lxor (N.land x y) (N.land x z)) (N.land y z).
Definition bsig0 (x : N) : N := N.lxor (N.lxor (rotr 2 x) (rotr 13 x)) (rotr 22 x).
Definition bsig1 (x : N) : N := N.lxor (N.lxor (rotr 6 x) (rotr 11 x)) (rotr 25 x).
Definition ssig0 (x : N) : N := N.lxor (N.lxor (rotr 7 x) (rotr 18 x)) (shr 3 x).
Definition ssig1 (x : N) : N := N.lxor (N.lxor (rotr 17 x) (rotr 19 x)) (shr 10 x).

Definition hex_value (c : ascii) : N :=
  let n := N_of_ascii c in
  if ((48 <=? n) && (n <=? 57))%bool then n - 48 else n - 87.

(** The numbers written in hexadecimal in [s], separated by spaces *)
Fixpoint hex_words (s : string) (cur : option N) : list N :=
  match s with
  | EmptyString => match cur with Some w => [w] | None => [] end
  | String c s' =>
      if Ascii.eqb c " "%char
      then match cur with Some w => w :: hex_words s' None | None => hex_words s' None end
      else hex_words s' (Some (16 * default 0 cur + hex_value c))
  end.

(** The round constants: the first 32 bits of the fractional parts of
    the cube roots of the first 64 primes *)
Definition K : list N :=
  Eval vm_compute in
    hex_words
    ("428a2f98 71374491 b5c0fbcf e9b5dba5 3956c25b 59f111f1 923f82a4 ab1c5ed5 " +:+
     "d807aa98 12835b01 243185be 550c7dc3 72be5d74 80deb1fe 9bdc06a7 c19bf174 " +:+
     "e49b69c1 efbe4786 0fc19dc6 240ca1cc 2de92c6f 4a7484aa 5cb0a9dc 76f988da " +:+
     "983e5152 a831c66d b00327c8 bf597fc7 c6e00bf3 d5a79147 06ca6351 14292967 " +:+
     "27b70a85 2e1b2138 4d2c6dfc 53380d13 650a7354 766a0abb 81c2c92e 92722c85 " +:+
     "a2bfe8a1 a81a664b c24b8b70 c76c51a3 d192e819 d6990624 f40e3585 106aa070 " +:+
     "19a4c116 1e376c08 2748774c 34b0bcb5 391c0cb3 4ed8aa4a 5b9cca4f 682e6ff3 " +:+
     "748f82ee 78a5636f 84c87814 8cc70208 90befffa a4506ceb bef9a3f7 c67178f2 ") None.

(** The eight working words *)
Record regs := Regs { ra : N; rb : N; rc : N; rd : N; re : N; rf : N; rg : N; rh : N }.

Definition H0 : regs :=
  Regs 0x6a09e667 0xbb67ae85 0x3c6ef372 0xa54ff53a
       0x510e527f 0x9b05688c 0x1f83d9ab 0x5be0cd19.

(** Padding: the byte 0x80, zero bytes up to 56 modulo 64, then the
    bit length as a big-endian 64-bit integer. *)
Definition be_bytes (width : nat) (x : N) : list N :=
  map (fun i => N.land (N.shiftr x (8 * N.of_nat i)) 0xFF) (rev (seq 0 width)).

Definition pad (msg : list N) : list N :=
  let len := N.of_nat (length msg) in
  let zeros := N.to_nat ((119 - len mod 64) mod 64) in
  msg ++ 0x80 :: repeat 0 zeros ++ be_bytes 8 (8 * len).

Fixpoint be_word (bs : list N) (acc : N) : N :=
  match bs with
  | [] => acc
  | b :: bs' => be_word bs' (N.lor (N.shiftl acc 8) b)
  end.

(** [n] big-endian 32-bit words taken from the front of a byte list *)
Fixpoint words (n : nat) (bs : list N) : list N :=
  match n with
  | O => []
  | S n' => be_word (firstn 4 bs) 0 :: words n' (skipn 4 bs)
  end.

(** Message schedule; [recent] holds the words computed so far, the
    latest first. *)
Fixpoint extend (n : nat) (recent : list N) : list N :=
  match n with
  | O => recent
  | S n' =>
      let w := add32 (add32 (ssig1 (nth 1 recent 0)) (nth 6 recent 0))
                     (add32 (ssig0 (nth 14 recent 0)) (nth 15 recent 0)) in
      extend n' (w :: recent)
  end.

Definition schedule (block : list N) : list N :=
  rev (extend 48 (rev (words 16 block))).

Definition round (r : regs) (kw : N * N) : regs :=
  let t1 := add32 (add32 (add32 (rh r) (bsig1 (re r))) (Ch (re r) (rf r) (rg r)))
                  (add32 (fst kw) (snd kw)) in
  let t2 := add32 (bsig0 (ra r)) (Maj (ra r) (rb r) (rc r)) in
  Regs (add32 t1 t2) (ra r) (rb r) (rc r) (add32 (rd r) t1) (re r) (rf r) (rg r).

Definition compress (h : regs) (block : list N) : regs :=
  let r := fold_left round (combine K (schedule block)) h in
  Regs (add32 (ra h) (ra r)) (add32 (rb h) (rb r)) (add32 (rc h) (rc r))
       (add32 (rd h) (rd r)) (add32 (re h) (re r)) (add32 (rf h) (rf r))
       (add32 (rg h) (rg r)) (add32 (rh h) (rh r)).

Fixpoint blocks (n : nat) (bs : list N) (h : regs) : regs :=
  match n with
  | O => h
  | S n' => blocks n' (skipn 64 bs) (compress h (firstn 64 bs))
  end.

Definition digest (msg : list N) : regs :=
  let padded := pad msg in
  blocks (length padded / 64) padded H0.

Definition hex_digit (n : N) : ascii :=
  ascii_of_N (if n <? 10 then 48 + n else 87 + n).

Definition nibble (w : N) (i : N) : ascii :=
  hex_digit (N.land (N.shiftr w (28 - 4 * i)) 0xF).

(** The eight lower-case hexadecimal digits of a word *)
Definition word_hex (w : N) (rest : string) : string :=
  String (nibble w 0) (String (nibble w 1) (String (nibble w 2) (String (nibble w 3)
 (String (nibble w 4) (String (nibble w 5) (String (nibble w 6) (String (nibble w 7)
  rest))))))).

Definition regs_hex (r : regs) : string :=
  word_hex (ra r) (word_hex (rb r) (word_hex (rc r) (word_hex (rd r)
 (word_hex (re r) (word_hex (rf r) (word_hex (rg r) (word_hex (rh r) ""))))))).

Definition bytes_of_string (s : string) : list N :=
  map N_of_ascii (list_ascii_of_string s).

(** [createHash('sha256').update(text).digest('hex')] *)
Definition hexdigest (text : string) : string :=
  regs_hex (digest (bytes_of_string text)).

End SHA256.

(* ===================================================================== *)
(** * Node's [path] module, POSIX flavour *)
(* ===================================================================== *)

Module Path.

Definition is_sep (c : ascii) : bool := Ascii.eqb c "/"%char.
Definition is_dot (c : ascii) : bool := Ascii.eqb c "."%char.

(** [path.slice(from, to)] for [0 <= from <= to] *)
Definition slice (p : string) (from to : Z) : string :=
  String.substring (Z.to_nat from) (Z.to_nat (to - from)) p.

Definition len (p : string) : Z := Z.of_nat (String.length p).

Definition isAbsolute (p : string) : bool :=
  match p with
  | String c _ => is_sep c
  | EmptyString => false
  end.

(** The pieces of a path between its separators *)
Fixpoint split_acc (s cur : string) : list string :=
  match s with
  | EmptyString => [Str.rev cur]
  | String c s' =>
      if is_sep c then Str.rev cur :: split_acc s' EmptyString
      else split_acc s' (String c cur)
  end.

Definition segments (p : string) : list string := split_acc p EmptyString.

(** [normalizeString]: [res] is the stack of kept segments, top first *)
Fixpoint normalize_acc (allowAboveRoot : bool) (segs res : list string) : list string :=
  match segs with
  | [] => rev res
  | seg :: rest =>
      if (String.eqb seg "" || String.eqb seg ".")%bool then
        normalize_acc allowAboveRoot rest res
      else if String.eqb seg ".." then
        match res with
        | top :: below =>
            if String.eqb top ".." then
              normalize_acc allowAboveRoot rest
                (if allowAboveRoot then ".."%string :: res else res)
            else normalize_acc allowAboveRoot rest below
        | [] =>
            normalize_acc allowAboveRoot rest
              (if allowAboveRoot then [".."%string] else [])
        end
      else normalize_acc allowAboveRoot rest (seg :: res)
  end.

Definition normalizeString (p : string) (allowAboveRoot : bool) : string :=
  Str.join "/" (normalize_acc allowAboveRoot (segments p) []).

(** [path.resolve(p)] with the working directory [cwd] (absolute) *)
Definition resolve (cwd p : string) : string :=
  let joined :=
    if String.eqb p "" then cwd +:+ "/"
    else if isAbsolute p then p +:+ "/"
    else cwd +:+ "/" +:+ p +:+ "/" in
  "/" +:+ normalizeString joined false.

(** [path.normalize(p)] *)
Definition normalize (p : string) : string :=
  if String.eqb p "" then "." else
  let abs := isAbsolute p in
  let trailing := Str.endsWith p "/" in
  let body := normalizeString p (negb abs) in
  if String.eqb body "" then
    (if abs then "/" else if trailing then "./" else ".")
  else
    let body' := if trailing then body +:+ "/" else body in
    if abs then "/" +:+ body' else body'.

(** [path.join(a, b)] *)
Definition join (a b : string) : string :=
  if String.eqb a "" then (if String.eqb b "" then "." else normalize b)
  else if String.eqb b "" then normalize a
  else normalize (a +:+ "/" +:+ b).

(** [path.dirname(p)]: the loop runs from the last index down to 1 *)
Fixpoint dirname_loop (r : list ascii) (i : Z) (matchedSlash : bool) : Z :=
  match r with
  | [] => -1
  | c :: r' =>
      if is_sep c then
        if matchedSlash then dirname_loop r' (i - 1) matchedSlash else i
      else dirname_loop r' (i - 1) false
  end.

Definition dirname (p : string) : string :=
  match p with
  | EmptyString => "."
  | String c0 body =>
      let hasRoot := is_sep c0 in
      let stop := dirname_loop (rev (list_ascii_of_string body)) (len p - 1) true in
      if stop =? -1 then (if hasRoot then "/" else ".")
      else if (hasRoot && (stop =? 1))%bool then "//"
      else slice p 0 stop
  end.

(** State of the loop of [path.basename(p, suffix)] *)
Record base_st := BaseSt {
  b_start : Z; b_end : Z; b_matchedSlash : bool;
  b_ext : list ascii;          (** suffix characters still to match, last first *)
  b_firstNonSlashEnd : Z }.

Fixpoint basename_suffix_loop (r : list ascii) (i : Z) (st : base_st) : base_st :=
  match r with
  | [] => st
  | c :: r' =>
      if is_sep c then
        if b_matchedSlash st then basename_suffix_loop r' (i - 1) st
        else BaseSt (i + 1) (b_end st) (b_matchedSlash st) (b_ext st) (b_firstNonSlashEnd st)
      else
        let st1 :=
          if b_firstNonSlashEnd st =? -1
          then BaseSt (b_start st) (b_end st) false (b_ext st) (i + 1)
          else st in
        let st2 :=
          match b_ext st1 with
          | [] => st1
          | e :: es =>
              if Ascii.eqb c e then
                BaseSt (b_start st1) (match es with [] => i | _ => b_end st1 end)
                       (b_matchedSlash st1) es (b_firstNonSlashEnd st1)
              else
                BaseSt (b_start st1) (b_firstNonSlashEnd st1)
                       (b_matchedSlash st1) [] (b_firstNonSlashEnd st1)
          end in
        basename_suffix_loop r' (i - 1) st2
  end.

Fixpoint basename_plain_loop (r : list ascii) (i : Z) (start end_ : Z)
    (matchedSlash : bool) : Z * Z :=
  match r with
  | [] => (start, end_)
  | c :: r' =>
      if is_sep c then
        if matchedSlash then basename_plain_loop r' (i - 1) start end_ matchedSlash
        else (i + 1, end_)
      else if end_ =? -1 then basename_plain_loop r' (i - 1) start (i + 1) false
      else basename_plain_loop r' (i - 1) start end_ matchedSlash
  end.

(** [path.basename(p, suffix)] *)
Definition basename (p suffix : string) : string :=
  let r := rev (list_ascii_of_string p) in
  if (negb (String.eqb suffix "") && (len suffix <=? len p))%bool then
    if String.eqb suffix p then "" else
    let st := basename_suffix_loop r (len p - 1)
                (BaseSt 0 (-1) true (rev (list_ascii_of_string suffix)) (-1)) in
    let end_ :=
      if b_start st =? b_end st then b_firstNonSlashEnd st
      else if b_end st =? -1 then len p
      else b_end st in
    slice p (b_start st) end_
  else
    let '(start, end_) := basename_plain_loop r (len p - 1) 0 (-1) true in
    if end_ =? -1 then "" else slice p start end_.

(** State of the loop of [path.extname(p)] *)
Record ext_st := ExtSt {
  e_startDot : Z; e_startPart : Z; e_end : Z;
  e_matchedSlash : bool; e_preDotState : Z }.

Fixpoint extname_loop (r : list ascii) (i : Z) (st : ext_st) : ext_st :=
  match r with
  | [] => st
  | c :: r' =>
      if is_sep c then
        if e_matchedSlash st then extname_loop r' (i - 1) st
        else ExtSt (e_startDot st) (i + 1) (e_end st) (e_matchedSlash st) (e_preDotState st)
      else
        let st1 :=
          if e_end st =? -1
          then ExtSt (e_startDot st) (e_startPart st) (i + 1) false (e_preDotState st)
          else st in
        let st2 :=
          if is_dot c then
            if e_startDot st1 =? -1
            then ExtSt i (e_startPart st1) (e_end st1) (e_matchedSlash st1) (e_preDotState st1)
            else if negb (e_preDotState st1 =? 1)
            then ExtSt (e_startDot st1) (e_startPart st1) (e_end st1) (e_matchedSlash st1) 1
            else st1
          else if negb (e_startDot st1 =? -1)
            then ExtSt (e_startDot st1) (e_startPart st1) (e_end st1) (e_matchedSlash st1) (-1)
            else st1 in
        extname_loop r' (i - 1) st2
  end.

(** [path.extname(p)] *)
Definition extname (p : string) : string :=
  let st := extname_loop (rev (list_ascii_of_string p)) (len p - 1)
              (ExtSt (-1) 0 (-1) true 0) in
  if ((e_startDot st =? -1) || (e_end st =? -1) || (e_preDotState st =? 0)
      || ((e_preDotState st =? 1) && (e_startDot st =? e_end st - 1)
          && (e_startDot st =? e_startPart st + 1)))%bool
  then ""
  else slice p (e_startDot st) (e_end st).

End Path.

(* ===================================================================== *)
(** * JavaScript values that arrive as JSON *)
(* ===================================================================== *)

(** A parsed JSON value.  Numbers are kept as integers: the script only
    tests numbers for truth and prints them.  [undefined] is the [None]
    of [option json]. *)
Inductive json : Type :=
| JNull
| JBool (b : bool)
| JNum (n : Z)
| JStr (s : string)
| JArr (items : list json)
| JObj (fields : list (string * json)).

Module Js.

(** Truthiness, as [if (v)], [!v] and [v || d] test it *)
Definition truthy (v : option json) : bool :=
  match v with
  | None => false
  | Some JNull => false
  | Some (JBool b) => b
  | Some (JNum n) => negb (n =? 0)
  | Some (JStr s) => negb (String.eqb s "")
  | Some (JArr _) => true
  | Some (JObj _) => true
  end.

Fixpoint assoc (k : string) (fields : list (string * json)) : option json :=
  match fields with
  | [] => None
  | (k', v) :: rest => if String.eqb k k' then Some v else assoc k rest
  end.

(** [v.k] on a value that is neither [null] nor [undefined]; no
    property the script reads exists on a string, number, boolean or
    array *)
Definition prop (v : json) (k : string) : option json :=
  match v with
  | JObj fields => assoc k fields
  | _ => None
  end.

(** [v?.k] *)
Definition opt_prop (v : option json) (k : string) : option json :=
  match v with
  | None | Some JNull => None
  | Some j => prop j k
  end.

(** [typeof v === 'string'] *)
Definition is_string (v : option json) : bool :=
  match v with Some (JStr _) => true | _ => false end.

(** [v === s] for a string constant [s] *)
Definition strict_eq_string (v : option json) (s : string) : bool :=
  match v with Some (JStr s') => String.eqb s' s | _ => false end.

(** [String(v)], which is also how a template literal prints [v] *)
Fixpoint display_json (v : json) : string :=
  match v with
  | JNull => "null"
  | JBool true => "true"
  | JBool false => "false"
  | JNum n => Str.of_Z n
  | JStr s => s
  | JArr items =>
      Str.join ","
        (map (fun i => match i with JNull => ""%string | _ => display_json i end) items)
  | JObj _ => "[object Object]"
  end.

Definition display (v : option json) : string :=
  match v with
  | None => "undefined"
  | Some j => display_json j
  end.

Definition display_string (v : option string) : string :=
  match v with
  | None => "undefined"
  | Some s => s
  end.

Definition dq : string := String (ascii_of_nat 34) EmptyString.

(** How Node names a value of the wrong type in an argument error *)
Definition received (v : option json) : string :=
  match v with
  | None => "undefined"
  | Some JNull => "null"
  | Some (JBool b) => "type boolean (" +:+ display v +:+ ")"
  | Some (JNum n) => "type number (" +:+ display v +:+ ")"
  | Some (JStr s) => "type string ('" +:+ s +:+ "')"
  | Some (JArr _) => "an instance of Array"
  | Some (JObj _) => "an instance of Object"
  end.

(** ASCII white space, removed by [trim] *)
Definition is_space (c : ascii) : bool :=
  let n := nat_of_ascii c in
  ((n =? 32)%nat || ((9 <=? n)%nat && (n <=? 13)%nat))%bool.

Fixpoint trim_left (s : string) : string :=
  match s with
  | String c s' => if is_space c then trim_left s' else s
  | EmptyString => EmptyString
  end.

(** [s.trim()] *)
Definition trim (s : string) : string :=
  Str.rev (trim_left (Str.rev (trim_left s))).

End Js.

(* ===================================================================== *)
(** * Types of the script *)
(* ===================================================================== *)

Record LlmResponse := { timestamp : string; response : option string }.

Record ConversationState := {
  lastOcrResult : option string;
  lastImagePath : option json;
  llmResponses : list LlmResponse }.

Record McpToolProperty := { prop_name : string; prop_type : string; prop_description : string }.

Record McpToolParameter := {
  param_type : string;
  properties : list McpToolProperty;
  required : list string }.

Record McpTool := {
  name : string;
  description : string;
  parameters : McpToolParameter }.

Record McpContentItem := { type : string; text : string }.

Record McpToolResult := {
  content : list McpContentItem;
  isError : option bool }.

Record McpServerInfo := { server_name : string; server_version : string }.

(** An entry of the [tools/list] reply *)
Record ToolListing := {
  listing_name : string;
  listing_description : string;
  inputSchema : McpToolParameter;
  outputSchema : string      (** description of the [text] property *) }.

(** The [result] member of a reply *)
Inductive result : Type :=
| McpInitializeResponse (protocolVersion : string) (serverInfo : McpServerInfo)
    (capabilities : list (string * (string * McpToolParameter)))
    (client : option json)
| McpListOfferingsResponse (protocolVersion : string) (serverInfo : McpServerInfo)
    (offerings : list McpTool) (client : option json)
| ToolsListResponse (tools : list ToolListing)
| ToolResult (r : McpToolResult).

(** A line written to stdout *)
Inductive JsonRpcResponse : Type :=
| JsonRpcSuccessResponse (id : option json) (res : result)
| JsonRpcErrorResponse (id : json) (code : Z) (message : string).

(** What one run of [curl] is asked to send *)
Record OpenAIRequest := {
  authorization : string;
  model : string;
  prompt : string;
  image_mime : string;
  image_data : string;
  image_detail : string;
  max_tokens : Z }.

(** What one run of [curl] hands back when it closes *)
Record CurlExit := { exit_code : Z; responseData : string; errorOutput : string }.

(** A node of the file system *)
Inductive node : Type :=
| File (size : Z) (readable writable : bool) (data : string)
| Dir (writable : bool) (entries : list string).

(** The process: module-level variables, file system, stdout, the
    remote calls spawned so far and the number of clock readings *)
Record State := {
  OPENAI_API_KEY : option string;
  conversationState : ConversationState;
  clientInfo : option json;
  fs : gmap string node;
  stdout : list JsonRpcResponse;
  spawned : list OpenAIRequest;
  clock : nat }.

Definition set_api_key (k : option string) (s : State) : State :=
  {| OPENAI_API_KEY := k; conversationState := conversationState s;
     clientInfo := clientInfo s; fs := fs s; stdout := stdout s;
     spawned := spawned s; clock := clock s |}.

Definition set_conversation (c : ConversationState) (s : State) : State :=
  {| OPENAI_API_KEY := OPENAI_API_KEY s; conversationState := c;
     clientInfo := clientInfo s; fs := fs s; stdout := stdout s;
     spawned := spawned s; clock := clock s |}.

Definition set_clientInfo (c : option json) (s : State) : State :=
  {| OPENAI_API_KEY := OPENAI_API_KEY s; conversationState := conversationState s;
     clientInfo := c; fs := fs s; stdout := stdout s;
     spawned := spawned s; clock := clock s |}.

Definition set_fs (f : gmap string node) (s : State) : State :=
  {| OPENAI_API_KEY := OPENAI_API_KEY s; conversationState := conversationState s;
     clientInfo := clientInfo s; fs := f; stdout := stdout s;
     spawned := spawned s; clock := clock s |}.

Definition set_stdout (o : list JsonRpcResponse) (s : State) : State :=
  {| OPENAI_API_KEY := OPENAI_API_KEY s; conversationState := conversationState s;
     clientInfo := clientInfo s; fs := fs s; stdout := o;
     spawned := spawned s; clock := clock s |}.

Definition set_spawned (l : list OpenAIRequest) (s : State) : State :=
  {| OPENAI_API_KEY := OPENAI_API_KEY s; conversationState := conversationState s;
     clientInfo := clientInfo s; fs := fs s; stdout := stdout s;
     spawned := l; clock := clock s |}.

Definition set_clock (n : nat) (s : State) : State :=
  {| OPENAI_API_KEY := OPENAI_API_KEY s; conversationState := conversationState s;
     clientInfo := clientInfo s; fs := fs s; stdout := stdout s;
     spawned := spawned s; clock := n |}.

(* ===================================================================== *)
(** * The effect monad: state and exceptions *)
(* ===================================================================== *)

Inductive outcome (A : Type) : Type :=
| Ok (a : A)
| Throw (message : string).
Arguments Ok {A} a.
Arguments Throw {A} message.

Definition M (A : Type) : Type := State -> outcome A * State.

Definition ret {A} (a : A) : M A := fun s => (Ok a, s).

Definition bind {A B} (m : M A) (k : A -> M B) : M B :=
  fun s =>
    match m s with
    | (Ok a, s') => k a s'
    | (Throw e, s') => (Throw e, s')
    end.

(** [throw new Error(message)] *)
Definition throw {A} (message : string) : M A := fun s => (Throw message, s).

(** [try { m } catch (error) { handler(error.message) }] *)
Definition try_catch {A} (m : M A) (handler : string -> M A) : M A :=
  fun s =>
    match m s with
    | (Ok a, s') => (Ok a, s')
    | (Throw e, s') => handler e s'
    end.

Definition gets {A} (f : State -> A) : M A := fun s => (Ok (f s), s).
Definition modify (f : State -> State) : M unit := fun s => (Ok tt, f s).

(** Lifts a computation that only throws *)
Definition lift {A} (o : outcome A) : M A := fun s => (o, s).

Declare Scope js_scope.
Delimit Scope js_scope with js.
Notation "x <- m ;; k" := (bind m (fun x => k))
  (at level 100, m at next level, right associativity) : js_scope.
Notation "m ;;; k" := (bind m (fun _ => k))
  (at level 100, right associativity) : js_scope.
Local Open Scope js_scope.

(* ===================================================================== *)
(** * Runtime services the script relies on *)
(* ===================================================================== *)

Class Runtime := {
  (** [JSON.parse]: the message of the [SyntaxError], or the value *)
  JSON_parse : string -> string + json;
  (** [JSON.stringify(v)] *)
  JSON_stringify : json -> string;
  (** [JSON.stringify(v, null, 2)] *)
  JSON_stringify_pretty : json -> string;
  (** [new Date().toISOString()] at the n-th reading of the clock *)
  Date_toISOString : nat -> string;
  (** how the n-th spawned [curl] closes *)
  curl : nat -> OpenAIRequest -> CurlExit;
  (** [process.env] *)
  process_env : string -> option string;
  (** [process.cwd()], an absolute path *)
  process_cwd : string }.

(* ===================================================================== *)
(** * Constants and tool definitions *)
(* ===================================================================== *)

Definition MAX_FILE_SIZE : Z := 5 * 1024 * 1024.
Definition ALLOWED_EXTENSIONS : list string := [".jpg"; ".jpeg"; ".png"; ".gif"; ".webp"]%string.
Definition SERVER_NAME : string := "openai-ocr-service".
Definition SERVER_VERSION : string := "1.0.0".
Definition PROTOCOL_VERSION : string := "2024-11-05".

Definition OCR_TOOL : McpTool := {|
  name := "extract_text_from_image";
  description := "Extract text from images using OpenAI's vision capabilities. Simply provide the full path to a local image file.";
  parameters := {|
    param_type := "object";
    properties := [ {| prop_name := "image_path"; prop_type := "string";
                       prop_description := "Full path to a local image file (e.g., /Users/username/Pictures/image.jpg)" |} ];
    required := ["image_path"%string] |} |}.

Definition APPEND_ANALYSIS_TOOL : McpTool := {|
  name := "append_analysis";
  description := "Append LLM analysis to an OCR text file. This tool is used to add AI commentary to existing OCR results.";
  parameters := {|
    param_type := "object";
    properties := [ {| prop_name := "text_file_path"; prop_type := "string";
                       prop_description := "Path to the OCR text file to append analysis to" |};
                    {| prop_name := "analysis"; prop_type := "string";
                       prop_description := "The LLM's analysis to append to the file" |} ];
    required := ["text_file_path"; "analysis"]%string |} |}.

Definition nl : string := Str.newline.

Definition text_item (t : string) : McpContentItem := {| type := "text"; text := t |}.

(** The soft error every tool returns from its [catch] block *)
Definition error_result (message : string) : McpToolResult :=
  {| content := [text_item ("Error: " +:+ message)]; isError := Some true |}.

(* ===================================================================== *)
(** * API key discovery *)
(* ===================================================================== *)

Record KeyValidation := { isValid : bool; issue : option string }.

Definition validateApiKey (key : string) : KeyValidation :=
  if String.eqb key "" then {| isValid := false; issue := Some "API key is empty"%string |}
  else
    let cleanKey := Js.trim key in
    if (String.eqb cleanKey "sk-proj-" || Str.startsWith cleanKey "sk-proj-*")%bool then
      {| isValid := false; issue := Some "API key appears to be truncated"%string |}
    else
      let isStandardKey :=
        (Str.startsWith cleanKey "sk-" && (20 <? Path.len cleanKey))%bool in
      let isProjectKey :=
        (Str.startsWith cleanKey "sk-proj-" && (30 <? Path.len cleanKey))%bool in
      if (negb isStandardKey && negb isProjectKey)%bool then
        {| isValid := false;
           issue := Some ("Invalid key format. Key must start with " +:+ Js.dq +:+ "sk-"
                          +:+ Js.dq +:+ " or " +:+ Js.dq +:+ "sk-proj-" +:+ Js.dq
                          +:+ " and be of sufficient length. Got: "
                          +:+ Str.take 8 cleanKey +:+ "...") |}
      else {| isValid := true; issue := None |}.

Section Server.

Context `{Runtime}.

Fixpoint getOpenAIApiKey_loop (possibleEnvVars : list string) : option string :=
  match possibleEnvVars with
  | [] => None
  | envVar :: rest =>
      match process_env envVar with
      | Some key =>
          if (negb (String.eqb key "") && negb (String.eqb key "your-api-key-here"))%bool then
            let cleanKey := Js.trim key in
            if isValid (validateApiKey cleanKey) then Some cleanKey
            else getOpenAIApiKey_loop rest
          else getOpenAIApiKey_loop rest
      | None => getOpenAIApiKey_loop rest
      end
  end.

Definition getOpenAIApiKey : option string :=
  getOpenAIApiKey_loop ["OPENAI_API_KEY"; "openai_api_key"; "OpenAI_API_Key"]%string.

(* =================================================================== *)
(** ** The clock and stdout *)
(* =================================================================== *)

(** [new Date().toISOString()] *)
Definition now : M string :=
  fun s => (Ok (Date_toISOString (clock s)), set_clock (S (clock s)) s).

(** [process.stdout.write(JSON.stringify(response) + '\n')] *)
Definition write_stdout (r : JsonRpcResponse) : M unit :=
  modify (fun s => set_stdout (stdout s ++ [r]) s).

Definition sendResponse (id : option json) (res : result) : M unit :=
  write_stdout (JsonRpcSuccessResponse id res).

(** [id || 'error'] *)
Definition id_or_error (id : option json) : json :=
  match id with
  | Some j => if Js.truthy id then j else JStr "error"
  | None => JStr "error"
  end.

Definition sendError (id : option json) (code : Z) (message : string) : M unit :=
  write_stdout (JsonRpcErrorResponse (id_or_error id) code message).

(* =================================================================== *)
(** ** Node's [fs] module over the modelled file system *)
(* =================================================================== *)

(** The absolute path the operating system resolves [p] to; there are
    no symbolic links *)
Definition abs (p : string) : string := Path.resolve process_cwd p.

Definition errno (code what p : string) : string :=
  code +:+ ", " +:+ what +:+ " '" +:+ p +:+ "'".

Definition ENOENT := errno "ENOENT: no such file or directory".
Definition EACCES := errno "EACCES: permission denied".
Definition EISDIR := errno "EISDIR: illegal operation on a directory".
Definition ENOTDIR := errno "ENOTDIR: not a directory".

Definition existsSync (p : string) : M bool :=
  gets (fun s => (negb (String.eqb p "") && bool_decide (is_Some (fs s !! abs p)))%bool).

(** [fs.statSync(p)]: [isFile()] and [size] *)
Definition statSync (p : string) : M (bool * Z) :=
  n <- gets (fun s => fs s !! abs p) ;;
  match n with
  | Some (File size _ _ _) => ret (true, size)
  | Some (Dir _ _) => ret (false, 4096)
  | None => throw (ENOENT "stat" p)
  end.

Definition readFileSync (p : string) : M string :=
  n <- gets (fun s => fs s !! abs p) ;;
  match n with
  | Some (File _ true _ data) => ret data
  | Some (File _ false _ _) => throw (EACCES "open" p)
  | Some (Dir _ _) => throw "EISDIR: illegal operation on a directory, read"
  | None => throw (ENOENT "open" p)
  end.

(** [openSync(p, 'r')], [readSync] of the first 1024 bytes, [closeSync] *)
Definition probe_read (p : string) : M unit :=
  data <- readFileSync p ;; ret tt.

Definition readdirSync (p : string) : M (list string) :=
  n <- gets (fun s => fs s !! abs p) ;;
  match n with
  | Some (Dir _ entries) => ret entries
  | Some (File _ _ _ _) => throw (ENOTDIR "scandir" p)
  | None => throw (ENOENT "scandir" p)
  end.

Definition byte_length (text : string) : Z := Z.of_nat (String.length text).

(** Creates the regular file [p] with contents [text].  The new name
    goes to the end of the listing of its directory; where an
    operating system puts it is not specified. *)
Definition create_file (p text : string) : M unit :=
  let parent := Path.dirname (abs p) in
  n <- gets (fun s => fs s !! parent) ;;
  match n with
  | Some (Dir true entries) =>
      modify (fun s =>
        set_fs (<[abs p := File (byte_length text) true true text]>
                  (<[parent := Dir true (entries ++ [Path.basename (abs p) ""])]> (fs s))) s)
  | Some (Dir false _) => throw (EACCES "open" p)
  | Some (File _ _ _ _) => throw (ENOTDIR "open" p)
  | None => throw (ENOENT "open" p)
  end.

(** [fs.writeFileSync(p, text, 'utf8')] *)
Definition writeFileSync (p text : string) : M unit :=
  n <- gets (fun s => fs s !! abs p) ;;
  match n with
  | Some (File _ r true _) =>
      modify (fun s => set_fs (<[abs p := File (byte_length text) r true text]> (fs s)) s)
  | Some (File _ _ false _) => throw (EACCES "open" p)
  | Some (Dir _ _) => throw (EISDIR "open" p)
  | None => create_file p text
  end.

(** [fs.appendFileSync(p, text, 'utf8')] *)
Definition appendFileSync (p text : string) : M unit :=
  n <- gets (fun s => fs s !! abs p) ;;
  match n with
  | Some (File size r true data) =>
      modify (fun s =>
        set_fs (<[abs p := File (size + byte_length text) r true (data +:+ text)]> (fs s)) s)
  | Some (File _ _ false _) => throw (EACCES "open" p)
  | Some (Dir _ _) => throw (EISDIR "open" p)
  | None => create_file p text
  end.

(** The [TypeError] of a [path] function called on a non-string *)
Definition path_argument (arg : string) (v : option json) : M string :=
  match v with
  | Some (JStr s) => ret s
  | _ => throw ("The " +:+ Js.dq +:+ arg +:+ Js.dq
                +:+ " argument must be of type string. Received " +:+ Js.received v)
  end.

(* =================================================================== *)
(** ** The content-addressed file store *)
(* =================================================================== *)

(** [generateShortHash]: the first 8 characters of the hex digest *)
Definition generateShortHash (text : string) : string :=
  Str.take 8 (SHA256.hexdigest text).

(** The name [saveExtractedText] gives the text file of an image *)
Definition txtPath_of (imagePath text : string) : string :=
  let dir := Path.dirname imagePath in
  let baseNameWithoutExt := Path.basename imagePath (Path.extname imagePath) in
  let hash := generateShortHash text in
  Path.join dir (baseNameWithoutExt +:+ "-" +:+ hash +:+ ".txt").

Definition ocr_section (text : string) : string :=
  "OCR EXTRACTED TEXT:" +:+ nl +:+ "==================" +:+ nl +:+ text +:+ nl.

Definition saveExtractedText (imagePath text : string) : M string :=
  let txtPath := txtPath_of imagePath text in
  try_catch
    (writeFileSync txtPath (ocr_section text) ;;; ret txtPath)
    (fun e => throw ("Failed to save text file: " +:+ e)).

Definition separator : string :=
  nl +:+ nl +:+ "LLM ANALYSIS:" +:+ nl +:+ "=============" +:+ nl.

(** The section both append paths write: separator, bracketed
    timestamp, the text, a newline *)
Definition analysis_section (timestamp body : string) : string :=
  separator +:+ "[" +:+ timestamp +:+ "]" +:+ nl +:+ body +:+ nl.

Definition appendLlmResponseToFile (txtPath : string) (response : option json) : M unit :=
  try_catch
    (timestamp <- now ;;
     let formattedResponse :=
       match response with
       | Some (JStr s) => s
       | _ => Js.display_string (JSON_stringify_pretty <$> response)
       end in
     appendFileSync txtPath (analysis_section timestamp formattedResponse))
    (fun _ => ret tt).

(** The entries [logLlmResponse] and [handleNotification] look for *)
Definition matches (baseNameWithoutExt file : string) : bool :=
  (Str.startsWith file (baseNameWithoutExt +:+ "-") && Str.endsWith file ".txt")%bool.

Definition push_llmResponse (r : LlmResponse) (s : State) : State :=
  set_conversation
    {| lastOcrResult := lastOcrResult (conversationState s);
       lastImagePath := lastImagePath (conversationState s);
       llmResponses := llmResponses (conversationState s) ++ [r] |} s.

Definition logLlmResponse (response : option json) : M unit :=
  timestamp <- now ;;
  modify (push_llmResponse
            {| timestamp := timestamp; response := JSON_stringify <$> response |}) ;;;
  last <- gets (fun s => lastImagePath (conversationState s)) ;;
  if Js.truthy last then
    try_catch
      (dir <- (p <- path_argument "path" last ;; ret (Path.dirname p)) ;;
       baseNameWithoutExt <-
         (p <- path_argument "path" last ;; ret (Path.basename p (Path.extname p))) ;;
       files <- readdirSync dir ;;
       let matchingFiles := List.filter (matches baseNameWithoutExt) files in
       match list.last matchingFiles with
       | Some matchingFile =>
           let txtPath := Path.join dir matchingFile in
           currentContent <- readFileSync txtPath ;;
           appendLlmResponseToFile txtPath response ;;;
           updatedContent <- readFileSync txtPath ;;
           ret tt
       | None => ret tt
       end)
      (fun _ => ret tt)
  else ret tt.

(* =================================================================== *)
(** ** The append_analysis tool *)
(* =================================================================== *)

(** [fs.existsSync] answers [false] for anything that is not a path *)
Definition existsSync_any (v : option json) : M bool :=
  match v with
  | Some (JStr p) => existsSync p
  | _ => ret false
  end.

Definition handleAppendAnalysis (args : option json) : M McpToolResult :=
  try_catch
    (match args with
     | None => throw "Cannot destructure property 'text_file_path' of 'args' as it is undefined."
     | Some JNull => throw "Cannot destructure property 'text_file_path' of 'args' as it is null."
     | Some a =>
         let text_file_path := Js.prop a "text_file_path" in
         let analysis := Js.prop a "analysis" in
         found <- existsSync_any text_file_path ;;
         if negb found then throw ("Text file not found: " +:+ Js.display text_file_path)
         else if negb (Str.endsWith (Js.display text_file_path) ".txt")
         then throw "File must be a .txt file"
         else
           timestamp <- now ;;
           appendFileSync (Js.display text_file_path)
             (analysis_section timestamp (Js.display analysis)) ;;;
           ret {| content := [text_item ("Analysis has been appended to: "
                                         +:+ Js.display text_file_path)];
                  isError := None |}
     end)
    (fun e => ret (error_result e)).

(** The arguments the script itself builds for the tool *)
Definition append_args (text_file_path analysis : string) : option json :=
  Some (JObj [("text_file_path"%string, JStr text_file_path);
              ("analysis"%string, JStr analysis)]).

(* =================================================================== *)
(** ** The extract_text_from_image tool *)
(* =================================================================== *)

Definition getMimeType (filePath : string) : string :=
  let ext := Str.toLowerCase (Path.extname filePath) in
  if (String.eqb ext ".jpg" || String.eqb ext ".jpeg")%bool then "image/jpeg"
  else if String.eqb ext ".png" then "image/png"
  else if String.eqb ext ".gif" then "image/gif"
  else if String.eqb ext ".webp" then "image/webp"
  else "image/jpeg".

Definition pad2 (n : Z) : string :=
  if n <? 10 then "0" +:+ Str.of_Z n else Str.of_Z n.

(** [(size / (1024 * 1024)).toFixed(2)]: the quotient is exact in
    floating point, and [toFixed] rounds half up *)
Definition toFixed2_MB (size : Z) : string :=
  let n := (200 * size + 1048576) / 2097152 in
  Str.of_Z (n / 100) +:+ "." +:+ pad2 (n mod 100).

Definition includes (l : list string) (x : string) : bool :=
  existsb (String.eqb x) l.

(** The API key checks that open the tool *)
Definition ensure_api_key : M string :=
  k <- gets OPENAI_API_KEY ;;
  key <-
    match k with
    | Some key => if String.eqb key "" then
                    modify (set_api_key getOpenAIApiKey) ;;;
                    match getOpenAIApiKey with
                    | Some key' => ret key'
                    | None => throw "OpenAI API key is not available. Please set the environment variable."
                    end
                  else ret key
    | None =>
        modify (set_api_key getOpenAIApiKey) ;;;
        match getOpenAIApiKey with
        | Some key' => ret key'
        | None => throw "OpenAI API key is not available. Please set the environment variable."
        end
    end ;;
  let validation := validateApiKey key in
  if negb (isValid validation)
  then throw ("Invalid API key: " +:+ Js.display_string (issue validation))
  else ret key.

(** What the validation hands to the remote call *)
Record Prepared := {
  prep_key : string; prep_imagePath : string;
  prep_imageBuffer : string; prep_mimeType : string }.

(** The checks on the image file at the resolved path, and the read
    of the image *)
Definition checked_file (key imagePath : string) : M Prepared :=
  try_catch
    (found <- existsSync imagePath ;;
     if negb found then throw ("File not found at path: " +:+ imagePath) else ret tt)
    (fun e => throw ("File access error: " +:+ e)) ;;;
  try_catch
    (stats <- statSync imagePath ;;
     if negb (fst stats) then throw ("Not a file: " +:+ imagePath)
     else if MAX_FILE_SIZE <? snd stats then
       throw ("File too large: " +:+ toFixed2_MB (snd stats) +:+ "MB (max: "
              +:+ Str.of_Z (MAX_FILE_SIZE / (1024 * 1024)) +:+ "MB)")
     else ret tt)
    (fun e => throw ("File stats error: " +:+ e)) ;;;
  let ext := Str.toLowerCase (Path.extname imagePath) in
  if negb (includes ALLOWED_EXTENSIONS ext) then
    throw ("Invalid file type: " +:+ ext +:+ ". Allowed types: "
           +:+ Str.join ", " ALLOWED_EXTENSIONS)
  else
  try_catch (probe_read imagePath) (fun e => throw ("File read error: " +:+ e)) ;;;
  imageBuffer <-
    try_catch (readFileSync imagePath)
              (fun e => throw ("Failed to read image file: " +:+ e)) ;;
  ret {| prep_key := key; prep_imagePath := imagePath;
         prep_imageBuffer := imageBuffer; prep_mimeType := getMimeType imagePath |}.

(** The checks on the arguments, then on the file they name *)
Definition checked_image (args : option json) (key : string) : M Prepared :=
  if negb (Js.truthy args) then throw "Arguments are required but were undefined" else
  let image_path := Js.opt_prop args "image_path" in
  if negb (Js.truthy image_path) then throw "image_path is required but was missing" else
  p <- path_argument "paths[0]" image_path ;;
  checked_file key (Path.resolve process_cwd p).

(** The synchronous part of the tool, up to the creation of the
    promise: every [throw] in it reaches the [catch] of the tool *)
Definition prepare (args : option json) : M Prepared :=
  key <- ensure_api_key ;;
  checked_image args key.

Definition requestBody (p : Prepared) : OpenAIRequest := {|
  authorization := "Bearer " +:+ prep_key p;
  model := "gpt-4.1-mini";
  prompt := "Extract all text from this image and provide a detailed analysis of its contents. Include both the raw text and your analysis.";
  image_mime := prep_mimeType p;
  image_data := prep_imageBuffer p;
  image_detail := "high";
  max_tokens := 4096 |}.

(** [spawn('curl', ...)] and the wait for its [close] event *)
Definition spawn_curl (req : OpenAIRequest) : M CurlExit :=
  fun s => (Ok (curl (length (spawned s)) req), set_spawned (spawned s ++ [req]) s).

(** [v.k], which throws on [null] and [undefined] *)
Definition member (v : option json) (k : string) : M (option json) :=
  match v with
  | None => throw ("Cannot read properties of undefined (reading '" +:+ k +:+ "')")
  | Some JNull => throw ("Cannot read properties of null (reading '" +:+ k +:+ "')")
  | Some j => ret (Js.prop j k)
  end.

(** [v[0]] *)
Definition first_item (v : option json) : M (option json) :=
  match v with
  | None => throw "Cannot read properties of undefined (reading '0')"
  | Some JNull => throw "Cannot read properties of null (reading '0')"
  | Some (JArr items) => ret (head items)
  | Some (JStr (String c _)) => ret (Some (JStr (String c EmptyString)))
  | Some j => ret (Js.prop j "0")
  end.

Definition headings : list string :=
  ["Analysis:"; "Interpretation:"; "Summary:"; "Understanding:"]%string.

(** The lookahead of the regular expression, at the text after a
    blank line *)
Definition at_heading (s : string) : bool :=
  existsb (Str.startsWith_ci s) headings.

Definition is_newline (c : ascii) : bool := Ascii.eqb c (ascii_of_nat 10).

(** [s.split(/\n\n(?=Analysis:|Interpretation:|Summary:|Understanding:)/i)];
    [cur] is the current piece, last character first *)
Fixpoint split_acc (s cur : string) : list string :=
  match s with
  | EmptyString => [Str.rev cur]
  | String c s' =>
      match s' with
      | String c' s'' =>
          if (is_newline c && is_newline c' && at_heading s'')%bool
          then Str.rev cur :: split_acc s'' EmptyString
          else split_acc s' (String c cur)
      | EmptyString => split_acc s' (String c cur)
      end
  end.

Definition split_headings (s : string) : list string := split_acc s EmptyString.

(** [parts[0]] and [parts.length > 1 ? parts.slice(1).join('\n\n') : ''] *)
Definition extractedText_of (fullResponse : string) : string :=
  match split_headings fullResponse with
  | p :: _ => p
  | [] => ""
  end.

Definition analysis_of (fullResponse : string) : string :=
  match split_headings fullResponse with
  | _ :: (_ :: _) as rest => Str.join (nl +:+ nl) rest
  | _ => ""
  end.

Definition record_ocr (extractedText imagePath : string) (s : State) : State :=
  set_conversation
    {| lastOcrResult := Some extractedText;
       lastImagePath := Some (JStr imagePath);
       llmResponses := llmResponses (conversationState s) |} s.

(** [response.choices[0].message.content || "No text extracted"], as
    the string [split] is then called on *)
Definition fullResponse_of (resp : json) : M string :=
  choices <- member (Some resp) "choices" ;;
  choice <- first_item choices ;;
  message <- member choice "message" ;;
  content <- member message "content" ;;
  if Js.truthy content then
    match content with
    | Some (JStr s) => ret s
    | _ => throw "fullResponse.split is not a function"
    end
  else ret "No text extracted"%string.

(** The handler of the [close] event of [curl]: [inl] is a call of
    [reject], [inr] a call of [resolve] *)
Definition on_close (imagePath : string) (exit : CurlExit) : M (string + McpToolResult) :=
  if negb (exit_code exit =? 0) then
    ret (inl ("curl process exited with code " +:+ Str.of_Z (exit_code exit)
              +:+ ": " +:+ errorOutput exit))
  else
    try_catch
      (resp <- lift (match JSON_parse (responseData exit) with
                     | inl e => Throw e
                     | inr v => Ok v
                     end) ;;
       err <- member (Some resp) "error" ;;
       if Js.truthy err then
         message <- member err "message" ;;
         ret (inl ("OpenAI API error: " +:+ Js.display message))
       else
         fullResponse <- fullResponse_of resp ;;
         let extractedText := extractedText_of fullResponse in
         let analysis := analysis_of fullResponse in
         modify (record_ocr extractedText imagePath) ;;;
         res <-
           try_catch
             (txtPath <- saveExtractedText imagePath extractedText ;;
              (if negb (String.eqb analysis "") then
                 appended <- handleAppendAnalysis (append_args txtPath analysis) ;; ret tt
               else ret tt) ;;;
              ret {| content := [text_item extractedText;
                                 text_item (nl +:+ nl +:+ "Text has been saved to: " +:+ txtPath)];
                     isError := None |})
             (fun e =>
                ret {| content := [text_item extractedText;
                                   text_item (nl +:+ nl +:+ "Warning: Failed to save text file: " +:+ e)];
                       isError := None |}) ;;
         ret (inr res))
      (fun e => ret (inl ("Failed to parse OpenAI response: " +:+ e))).

(** The tool.  The promise of the remote call is returned from inside
    the [try] block without [await], so a rejection of that promise is
    not seen by the [catch] block of the tool: it rejects the promise
    of the tool itself, modelled here as a [Throw]. *)
Definition extractTextFromImage (args : option json) : M McpToolResult :=
  prepared <-
    try_catch (p <- prepare args ;; ret (inr p))
              (fun e => ret (inl (error_result e))) ;;
  match prepared with
  | inl soft => ret soft
  | inr p =>
      exit <- spawn_curl (requestBody p) ;;
      settled <- on_close (prep_imagePath p) exit ;;
      match settled with
      | inl reason => throw reason
      | inr res => ret res
      end
  end.

(* =================================================================== *)
(** ** MCP method handlers *)
(* =================================================================== *)

Definition serverInfo_ : McpServerInfo :=
  {| server_name := SERVER_NAME; server_version := SERVER_VERSION |}.

(** [if (clientInfo) response.clientInfo = clientInfo] *)
Definition reported_client (c : option json) : option json :=
  if Js.truthy c then c else None.

Definition handleInitialize (id params : option json) : M unit :=
  (if (Js.truthy params && Js.truthy (Js.opt_prop params "clientInfo"))%bool
   then modify (set_clientInfo (Js.opt_prop params "clientInfo"))
   else ret tt) ;;;
  c <- gets clientInfo ;;
  sendResponse id
    (McpInitializeResponse PROTOCOL_VERSION serverInfo_
       [ (name OCR_TOOL, (description OCR_TOOL, parameters OCR_TOOL));
         (name APPEND_ANALYSIS_TOOL,
          (description APPEND_ANALYSIS_TOOL, parameters APPEND_ANALYSIS_TOOL)) ]
       (reported_client c)).

Definition handleListOfferings (id : option json) : M unit :=
  c <- gets clientInfo ;;
  sendResponse id
    (McpListOfferingsResponse PROTOCOL_VERSION serverInfo_
       [OCR_TOOL; APPEND_ANALYSIS_TOOL] (reported_client c)).

Definition handleCallTool (id params : option json) : M unit :=
  if negb (Js.truthy params) then sendError id (-32602) "Invalid params" else
  let name_ := Js.opt_prop params "name" in
  let args := Js.opt_prop params "arguments" in
  if Js.strict_eq_string name_ (name OCR_TOOL) then
    try_catch
      (res <- extractTextFromImage args ;; sendResponse id (ToolResult res))
      (fun e => sendError id (-32000) ("Error executing tool: " +:+ e))
  else if Js.strict_eq_string name_ (name APPEND_ANALYSIS_TOOL) then
    try_catch
      (res <- handleAppendAnalysis args ;; sendResponse id (ToolResult res))
      (fun e => sendError id (-32000) ("Error executing tool: " +:+ e))
  else sendError id (-32601) ("Tool not found: " +:+ Js.display name_).

(** [lastOcrResult && lastImagePath] *)
Definition has_ocr_result (c : ConversationState) : bool :=
  (match lastOcrResult c with
   | Some t => negb (String.eqb t "")
   | None => false
   end && Js.truthy (lastImagePath c))%bool.

Definition handleNotification (method : string) (params : option json) : M unit :=
  if String.eqb method "notifications/llm_response" then
    logLlmResponse params ;;;
    c <- gets conversationState ;;
    if has_ocr_result c then
      dir <- (p <- path_argument "path" (lastImagePath c) ;; ret (Path.dirname p)) ;;
      baseNameWithoutExt <-
        (p <- path_argument "path" (lastImagePath c) ;;
         ret (Path.basename p (Path.extname p))) ;;
      try_catch
        (files <- readdirSync dir ;;
         let matchingFiles := List.filter (matches baseNameWithoutExt) files in
         match list.last matchingFiles with
         | Some matchingFile =>
             let txtPath := Path.join dir matchingFile in
             let analysis :=
               match params with
               | Some (JStr t) => Some (JStr t)
               | _ => JStr <$> (JSON_stringify_pretty <$> params)
               end in
             appended <-
               handleAppendAnalysis
                 (Some (JObj (("text_file_path"%string, JStr txtPath)
                              :: match analysis with
                                 | Some a => [("analysis"%string, a)]
                                 | None => []
                                 end))) ;;
             ret tt
         | None => ret tt
         end)
        (fun _ => ret tt)
    else ret tt
  else ret tt.

Definition handleToolsList (id : option json) : M unit :=
  sendResponse id
    (ToolsListResponse
       [ {| listing_name := name OCR_TOOL;
            listing_description := description OCR_TOOL;
            inputSchema := parameters OCR_TOOL;
            outputSchema := "Extracted text from the image" |};
         {| listing_name := name APPEND_ANALYSIS_TOOL;
            listing_description := description APPEND_ANALYSIS_TOOL;
            inputSchema := parameters APPEND_ANALYSIS_TOOL;
            outputSchema := "Status message about the analysis being appended" |} ]).

(** The shape rules of [handleToolsCall]: the tool name and the image
    path the first matching rule yields *)
Definition normalize_call (params : option json) : option json * option json :=
  let name_ := Js.opt_prop params "name" in
  let inner := Js.opt_prop params "params" in
  let arguments := Js.opt_prop params "arguments" in
  (* Case 1: a plain string is the image path *)
  if Js.is_string params then (Some (JStr (name OCR_TOOL)), params)
  (* Case 2: { name, params } with string params *)
  else if (Js.truthy name_ && Js.is_string inner)%bool then (name_, inner)
  (* Case 3: { name, params: { image_path } } *)
  else if (Js.truthy name_ && Js.truthy inner
           && Js.truthy (Js.opt_prop inner "image_path"))%bool
  then (name_, Js.opt_prop inner "image_path")
  (* Case 4: an object with image_path *)
  else if Js.truthy (Js.opt_prop params "image_path")
  then (Some (JStr (name OCR_TOOL)), Js.opt_prop params "image_path")
  (* Case 5: { name, arguments } *)
  else if (Js.truthy name_ && Js.truthy arguments)%bool then
    if Js.is_string arguments then (name_, arguments)
    else if Js.truthy (Js.opt_prop arguments "image_path")
    then (name_, Js.opt_prop arguments "image_path")
    else (name_, None)
  else (None, None).

(** [{ image_path: imagePath }] *)
Definition toolParams (imagePath : option json) : option json :=
  Some (JObj match imagePath with
             | Some j => [("image_path"%string, j)]
             | None => []
             end).

Definition handleToolsCall (id params : option json) : M unit :=
  if negb (Js.truthy params) then
    sendError id (-32602) "Invalid params: params is undefined"
  else
  let '(toolName, imagePath) := normalize_call params in
  if negb (Js.truthy toolName) then
    sendError id (-32602)
      ("Invalid params: tool name could not be determined from params: "
       +:+ Js.display_string (JSON_stringify <$> params))
  else if negb (Js.truthy imagePath) then
    sendError id (-32602)
      "Invalid params: Please provide a path to a local image file as a simple string parameter"
  else if Js.strict_eq_string toolName (name OCR_TOOL) then
    try_catch
      (res <- extractTextFromImage (toolParams imagePath) ;;
       sendResponse id (ToolResult res))
      (fun e => sendError id (-32000) ("Error executing tool: " +:+ e))
  else sendError id (-32601) ("Tool not found: " +:+ Js.display toolName).

(* =================================================================== *)
(** ** The dispatcher of [main] *)
(* =================================================================== *)

Definition set_lastImagePath (v : option json) (s : State) : State :=
  set_conversation
    {| lastOcrResult := lastOcrResult (conversationState s);
       lastImagePath := v;
       llmResponses := llmResponses (conversationState s) |} s.

(** [if (stored) conversationState.lastImagePath = stored], which the
    dispatcher does before it calls a tool *)
Definition remember_image_path (stored : option json) (s : State) : State :=
  if Js.truthy stored then set_lastImagePath stored s else s.

(** [method.startsWith('notifications/')] *)
Definition method_startsWith (method : option json) (prefix : string) : M bool :=
  match method with
  | None => throw "Cannot read properties of undefined (reading 'startsWith')"
  | Some JNull => throw "Cannot read properties of null (reading 'startsWith')"
  | Some (JStr m) => ret (Str.startsWith m prefix)
  | Some _ => throw "method.startsWith is not a function"
  end.

(** The body of the [try] block once the line is parsed *)
Definition processRequest (request : json) : M unit :=
  match request with
  | JNull => throw "Cannot destructure property 'id' of 'request' as it is null."
  | _ =>
      let id := Js.prop request "id" in
      let method := Js.prop request "method" in
      let params := Js.prop request "params" in
      notification <- method_startsWith method "notifications/" ;;
      if notification then
        if Js.strict_eq_string method "notifications/llm_response"
        then logLlmResponse params
        else handleNotification (Js.display method) params
      else if Js.strict_eq_string method "initialize" then handleInitialize id params
      else if Js.strict_eq_string method "ListOfferings" then handleListOfferings id
      else if Js.strict_eq_string method "callTool" then
        modify (remember_image_path
                  (Js.opt_prop (Js.opt_prop params "arguments") "image_path")) ;;;
        handleCallTool id params
      else if Js.strict_eq_string method "tools/list" then handleToolsList id
      else if Js.strict_eq_string method "tools/call" then
        modify (remember_image_path (Js.opt_prop params "image_path")) ;;;
        handleToolsCall id params
      else sendError id (-32601) ("Method not supported: " +:+ Js.display method)
  end.

(** The listener of the [line] event *)
Definition onLine (line : string) : M unit :=
  try_catch
    (request <- lift (match JSON_parse line with
                      | inl e => Throw e
                      | inr v => Ok v
                      end) ;;
     processRequest request)
    (fun e => sendError None (-32700) ("Parse error or internal error: " +:+ e)).

(** The lines of stdin, handled in order *)
Fixpoint main (lines : list string) : M unit :=
  match lines with
  | [] => ret tt
  | line :: rest => onLine line ;;; main rest
  end.

(** The process as the script leaves it at start-up, over a given
    file system *)
Definition startup (files : gmap string node) : State := {|
  OPENAI_API_KEY := getOpenAIApiKey;
  conversationState := {| lastOcrResult := None; lastImagePath := None; llmResponses := [] |};
  clientInfo := Some JNull;
  fs := files;
  stdout := [];
  spawned := [];
  clock := 0 |}.

End Server.

(* ===================================================================== *)
(** * Predicates used in the statements *)
(* ===================================================================== *)

Definition is_hex (c : ascii) : bool :=
  existsb (Ascii.eqb c) (list_ascii_of_string "0123456789abcdef").

Fixpoint all_chars (P : ascii -> bool) (s : string) : bool :=
  match s with
  | EmptyString => true
  | String c s' => (P c && all_chars P s')%bool
  end.

Definition no_slash (t : string) : Prop :=
  all_chars (fun c => negb (Path.is_sep c)) t = true.

Definition ordinary (seg : string) : Prop :=
  String.eqb seg "" = false /\ String.eqb seg "." = false
  /\ String.eqb seg ".." = false.

(** A segment of a normalised path *)
Definition clean (seg : string) : Prop := no_slash seg /\ ordinary seg.

Definition joined_prefix (l : list string) : string :=
  match l with
  | [] => ""
  | _ => Str.join "/" l +:+ "/"
  end.

(** A path the script can write: a writable regular file, or a free name
    in a writable directory *)
Definition writable_target (files : gmap string node) (p : string) : Prop :=
  match files !! p with
  | Some (File _ _ w _) => w = true
  | Some (Dir _ _) => False
  | None =>
      match files !! Path.dirname p with
      | Some (Dir w _) => w = true
      | _ => False
      end
  end.

(** The regular files of [files] other than [p] are in [files'] as they
    were *)
Definition other_files_kept (files files' : gmap string node) (p : string) : Prop :=
  forall q size r w data,
    q <> p -> files !! q = Some (File size r w data) ->
    files' !! q = Some (File size r w data).

(** A computation that leaves the process as it found it *)
Definition pure {A} (m : M A) : Prop := forall s, snd (m s) = s.


(** The text [appendLlmResponseToFile] writes for a notification *)
Definition formattedResponse `{Runtime} (analysis : option json) : string :=
  match analysis with
  | Some (JStr t) => t
  | _ => Js.display_string (JSON_stringify_pretty <$> analysis)
  end.

(** A computation whose outcome depends on the process through its
    files only *)
Definition reads_fs {A} (m : M A) : Prop :=
  forall s1 s2, fs s1 = fs s2 -> fst (m s1) = fst (m s2).

(** An image the tool accepts: a readable regular file of at most
    5 MiB whose extension is allowed, holding [data] *)
Definition valid_image `{Runtime} (s : State) (p data : string) : Prop :=
  exists size w,
    fs s !! abs p = Some (File size true w data)
    /\ size <= MAX_FILE_SIZE
    /\ includes ALLOWED_EXTENSIONS (Str.toLowerCase (Path.extname (abs p))) = true.

(** The request fails: the promise of the tool is rejected, or its
    result is flagged as an error *)
Definition failed (o : outcome McpToolResult) : Prop :=
  match o with
  | Throw _ => True
  | Ok res => isError res = Some true
  end.

(** An API key that passes the checks at the head of the tool *)
Definition key_ready (s : State) : Prop :=
  exists key, OPENAI_API_KEY s = Some key /\ key <> ""
              /\ isValid (validateApiKey key) = true.

(* ===================================================================== *)
(** * A stand-in runtime for the worked examples *)
(* ===================================================================== *)

Module Demo.

Definition quote (s : string) : string := Js.dq +:+ s +:+ Js.dq.

(** [JSON.stringify] of values whose strings need no escape *)
Fixpoint stringify (v : json) : string :=
  match v with
  | JNull => "null"
  | JBool true => "true"
  | JBool false => "false"
  | JNum n => Str.of_Z n
  | JStr s => quote s
  | JArr items => "[" +:+ Str.join "," (map stringify items) +:+ "]"
  | JObj fields =>
      "{" +:+ Str.join ","
                (map (fun kv : string * json =>
                        let (k, x) := kv in quote k +:+ ":" +:+ stringify x) fields)
      +:+ "}"
  end.

(** [JSON.stringify(v, null, 2)] of such values *)
Fixpoint pretty (indent : string) (v : json) : string :=
  let deeper := indent +:+ "  " in
  match v with
  | JArr [] => "[]"
  | JObj [] => "{}"
  | JArr items =>
      "[" +:+ nl +:+ deeper
      +:+ Str.join ("," +:+ nl +:+ deeper) (map (pretty deeper) items)
      +:+ nl +:+ indent +:+ "]"
  | JObj fields =>
      "{" +:+ nl +:+ deeper
      +:+ Str.join ("," +:+ nl +:+ deeper)
            (map (fun kv : string * json =>
                    let (k, x) := kv in quote k +:+ ": " +:+ pretty deeper x) fields)
      +:+ nl +:+ indent +:+ "}"
  | _ => stringify v
  end.

(** [JSON.parse] on the compact form of the values in [known]; any
    other line is taken to be malformed *)
Definition parse (known : list json) (line : string) : string + json :=
  match List.find (fun v => String.eqb (stringify v) line) known with
  | Some v => inr v
  | None => inl "Unexpected token in JSON at position 1"
  end.

Definition toISOString (n : nat) : string :=
  "2025-05-01T12:00:" +:+ pad2 (Z.of_nat n mod 60) +:+ ".000Z".

Definition key : string := "sk-0123456789abcdefghijklmnop".

Definition env (v : string) : option string :=
  if String.eqb v "OPENAI_API_KEY" then Some key else None.

Definition runtime (known : list json) (remote : nat -> OpenAIRequest -> CurlExit)
  : Runtime := {|
  JSON_parse := parse known;
  JSON_stringify := stringify;
  JSON_stringify_pretty := pretty "";
  Date_toISOString := toISOString;
  curl := remote;
  process_env := env;
  process_cwd := "/home/ocr" |}.

(** A directory of scans holding one image *)
Definition scans : gmap string node :=
  <["/scans/invoice.png" := File 2048 true true "(image bytes)"]>
    (<["/scans" := Dir true ["invoice.png"]]> ∅).

(** The directory with a poster of 6 MiB besides; its contents, never
    read, are left out *)
Definition with_poster : gmap string node :=
  <["/scans/poster.png" := File (6 * 1024 * 1024) true true ""]>
    (<["/scans" := Dir true ["invoice.png"; "poster.png"]]> scans).

(** [{ image_path: p }] *)
Definition image_args (p : string) : option json :=
  Some (JObj [("image_path", JStr p)]).

(** The same directory after the text of the image was saved *)
Definition saved : gmap string node :=
  <["/scans/invoice-e2c598a1.txt" := File 53 true true (ocr_section "Invoice 48251")]>
    (<["/scans" := Dir true ["invoice.png"; "invoice-e2c598a1.txt"]]> scans).





(** The remote service answers with [content] *)
Definition completion (content : json) : json :=
  JObj [("choices", JArr [JObj [("message", JObj [("role", JStr "assistant");
                                                   ("content", content)])]])].

Definition answers (reply : json) (n : nat) (req : OpenAIRequest) : CurlExit :=
  {| exit_code := 0; responseData := stringify reply; errorOutput := "" |}.

(** [curl] cannot reach the service *)
Definition unreachable (n : nat) (req : OpenAIRequest) : CurlExit :=
  {| exit_code := 6; responseData := "";
     errorOutput := "curl: (6) Could not resolve host: api.openai.com" |}.

(** A [callTool] request for the extraction tool *)
Definition callTool_extract (id : Z) (image_path : string) : json :=
  JObj [("jsonrpc", JStr "2.0"); ("id", JNum id); ("method", JStr "callTool");
        ("params", JObj [("name", JStr "extract_text_from_image");
                         ("arguments", JObj [("image_path", JStr image_path)])])].

End Demo.

(** A value of an environment variable that [getOpenAIApiKey] takes:
    set, not the placeholder, and valid once trimmed *)
Definition usable (v : string) : Prop :=
  v <> "" /\ v <> "your-api-key-here" /\ isValid (validateApiKey (Js.trim v)) = true.


(** The key variable is unset or holds a key [validateApiKey] accepts *)
Definition key_sound (s : State) : Prop :=
  forall key, OPENAI_API_KEY s = Some key ->
              key <> "" /\ isValid (validateApiKey key) = true.

(** A computation every run of which takes the process from a state to
    one related to it by [R] *)
Definition steps {A} (R : State -> State -> Prop) (m : M A) : Prop :=
  forall s, R s (snd (m s)).

(** A list that was only added to at its end *)
Definition grows {A} (l l' : list A) : Prop := exists more, l' = l ++ more.

(** What the server may do to the files: nothing is removed, a file
    stays a file and a directory a directory with the permissions they
    had, a file whose name does not end in [.txt] keeps its contents, a
    directory only gains entries, and what is new is a regular file
    whose name ends in [.txt] *)
Definition fs_safe (files files' : gmap string node) : Prop :=
  forall q,
    match files !! q with
    | Some (File size r w data) =>
        exists size' data',
          files' !! q = Some (File size' r w data')
          /\ (Str.endsWith q ".txt" = false -> size' = size /\ data' = data)
    | Some (Dir w entries) =>
        exists more, files' !! q = Some (Dir w (entries ++ more))
    | None =>
        forall nd, files' !! q = Some nd ->
                   Str.endsWith q ".txt" = true
                   /\ exists size data, nd = File size true true data
    end.

(** What every request leaves in place *)
Definition safe_step (s s' : State) : Prop :=
  (key_sound s -> key_sound s')
  /\ fs_safe (fs s) (fs s')
  /\ grows (spawned s) (spawned s')
  /\ (clock s <= clock s')%nat
  /\ grows (llmResponses (conversationState s)) (llmResponses (conversationState s'))
  /\ grows (stdout s) (stdout s').

(** The part [f] of the process is as it was *)
Definition same {A} (f : State -> A) (s s' : State) : Prop := f s' = f s.

(** The log of analysis notifications *)
Definition log_of (s : State) : list LlmResponse := llmResponses (conversationState s).

(** The reply a request with this id is owed: a result under the id as
    it came, or an error under [id || 'error'] *)
Definition answers_to (id : option json) (r : JsonRpcResponse) : Prop :=
  match r with
  | JsonRpcSuccessResponse i _ => i = id
  | JsonRpcErrorResponse i _ _ => i = id_or_error id
  end.
(** A list as it was, or with one more element at its end *)
Definition at_most_one {A} (l l' : list A) : Prop :=
  l' = l \/ exists x, l' = l ++ [x].

(** The stand-in runtime on a machine whose environment holds no API
    key *)
Module Bare.

Definition runtime (known : list json) (remote : nat -> OpenAIRequest -> CurlExit)
  : Runtime := {|
  JSON_parse := Demo.parse known;
  JSON_stringify := Demo.stringify;
  JSON_stringify_pretty := Demo.pretty "";
  Date_toISOString := Demo.toISOString;
  curl := remote;
  process_env := fun _ => None;
  process_cwd := "/home/ocr" |}.

End Bare.

(* ===================================================================== *)
(** * Test vectors *)
(* ===================================================================== *)

Example sha256_abc :
  SHA256.hexdigest "abc"
  = "ba7816bf8f01cfea414140de5dae2223b00361a396177a9cb410ff61f20015ad"%string.
Proof. vm_compute. reflexivity. Qed.

Example sha256_empty :
  SHA256.hexdigest ""
  = "e3b0c44298fc1c149afbf4c8996fb92427ae41e4649b934ca495991b7852b855"%string.
Proof. vm_compute. reflexivity. Qed.

Example sha256_two_blocks :
  SHA256.hexdigest
    "aaaaaaaaaaaaaaaaaaaaaaaaaaaaaaaaaaaaaaaaaaaaaaaaaaaaaaaaaaaaaaaaaaaaaa"
  = "6bd5e5034855a11241f0dee8fc72850ffd9955b28347a86428b5fa19119f6ad0"%string.
Proof. vm_compute. reflexivity. Qed.

(** The examples of Node's documentation *)
Example path_examples :
  Path.extname "index.html" = ".html"%string
  /\ Path.extname "index.coffee.md" = ".md"%string
  /\ Path.extname "index." = "."%string
  /\ Path.extname "index" = ""%string
  /\ Path.extname ".index" = ""%string
  /\ Path.extname ".index.md" = ".md"%string
  /\ Path.extname "/tmp.d/.." = ""%string
  /\ Path.basename "/foo/bar/baz/asdf/quux.html" "" = "quux.html"%string
  /\ Path.basename "/foo/bar/baz/asdf/quux.html" ".html" = "quux"%string
  /\ Path.basename "/scans/.jpg" (Path.extname "/scans/.jpg") = ".jpg"%string
  /\ Path.dirname "/foo/bar/baz/asdf/quux" = "/foo/bar/baz/asdf"%string
  /\ Path.dirname "/quux.png" = "/"%string
  /\ Path.dirname "quux.png" = "."%string
  /\ Path.join "/foo/bar" "quux-0a1b2c3d.txt" = "/foo/bar/quux-0a1b2c3d.txt"%string
  /\ Path.join "/" "quux-0a1b2c3d.txt" = "/quux-0a1b2c3d.txt"%string
  /\ Path.join "/foo/bar//baz/asdf" "../quux" = "/foo/bar/baz/quux"%string
  /\ Path.resolve "/home/me" "pics/../scan.png" = "/home/me/scan.png"%string
  /\ Path.resolve "/home/me" "/tmp//a/./b/" = "/tmp/a/b"%string
  /\ Path.resolve "/home/me" "../../../x" = "/x"%string.
Proof. vm_compute. repeat split. Qed.

(* ===================================================================== *)
(** * Facts about strings *)
(* ===================================================================== *)

Module StrFacts.

Lemma app_nil_l (a : string) : "" +:+ a = a.
Proof. reflexivity. Qed.

Lemma app_cons (x : ascii) (a b : string) : String x a +:+ b = String x (a +:+ b).
Proof. reflexivity. Qed.

Lemma app_assoc (a b c : string) : (a +:+ b) +:+ c = a +:+ (b +:+ c).
Proof.
  induction a as [|x a IH]; [reflexivity |].
  now rewrite !app_cons, IH.
Qed.

Lemma app_nil_r (a : string) : a +:+ "" = a.
Proof.
  induction a as [|x a IH]; [reflexivity |].
  now rewrite app_cons, IH.
Qed.

Lemma app_length (a b : string) :
  String.length (a +:+ b) = (String.length a + String.length b)%nat.
Proof.
  induction a as [|x a IH]; [reflexivity |].
  rewrite app_cons. simpl. now rewrite IH.
Qed.

Lemma rev_acc_app (s acc : string) : Str.rev_acc s acc = Str.rev s +:+ acc.
Proof.
  unfold Str.rev. revert acc.
  induction s as [|x s IH]; intros acc; simpl; [reflexivity |].
  rewrite (IH (String x acc)), (IH (String x EmptyString)), app_assoc.
  reflexivity.
Qed.

Lemma rev_cons (x : ascii) (s : string) : Str.rev (String x s) = Str.rev s +:+ String x "".
Proof. unfold Str.rev at 1. simpl. apply rev_acc_app. Qed.

Lemma rev_app (a b : string) : Str.rev (a +:+ b) = Str.rev b +:+ Str.rev a.
Proof.
  induction a as [|x a IH].
  - now rewrite app_nil_l, app_nil_r.
  - now rewrite app_cons, !rev_cons, IH, app_assoc.
Qed.

Lemma rev_involutive (s : string) : Str.rev (Str.rev s) = s.
Proof.
  induction s as [|x s IH]; [reflexivity |].
  now rewrite rev_cons, rev_app, IH.
Qed.

Lemma rev_length (s : string) : String.length (Str.rev s) = String.length s.
Proof.
  induction s as [|x s IH]; [reflexivity |].
  rewrite rev_cons, app_length, IH. simpl. lia.
Qed.

Lemma app_inv_head (a b c : string) : a +:+ b = a +:+ c -> b = c.
Proof.
  induction a as [|x a IH]; intros E; [assumption |].
  rewrite !app_cons in E. injection E. auto.
Qed.

Lemma app_inv_tail (a b c : string) : a +:+ c = b +:+ c -> a = b.
Proof.
  intros E. apply (f_equal Str.rev) in E. rewrite !rev_app in E.
  apply app_inv_head in E. apply (f_equal Str.rev) in E.
  now rewrite !rev_involutive in E.
Qed.

Lemma prefix_app (p s : string) : String.prefix p (p +:+ s) = true.
Proof.
  induction p as [|x p IH]; [now destruct s |].
  rewrite app_cons. simpl.
  destruct (ascii_dec x x) as [_|N]; [exact IH | contradiction].
Qed.

Lemma prefix_split (p s : string) :
  String.prefix p s = true -> exists t, s = p +:+ t.
Proof.
  revert s. induction p as [|x p IH]; intros s Hp.
  - exists s. reflexivity.
  - destruct s as [|y s]; simpl in Hp; [discriminate |].
    destruct (ascii_dec x y) as [->|]; [| discriminate].
    destruct (IH s Hp) as [t ->]. exists t. reflexivity.
Qed.

Lemma startsWith_app (p s : string) : Str.startsWith (p +:+ s) p = true.
Proof. apply prefix_app. Qed.

Lemma endsWith_app (s p : string) : Str.endsWith (s +:+ p) p = true.
Proof. unfold Str.endsWith. rewrite rev_app. apply prefix_app. Qed.

Lemma join_cons' (sep p : string) (rest : list string) :
  rest <> [] -> Str.join sep (p :: rest) = p +:+ sep +:+ Str.join sep rest.
Proof. destruct rest; [contradiction | reflexivity]. Qed.

Lemma endsWith_split (s p : string) :
  Str.endsWith s p = true -> exists t, s = t +:+ p.
Proof.
  unfold Str.endsWith. intros Hp.
  destruct (prefix_split _ _ Hp) as [t Ht].
  exists (Str.rev t).
  apply (f_equal Str.rev) in Ht.
  now rewrite rev_involutive, rev_app, rev_involutive in Ht.
Qed.

End StrFacts.

(* ===================================================================== *)
(** * Splitting the completion text *)
(* ===================================================================== *)

Section Split.

Local Abbreviation nlnl := (nl +:+ nl).

Lemma is_newline_true (c : ascii) : is_newline c = true -> c = ascii_of_nat 10.
Proof. unfold is_newline. intros E. now apply Ascii.eqb_eq in E. Qed.

Lemma split_acc_nonempty (s cur : string) : split_acc s cur <> [].
Proof.
  revert cur. induction s as [|c s IH]; intros cur; simpl; [discriminate |].
  destruct s as [|c' s'']; [discriminate |].
  destruct (is_newline c && is_newline c' && at_heading s'')%bool;
    [discriminate | apply IH].
Qed.

Lemma join_cons (sep p : string) (rest : list string) :
  rest <> [] -> Str.join sep (p :: rest) = p +:+ sep +:+ Str.join sep rest.
Proof. destruct rest; [contradiction | reflexivity]. Qed.

(** Joining the pieces with the blank line gives the text back. *)
Lemma join_split_acc (s : string) :
  (forall cur, Str.join nlnl (split_acc s cur) = Str.rev cur +:+ s)
  /\ (forall c cur, Str.join nlnl (split_acc (String c s) cur)
                    = Str.rev cur +:+ String c s).
Proof.
  induction s as [|c' s'' [IH0 IH1]].
  - split; intros; simpl.
    + now rewrite StrFacts.app_nil_r.
    + now rewrite StrFacts.rev_cons.
  - split; [exact (IH1 c') |].
    intros c cur.
    change (split_acc (String c (String c' s'')) cur)
      with (if (is_newline c && is_newline c' && at_heading s'')%bool
            then Str.rev cur :: split_acc s'' EmptyString
            else split_acc (String c' s'') (String c cur)).
    destruct (is_newline c && is_newline c' && at_heading s'')%bool eqn:E.
    + apply andb_true_iff in E as [E _]. apply andb_true_iff in E as [Ec Ec'].
      apply is_newline_true in Ec, Ec'. subst c c'.
      rewrite join_cons by apply split_acc_nonempty.
      rewrite IH0. reflexivity.
    + rewrite IH1, StrFacts.rev_cons, StrFacts.app_assoc. reflexivity.
Qed.

Lemma join_split_headings (s : string) : Str.join nlnl (split_headings s) = s.
Proof. unfold split_headings. now rewrite (proj1 (join_split_acc s)). Qed.



End Split.

Lemma at_heading_iff (s : string) :
  at_heading s = true <->
  exists h, In h headings /\ Str.startsWith_ci s h = true.
Proof.
  unfold at_heading. rewrite existsb_exists. reflexivity.
Qed.

Example split_example :
  let reply := "TOTAL 42.00" +:+ nl +:+ nl +:+ "ANALYSIS: a till receipt"
               +:+ nl +:+ nl +:+ "Summary: paid in cash" in
  split_headings reply
  = ["TOTAL 42.00"; "ANALYSIS: a till receipt"; "Summary: paid in cash"]
  /\ extractedText_of reply = "TOTAL 42.00"
  /\ analysis_of reply
     = "ANALYSIS: a till receipt" +:+ nl +:+ nl +:+ "Summary: paid in cash".
Proof. vm_compute. repeat split. Qed.

Example split_needs_blank_line :
  let reply := "TOTAL 42.00" +:+ nl +:+ "Analysis: a till receipt" in
  extractedText_of reply = reply /\ analysis_of reply = "".
Proof. vm_compute. repeat split. Qed.



(* ===================================================================== *)
(** * The digest in the file name *)
(* ===================================================================== *)

Lemma hex_digit_is_hex (n : N) : (n < 16)%N -> is_hex (SHA256.hex_digit n) = true.
Proof.
  intros Hn. destruct n as [|p]; [reflexivity |].
  do 4 (destruct p as [p|p|]; try reflexivity); exfalso; lia.
Qed.

Lemma nibble_is_hex (w i : N) : is_hex (SHA256.nibble w i) = true.
Proof.
  unfold SHA256.nibble. apply hex_digit_is_hex.
  change 0xF%N with (N.ones 4). rewrite N.land_ones.
  apply N.mod_lt. discriminate.
Qed.

(** The short hash is the hexadecimal form of the first digest word. *)
Lemma generateShortHash_word (text : string) :
  generateShortHash text
  = SHA256.word_hex (SHA256.ra (SHA256.digest (SHA256.bytes_of_string text))) "".
Proof.
  unfold generateShortHash, SHA256.hexdigest, SHA256.regs_hex, Str.take.
  generalize (SHA256.digest (SHA256.bytes_of_string text)). intros r.
  unfold SHA256.word_hex at 1. cbn [substring]. reflexivity.
Qed.

Lemma generateShortHash_length (text : string) :
  String.length (generateShortHash text) = 8%nat.
Proof. rewrite generateShortHash_word. reflexivity. Qed.

Lemma generateShortHash_hex (text : string) :
  all_chars is_hex (generateShortHash text) = true.
Proof.
  rewrite generateShortHash_word.
  generalize (SHA256.ra (SHA256.digest (SHA256.bytes_of_string text))). intros w.
  unfold SHA256.word_hex. cbn [all_chars].
  rewrite !nibble_is_hex. reflexivity.
Qed.

Example generateShortHash_no_text :
  generateShortHash "No text extracted" = "a17cc10e".
Proof. vm_compute. reflexivity. Qed.

(** Two different texts with one short hash *)
Example generateShortHash_collision :
  generateShortHash "Invoice 48251" = "e2c598a1"
  /\ generateShortHash "Invoice 83450" = "e2c598a1".
Proof. vm_compute. split; reflexivity. Qed.

(* ===================================================================== *)
(** * Facts about paths *)
(* ===================================================================== *)

Module PathFacts.

Lemma no_slash_app (a b : string) : no_slash a -> no_slash b -> no_slash (a +:+ b).
Proof.
  unfold no_slash. induction a as [|x a IH]; intros Ha Hb; [exact Hb |].
  rewrite StrFacts.app_cons. simpl in *.
  apply andb_true_iff in Ha as [Hx Ha]. rewrite Hx. simpl. auto.
Qed.

Lemma hex_no_slash (t : string) : all_chars is_hex t = true -> no_slash t.
Proof.
  unfold no_slash. induction t as [|x t IH]; intros Ht; [reflexivity |].
  simpl in *. apply andb_true_iff in Ht as [Hx Ht]. rewrite (IH Ht), andb_true_r.
  destruct (Path.is_sep x) eqn:E; [| reflexivity].
  apply Ascii.eqb_eq in E. subst x. discriminate Hx.
Qed.

Lemma split_acc_no_slash (t cur : string) :
  no_slash t -> Path.split_acc t cur = [Str.rev cur +:+ t].
Proof.
  unfold no_slash. revert cur. induction t as [|x t IH]; intros cur Ht; simpl.
  - now rewrite StrFacts.app_nil_r.
  - simpl in Ht. apply andb_true_iff in Ht as [Hx Ht].
    apply negb_true_iff in Hx. rewrite Hx, (IH _ Ht), StrFacts.rev_cons.
    now rewrite StrFacts.app_assoc.
Qed.

(** Appending slash-free text to a path extends its last segment. *)
Lemma split_acc_app (X cur : string) :
  exists pre l,
    Path.split_acc X cur = pre ++ [l]
    /\ forall t, no_slash t -> Path.split_acc (X +:+ t) cur = pre ++ [l +:+ t].
Proof.
  revert cur. induction X as [|x X IH]; intros cur.
  - exists [], (Str.rev cur). split; [reflexivity |].
    intros t Ht. rewrite StrFacts.app_nil_l. now apply split_acc_no_slash.
  - simpl. destruct (Path.is_sep x) eqn:Ex.
    + destruct (IH EmptyString) as (pre & l & E1 & E2).
      exists (Str.rev cur :: pre), l. split; [now rewrite E1 |].
      intros t Ht. rewrite ?StrFacts.app_cons. simpl. rewrite ?Ex.
      now rewrite (E2 t Ht).
    + destruct (IH (String x cur)) as (pre & l & E1 & E2).
      exists pre, l. split; [exact E1 |].
      intros t Ht. rewrite ?StrFacts.app_cons. simpl. rewrite ?Ex.
      now apply E2.
Qed.

Lemma long_ordinary (seg : string) : (2 < String.length seg)%nat -> ordinary seg.
Proof.
  intros Hl. repeat split; apply String.eqb_neq; intros ->; simpl in Hl; lia.
Qed.

(** An ordinary last segment is kept. *)
Lemma normalize_acc_snoc (allow : bool) (seg : string) (pre res : list string) :
  ordinary seg ->
  Path.normalize_acc allow (pre ++ [seg]) res
  = Path.normalize_acc allow pre res ++ [seg].
Proof.
  intros (H0 & H1 & H2). revert res.
  induction pre as [|p pre IH]; intros res; simpl.
  - rewrite H0, H1, H2. reflexivity.
  - destruct (String.eqb p "" || String.eqb p ".")%bool; [apply IH |].
    destruct (String.eqb p ".."); [| apply IH].
    destruct res as [|top below]; [apply IH |].
    destruct (String.eqb top ".."); apply IH.
Qed.

Lemma join_snoc (l : list string) (seg : string) :
  Str.join "/" (l ++ [seg]) = joined_prefix l +:+ seg.
Proof.
  induction l as [|p l IH]; [reflexivity |].
  destruct l as [|p' l].
  - simpl. now rewrite !StrFacts.app_assoc.
  - change ((p :: p' :: l) ++ [seg]) with (p :: ((p' :: l) ++ [seg])).
    rewrite StrFacts.join_cons' by (destruct l; discriminate).
    rewrite IH. unfold joined_prefix.
    change (Str.join "/" (p :: p' :: l)) with (p +:+ "/" +:+ Str.join "/" (p' :: l)).
    now rewrite !StrFacts.app_assoc.
Qed.

Lemma eqb_app_nonempty (a b : string) :
  (0 < String.length b)%nat -> String.eqb (a +:+ b) "" = false.
Proof.
  intros Hb. apply String.eqb_neq. intros E.
  apply (f_equal String.length) in E. rewrite StrFacts.app_length in E.
  simpl in E. lia.
Qed.

Lemma isAbsolute_app (X t : string) :
  X <> "" -> Path.isAbsolute (X +:+ t) = Path.isAbsolute X.
Proof. destruct X; [contradiction | reflexivity]. Qed.

Lemma endsWith_txt_slash (a : string) : Str.endsWith (a +:+ ".txt") "/" = false.
Proof. unfold Str.endsWith. rewrite StrFacts.rev_app. reflexivity. Qed.

(** Normalising a path that ends in [h.txt], [h] free of slashes,
    leaves that ending in place; what precedes it does not depend on
    [h]. *)
Lemma normalize_hashed (X : string) :
  X <> "" ->
  exists P, forall h, no_slash h ->
    Path.normalize (X +:+ h +:+ ".txt") = P +:+ h +:+ ".txt".
Proof.
  intros HX.
  destruct (split_acc_app X EmptyString) as (pre & l & _ & E2).
  exists ((if Path.isAbsolute X then "/" else "")
          +:+ joined_prefix (Path.normalize_acc (negb (Path.isAbsolute X)) pre [])
          +:+ l).
  intros h Hh.
  assert (Ht : no_slash (h +:+ ".txt")) by (apply no_slash_app; [exact Hh | reflexivity]).
  assert (Hord : ordinary (l +:+ h +:+ ".txt")).
  { apply long_ordinary. rewrite !StrFacts.app_length. simpl. lia. }
  unfold Path.normalize.
  rewrite eqb_app_nonempty
    by (rewrite StrFacts.app_length; simpl; lia).
  rewrite (isAbsolute_app X _ HX).
  rewrite <- (StrFacts.app_assoc X h ".txt"), endsWith_txt_slash.
  rewrite (StrFacts.app_assoc X h ".txt").
  unfold Path.normalizeString, Path.segments.
  rewrite (E2 _ Ht), (normalize_acc_snoc _ _ _ _ Hord), join_snoc.
  rewrite eqb_app_nonempty
    by (rewrite !StrFacts.app_length; simpl; lia).
  destruct (Path.isAbsolute X); now rewrite !StrFacts.app_assoc.
Qed.

(** [path.join] keeps the hash and the [.txt] ending of the file
    name at the end of the path. *)
Lemma join_hashed (a base : string) :
  exists P, forall h, no_slash h ->
    Path.join a (base +:+ "-" +:+ h +:+ ".txt") = P +:+ h +:+ ".txt".
Proof.
  destruct (String.eqb a "") eqn:Ea.
  - destruct (normalize_hashed (base +:+ "-")) as [P HP].
    { intros E. apply (f_equal String.length) in E.
      rewrite StrFacts.app_length in E. simpl in E. lia. }
    exists P. intros h Hh. unfold Path.join. rewrite Ea.
    rewrite eqb_app_nonempty by (rewrite !StrFacts.app_length; simpl; lia).
    rewrite <- (HP h Hh). now rewrite !StrFacts.app_assoc.
  - destruct (normalize_hashed (a +:+ "/" +:+ base +:+ "-")) as [P HP].
    { intros E. apply (f_equal String.length) in E.
      rewrite !StrFacts.app_length in E. simpl in E. lia. }
    exists P. intros h Hh. unfold Path.join. rewrite Ea.
    rewrite eqb_app_nonempty by (rewrite !StrFacts.app_length; simpl; lia).
    rewrite <- (HP h Hh). now rewrite !StrFacts.app_assoc.
Qed.

End PathFacts.

Section ResolveFacts.

Lemma all_chars_app (P : ascii -> bool) (a b : string) :
  all_chars P (a +:+ b) = (all_chars P a && all_chars P b)%bool.
Proof.
  induction a as [|x a IH]; [reflexivity |].
  rewrite StrFacts.app_cons. simpl. now rewrite IH, andb_assoc.
Qed.

Lemma all_chars_rev (P : ascii -> bool) (a : string) :
  all_chars P (Str.rev a) = all_chars P a.
Proof.
  induction a as [|x a IH]; [reflexivity |].
  rewrite StrFacts.rev_cons, all_chars_app, IH. simpl.
  now rewrite andb_true_r, andb_comm.
Qed.

Lemma segments_slash_free (s cur : string) :
  no_slash cur -> Forall no_slash (Path.split_acc s cur).
Proof.
  unfold no_slash. revert cur. induction s as [|x s IH]; intros cur Hc; simpl.
  - constructor; [| constructor]. now rewrite all_chars_rev.
  - destruct (Path.is_sep x) eqn:Ex.
    + constructor; [now rewrite all_chars_rev | now apply IH].
    + apply IH. simpl. now rewrite Ex.
Qed.

(** What [normalizeString] keeps below the root are clean segments. *)
Lemma normalize_acc_clean (segs res : list string) :
  Forall no_slash segs -> Forall clean res ->
  Forall clean (Path.normalize_acc false segs res).
Proof.
  revert res. induction segs as [|seg segs IH]; intros res Hs Hr; simpl.
  - now apply Forall_rev.
  - inversion Hs as [|? ? Hseg Hsegs]; subst.
    destruct (String.eqb seg "") eqn:E0; [now apply IH |].
    destruct (String.eqb seg ".") eqn:E1; [now apply IH |]. simpl.
    destruct (String.eqb seg "..") eqn:E2.
    + destruct res as [|top below]; [now apply IH |].
      inversion Hr; subst.
      destruct (String.eqb top ".."); now apply IH.
    + apply IH; [assumption |]. constructor; [| assumption].
      split; [assumption |]. repeat split; assumption.
Qed.

Lemma split_acc_segment (seg rest cur : string) :
  no_slash seg ->
  Path.split_acc (seg +:+ "/" +:+ rest) cur
  = (Str.rev cur +:+ seg) :: Path.split_acc rest EmptyString.
Proof.
  unfold no_slash. revert cur. induction seg as [|x seg IH]; intros cur Hs.
  - rewrite StrFacts.app_nil_l, StrFacts.app_nil_r. reflexivity.
  - simpl in Hs. apply andb_true_iff in Hs as [Hx Hs]. apply negb_true_iff in Hx.
    rewrite StrFacts.app_cons. simpl. rewrite Hx, (IH _ Hs), StrFacts.rev_cons.
    now rewrite StrFacts.app_assoc.
Qed.

(** Clean segments joined by slashes normalise to themselves. *)
Lemma normalize_acc_joined (segs res : list string) :
  Forall clean segs ->
  Path.normalize_acc false (Path.split_acc (Str.join "/" segs +:+ "/") EmptyString) res
  = rev res ++ segs.
Proof.
  revert res. induction segs as [|seg segs IH]; intros res Hc.
  - simpl. now rewrite app_nil_r.
  - inversion Hc as [|? ? [Hns (H0 & H1 & H2)] Hcs]; subst.
    destruct segs as [|seg' segs].
    + change (Str.join "/" [seg] +:+ "/") with (seg +:+ "/" +:+ "").
      rewrite (split_acc_segment seg "" "" Hns). simpl.
      change (Str.rev "" +:+ seg) with seg.
      rewrite H0, H1, H2. reflexivity.
    + rewrite StrFacts.join_cons' by discriminate.
      rewrite !StrFacts.app_assoc.
      rewrite (split_acc_segment seg _ "" Hns). simpl Str.rev.
      rewrite StrFacts.app_nil_l.
      change (Path.normalize_acc false (seg :: ?l) res)
        with (if (String.eqb seg "" || String.eqb seg ".")%bool
              then Path.normalize_acc false l res
              else if String.eqb seg ".."
                   then match res with
                        | top :: below =>
                            if String.eqb top ".."
                            then Path.normalize_acc false l res
                            else Path.normalize_acc false l below
                        | [] => Path.normalize_acc false l []
                        end
                   else Path.normalize_acc false l (seg :: res)).
      rewrite H0, H1, H2. simpl orb. cbv iota.
      rewrite (IH (seg :: res) Hcs). simpl. now rewrite <- app_assoc.
Qed.

(** [path.resolve] answers a path in normal form: resolving it again
    changes nothing, whatever the working directory. *)
Lemma resolve_idempotent (cwd cwd' p : string) :
  Path.resolve cwd' (Path.resolve cwd p) = Path.resolve cwd p.
Proof.
  unfold Path.resolve at 2 3.
  match goal with
  | |- context [Path.normalizeString ?j false] => generalize j; intros joined
  end.
  unfold Path.normalizeString, Path.segments.
  assert (Hc : Forall clean (Path.normalize_acc false (Path.split_acc joined EmptyString) []))
    by (apply normalize_acc_clean; [now apply segments_slash_free | constructor]).
  revert Hc. generalize (Path.normalize_acc false (Path.split_acc joined EmptyString) []).
  intros segs Hc. unfold Path.resolve.
  change (String.eqb ("/" +:+ Str.join "/" segs) "") with false.
  change (Path.isAbsolute ("/" +:+ Str.join "/" segs)) with true. cbv iota.
  unfold Path.normalizeString, Path.segments.
  change (Path.split_acc (("/" +:+ Str.join "/" segs) +:+ "/") EmptyString)
    with (EmptyString :: Path.split_acc (Str.join "/" segs +:+ "/") EmptyString).
  change (Path.normalize_acc false (EmptyString :: ?l) [])
    with (Path.normalize_acc false l []).
  now rewrite (normalize_acc_joined segs [] Hc).
Qed.

End ResolveFacts.

(** Texts with different short hashes get different files. *)
Lemma txtPath_of_differs (imagePath text text' : string) :
  generateShortHash text <> generateShortHash text' ->
  txtPath_of imagePath text <> txtPath_of imagePath text'.
Proof.
  intros Hne E. apply Hne. unfold txtPath_of in E.
  destruct (PathFacts.join_hashed (Path.dirname imagePath)
              (Path.basename imagePath (Path.extname imagePath))) as [P HP].
  rewrite (HP _ (PathFacts.hex_no_slash _ (generateShortHash_hex text))) in E.
  rewrite (HP _ (PathFacts.hex_no_slash _ (generateShortHash_hex text'))) in E.
  apply StrFacts.app_inv_head in E. now apply StrFacts.app_inv_tail in E.
Qed.

(* ===================================================================== *)
(** * The file system operations *)
(* ===================================================================== *)

Ltac unfold_monad :=
  unfold bind, ret, throw, try_catch, gets, modify, lift in *.

Section FsFacts.

Context `{Runtime}.

Lemma writeFileSync_ok (p text : string) (s : State) :
  writable_target (fs s) (abs p) ->
  exists files',
    writeFileSync p text s = (Ok tt, set_fs files' s)
    /\ (exists r, files' !! abs p = Some (File (byte_length text) r true text))
    /\ other_files_kept (fs s) files' (abs p).
Proof.
  unfold writable_target, writeFileSync, create_file. unfold_monad.
  destruct (fs s !! abs p) as [[size r w data | w entries] |] eqn:E.
  - intros ->. eexists. split; [reflexivity |]. split.
    + exists r. apply lookup_insert_eq.
    + intros q ? ? ? ? Hq Hf. now rewrite lookup_insert_ne.
  - contradiction.
  - destruct (fs s !! Path.dirname (abs p)) as [[? ? ? ? | w entries] |] eqn:Ed;
      try contradiction.
    intros ->. eexists. split; [reflexivity |]. split.
    + exists true. apply lookup_insert_eq.
    + intros q ? ? ? ? Hq Hf. rewrite lookup_insert_ne by congruence.
      rewrite lookup_insert_ne; [exact Hf |].
      intros <-. rewrite Ed in Hf. discriminate.
Qed.

Lemma writeFileSync_refused (p text : string) (s : State) :
  ~ writable_target (fs s) (abs p) ->
  exists e, writeFileSync p text s = (Throw e, s).
Proof.
  unfold writable_target, writeFileSync, create_file. unfold_monad.
  destruct (fs s !! abs p) as [[size r [|] data | w entries] |] eqn:E; intros Hn.
  - now contradiction Hn.
  - eexists. reflexivity.
  - eexists. reflexivity.
  - destruct (fs s !! Path.dirname (abs p)) as [[? ? ? ? | [|] entries] |] eqn:Ed;
      try (eexists; reflexivity).
    now contradiction Hn.
Qed.

Lemma appendFileSync_file (p text : string) (s : State) size r data :
  fs s !! abs p = Some (File size r true data) ->
  appendFileSync p text s
  = (Ok tt, set_fs (<[abs p := File (size + byte_length text) r true (data +:+ text)]> (fs s)) s).
Proof. intros E. unfold appendFileSync. unfold_monad. now rewrite E. Qed.


Lemma saveExtractedText_ok (imagePath text : string) (s : State) :
  writable_target (fs s) (abs (txtPath_of imagePath text)) ->
  exists files',
    saveExtractedText imagePath text s = (Ok (txtPath_of imagePath text), set_fs files' s)
    /\ (exists r, files' !! abs (txtPath_of imagePath text)
                  = Some (File (byte_length (ocr_section text)) r true (ocr_section text)))
    /\ other_files_kept (fs s) files' (abs (txtPath_of imagePath text)).
Proof.
  intros Hw.
  destruct (writeFileSync_ok _ (ocr_section text) s Hw) as (files' & E & Hf & Hk).
  exists files'. split; [| split; assumption].
  unfold saveExtractedText. unfold_monad. now rewrite E.
Qed.

Lemma saveExtractedText_refused (imagePath text : string) (s : State) :
  ~ writable_target (fs s) (abs (txtPath_of imagePath text)) ->
  exists e, saveExtractedText imagePath text s
            = (Throw ("Failed to save text file: " +:+ e), s).
Proof.
  intros Hw.
  destruct (writeFileSync_refused _ (ocr_section text) s Hw) as (e & E).
  exists e. unfold saveExtractedText. unfold_monad. now rewrite E.
Qed.

End FsFacts.

(* ===================================================================== *)
(** * The output file of an extraction *)
(* ===================================================================== *)

Example txtPath_of_example :
  txtPath_of "/scans/invoice.png" "Invoice 48251" = "/scans/invoice-e2c598a1.txt".
Proof. vm_compute. reflexivity. Qed.

(** C3, as stated, at two texts with one short hash: the texts differ
    and the output paths are the same. *)
Lemma C3_counterexample :
  "Invoice 48251" <> "Invoice 83450"
  /\ txtPath_of "/scans/invoice.png" "Invoice 48251"
     = txtPath_of "/scans/invoice.png" "Invoice 83450".
Proof. split; [discriminate | vm_compute; reflexivity]. Qed.

(** C3, amended. The output path depends on the image path and the
    extracted text only: it is the directory of the image joined with
    [baseName-digest.txt], where the digest is the first 8 hexadecimal
    characters of the SHA-256 of the extracted text.  Texts whose digests
    differ get different paths (texts that share a digest share the
    path).  Saving to a writable place returns that path, leaves the file
    holding the OCR section of the text, and keeps every other regular
    file as it was. *)
Theorem C3_output_path `{Runtime} (imagePath text : string) :
  txtPath_of imagePath text
  = Path.join (Path.dirname imagePath)
      (Path.basename imagePath (Path.extname imagePath)
       +:+ "-" +:+ Str.take 8 (SHA256.hexdigest text) +:+ ".txt")
  /\ String.length (generateShortHash text) = 8%nat
  /\ all_chars is_hex (generateShortHash text) = true
  /\ (forall text',
        generateShortHash text' <> generateShortHash text ->
        txtPath_of imagePath text' <> txtPath_of imagePath text)
  /\ (forall s,
        writable_target (fs s) (abs (txtPath_of imagePath text)) ->
        exists files',
          saveExtractedText imagePath text s
          = (Ok (txtPath_of imagePath text), set_fs files' s)
          /\ (exists r, files' !! abs (txtPath_of imagePath text)
                        = Some (File (byte_length (ocr_section text)) r true
                                     (ocr_section text)))
          /\ other_files_kept (fs s) files' (abs (txtPath_of imagePath text))).
Proof.
  split; [reflexivity |].
  split; [apply generateShortHash_length |].
  split; [apply generateShortHash_hex |].
  split; [intros text'; apply txtPath_of_differs |].
  intros s. apply saveExtractedText_ok.
Qed.

(** C3, amended, at the scan directory of the examples: the text is
    saved under the digest name, and a text with another digest gets
    another path. *)
Lemma C3_output_path_witness :
  let rt := Demo.runtime [] Demo.unreachable in
  (exists files',
      @saveExtractedText rt "/scans/invoice.png" "Invoice 48251" (@startup rt Demo.scans)
      = (Ok "/scans/invoice-e2c598a1.txt", set_fs files' (@startup rt Demo.scans))
      /\ (exists r, files' !! "/scans/invoice-e2c598a1.txt"
                    = Some (File 53 r true (ocr_section "Invoice 48251")))
      /\ other_files_kept Demo.scans files' "/scans/invoice-e2c598a1.txt")
  /\ txtPath_of "/scans/invoice.png" "Invoice 48252"
     <> txtPath_of "/scans/invoice.png" "Invoice 48251".
Proof.
  intros rt.
  destruct (@C3_output_path rt "/scans/invoice.png" "Invoice 48251")
    as (_ & _ & _ & Hdiffer & Hsave).
  split.
  - assert (Hw : writable_target (fs (@startup rt Demo.scans))
                   (abs (txtPath_of "/scans/invoice.png" "Invoice 48251")))
      by (vm_compute; reflexivity).
    destruct (Hsave _ Hw) as (files' & E & Hr & Hk).
    exists files'. split; [exact E |]. split; [exact Hr | exact Hk].
  - apply Hdiffer. vm_compute. discriminate.
Defined.

(* ===================================================================== *)
(** * The append_analysis tool *)
(* ===================================================================== *)

Section AppendFacts.

Context `{Runtime}.

Lemma prop_some_object (a : json) (k : string) (v : json) :
  Js.prop a k = Some v -> exists fields, a = JObj fields.
Proof. destruct a; try discriminate. eauto. Qed.


Lemma existsSync_present (p : string) (s : State) :
  p <> "" -> is_Some (fs s !! abs p) -> existsSync p s = (Ok true, s).
Proof.
  unfold existsSync. unfold_monad. intros Hp Hs.
  rewrite bool_decide_eq_true_2 by assumption.
  apply String.eqb_neq in Hp. now rewrite Hp.
Qed.



Lemma handleAppendAnalysis_appends (a : json) (p : string) (s : State) size r data :
  Js.prop a "text_file_path" = Some (JStr p) ->
  p <> "" -> fs s !! abs p = Some (File size r true data) ->
  Str.endsWith p ".txt" = true ->
  let section :=
    analysis_section (Date_toISOString (clock s)) (Js.display (Js.prop a "analysis")) in
  handleAppendAnalysis (Some a) s
  = (Ok {| content := [text_item ("Analysis has been appended to: " +:+ p)];
           isError := None |},
     set_fs (<[abs p := File (size + byte_length section) r true (data +:+ section)]> (fs s))
            (set_clock (S (clock s)) s)).
Proof.
  intros Hp Hne Hs He section. destruct (prop_some_object _ _ _ Hp) as [fields ->].
  unfold handleAppendAnalysis. rewrite Hp. unfold existsSync_any.
  unfold try_catch, bind at 1.
  rewrite (existsSync_present p s Hne) by (rewrite Hs; eauto).
  simpl. rewrite He. simpl. unfold bind at 1. unfold now.
  unfold bind at 1.
  rewrite (appendFileSync_file p _ (set_clock (S (clock s)) s) size r data Hs).
  reflexivity.
Qed.


Lemma existsSync_any_pure (v : option json) (s : State) :
  exists b, existsSync_any v s = (Ok b, s).
Proof.
  unfold existsSync_any, existsSync. unfold_monad.
  destruct v as [[]|]; eauto.
Qed.

Lemma appendFileSync_cases (p text : string) (s : State) :
  (exists files', appendFileSync p text s = (Ok tt, set_fs files' s))
  \/ (exists e, appendFileSync p text s = (Throw e, s)).
Proof.
  unfold appendFileSync, create_file. unfold_monad.
  destruct (fs s !! abs p) as [[? ? [|] ?|]|]; eauto.
  destruct (fs s !! Path.dirname (abs p)) as [[? ? ? ?|[|] ?]|]; eauto.
Qed.

(** Whatever its arguments, the tool returns a result and never throws;
    it changes nothing but files and the clock, and a soft error leaves
    every file as it was. *)
Lemma handleAppendAnalysis_total (args : option json) (s : State) :
  exists res files' n,
    handleAppendAnalysis args s = (Ok res, set_fs files' (set_clock n s))
    /\ (isError res = Some true -> files' = fs s).
Proof.
  assert (Hsame : forall t : State, t = set_fs (fs t) (set_clock (clock t) t))
    by (intros []; reflexivity).
  assert (Hthrow : forall e : string,
             exists res files' n,
               try_catch (throw e) (fun e => ret (error_result e)) s
               = (Ok res, set_fs files' (set_clock n s))
               /\ (isError res = Some true -> files' = fs s)).
  { intros e. exists (error_result e), (fs s), (clock s).
    split; [| reflexivity]. unfold_monad. now rewrite <- Hsame. }
  unfold handleAppendAnalysis.
  destruct args as [a|]; [| apply Hthrow].
  destruct a; try apply Hthrow.
  all: match goal with
       | |- context [existsSync_any ?v] =>
           destruct (existsSync_any_pure v s) as [found Ef]
       end.
  all: unfold try_catch, bind at 1; rewrite Ef.
  all: destruct found; simpl;
    [| eexists _, (fs s), (clock s); split; [now rewrite <- Hsame | reflexivity]].
  all: match goal with
       | |- context [if ?c then _ else _] => destruct c
       end; [eexists _, (fs s), (clock s); split; [now rewrite <- Hsame | reflexivity] |].
  all: unfold bind at 1; unfold now; unfold bind at 1.
  all: match goal with
       | |- context [appendFileSync ?p ?t ?s1] =>
           destruct (appendFileSync_cases p t s1) as [[files' E] | [e E]]; rewrite E
       end.
  all: try (eexists _, files', (S (clock s)); split; [reflexivity | discriminate]).
  all: eexists _, (fs s), (S (clock s)); split; [reflexivity | reflexivity].
Qed.

End AppendFacts.



(* ===================================================================== *)
(** * The extraction tool: validation *)
(* ===================================================================== *)

Section PureFacts.

Lemma pure_ret {A} (a : A) : pure (ret a).
Proof. intros s. reflexivity. Qed.

Lemma pure_throw {A} (e : string) : pure (@throw A e).
Proof. intros s. reflexivity. Qed.

Lemma pure_gets {A} (f : State -> A) : pure (gets f).
Proof. intros s. reflexivity. Qed.

Lemma pure_lift {A} (o : outcome A) : pure (lift o).
Proof. intros s. reflexivity. Qed.

Lemma pure_bind {A B} (m : M A) (k : A -> M B) :
  pure m -> (forall a, pure (k a)) -> pure (bind m k).
Proof.
  intros Hm Hk s. unfold bind. specialize (Hm s).
  destruct (m s) as [[a | e] s']; simpl in *; subst; [apply Hk | reflexivity].
Qed.

Lemma pure_try_catch {A} (m : M A) (h : string -> M A) :
  pure m -> (forall e, pure (h e)) -> pure (try_catch m h).
Proof.
  intros Hm Hh s. unfold try_catch. specialize (Hm s).
  destruct (m s) as [[a | e] s']; simpl in *; subst; [reflexivity | apply Hh].
Qed.

Lemma pure_run {A} (m : M A) (s : State) : pure m -> m s = (fst (m s), s).
Proof. intros Hm. specialize (Hm s). destruct (m s); simpl in *. now subst. Qed.

Lemma reads_fs_ret {A} (a : A) : reads_fs (ret a).
Proof. intros s1 s2 _. reflexivity. Qed.

Lemma reads_fs_throw {A} (e : string) : reads_fs (@throw A e).
Proof. intros s1 s2 _. reflexivity. Qed.

Lemma reads_fs_bind {A B} (m : M A) (k : A -> M B) :
  pure m -> reads_fs m -> (forall a, reads_fs (k a)) -> reads_fs (bind m k).
Proof.
  intros Hp Hm Hk s1 s2 E. unfold bind.
  rewrite (pure_run m s1 Hp), (pure_run m s2 Hp), (Hm s1 s2 E).
  destruct (fst (m s2)); [now apply Hk | reflexivity].
Qed.

Lemma reads_fs_try_catch {A} (m : M A) (h : string -> M A) :
  pure m -> reads_fs m -> (forall e, reads_fs (h e)) -> reads_fs (try_catch m h).
Proof.
  intros Hp Hm Hh s1 s2 E. unfold try_catch.
  rewrite (pure_run m s1 Hp), (pure_run m s2 Hp), (Hm s1 s2 E).
  destruct (fst (m s2)); [reflexivity | now apply Hh].
Qed.

End PureFacts.

Ltac solve_pure :=
  repeat first
    [ apply pure_ret | apply pure_throw | apply pure_gets | apply pure_lift
    | apply pure_bind | apply pure_try_catch
    | match goal with |- forall _, _ => intro end
    | progress cbv beta
    | match goal with
      | |- pure (if ?c then _ else _) => destruct c
      | |- pure ?m =>
          match m with
          | context [match ?x with _ => _ end] => destruct x
          end
      end ].

Section ValidationFacts.

Context `{Runtime}.

Lemma pure_existsSync (p : string) : pure (existsSync p).
Proof. unfold existsSync. solve_pure. Qed.

Lemma pure_statSync (p : string) : pure (statSync p).
Proof. unfold statSync. solve_pure. Qed.

Lemma pure_readFileSync (p : string) : pure (readFileSync p).
Proof. unfold readFileSync. solve_pure. Qed.

Lemma pure_readdirSync (p : string) : pure (readdirSync p).
Proof. unfold readdirSync. solve_pure. Qed.

Lemma pure_path_argument (arg : string) (v : option json) : pure (path_argument arg v).
Proof. unfold path_argument. solve_pure. Qed.

(** The checks and the read of the image change nothing. *)
Lemma pure_checked_image (args : option json) (key : string) :
  pure (checked_image args key).
Proof.
  unfold checked_image, checked_file, probe_read.
  repeat first
    [ apply pure_existsSync | apply pure_statSync | apply pure_readFileSync
    | apply pure_path_argument
    | apply pure_ret | apply pure_throw | apply pure_bind | apply pure_try_catch
    | match goal with |- forall _, _ => intro end
    | progress cbv beta
    | match goal with
      | |- pure (if ?c then _ else _) => destruct c
      end ].
Qed.

Lemma reads_fs_existsSync (p : string) : reads_fs (existsSync p).
Proof. intros s1 s2 E. unfold existsSync, gets. simpl. now rewrite E. Qed.

Lemma reads_fs_statSync (p : string) : reads_fs (statSync p).
Proof.
  intros s1 s2 E. unfold statSync. unfold_monad. rewrite E.
  destruct (fs s2 !! abs p) as [[]|]; reflexivity.
Qed.

Lemma reads_fs_readFileSync (p : string) : reads_fs (readFileSync p).
Proof.
  intros s1 s2 E. unfold readFileSync. unfold_monad. rewrite E.
  destruct (fs s2 !! abs p) as [[? [|] ? ?|]|]; reflexivity.
Qed.

Ltac solve_checks :=
  repeat first
    [ apply pure_existsSync | apply pure_statSync | apply pure_readFileSync
    | apply pure_ret | apply pure_throw | apply pure_bind | apply pure_try_catch
    | apply reads_fs_existsSync | apply reads_fs_statSync | apply reads_fs_readFileSync
    | apply reads_fs_ret | apply reads_fs_throw | apply reads_fs_bind
    | apply reads_fs_try_catch
    | match goal with |- forall _, _ => intro end
    | progress cbv beta
    | match goal with
      | |- pure (if ?c then _ else _) => destruct c
      | |- reads_fs (if ?c then _ else _) => destruct c
      end ].

Lemma pure_checked_file (key imagePath : string) : pure (checked_file key imagePath).
Proof. unfold checked_file, probe_read. solve_checks. Qed.

(** The checks on the file look at the files only. *)
Lemma reads_fs_checked_file (key imagePath : string) :
  reads_fs (checked_file key imagePath).
Proof. unfold checked_file, probe_read. solve_checks. Qed.

Lemma abs_abs (p : string) : abs (abs p) = abs p.
Proof. apply resolve_idempotent. Qed.

Lemma abs_nonempty (p : string) : String.eqb (abs p) "" = false.
Proof. reflexivity. Qed.

Lemma set_api_key_same (s : State) : set_api_key (OPENAI_API_KEY s) s = s.
Proof. now destruct s. Qed.

(** With a key in place the key checks pass and change nothing. *)
Lemma ensure_api_key_ready (s : State) :
  key_ready s ->
  exists key, OPENAI_API_KEY s = Some key /\ ensure_api_key s = (Ok key, s).
Proof.
  intros (key & Hk & Hne & Hv). exists key. split; [exact Hk |].
  unfold ensure_api_key. unfold_monad. rewrite Hk.
  apply String.eqb_neq in Hne. rewrite Hne, Hv. reflexivity.
Qed.

(** The key checks touch nothing but the key variable. *)
Lemma ensure_api_key_frame (s : State) :
  exists o k, ensure_api_key s = (o, set_api_key k s).
Proof.
  unfold ensure_api_key. unfold_monad.
  destruct (OPENAI_API_KEY s) as [key|] eqn:Hk.
  - destruct (String.eqb key "").
    + destruct getOpenAIApiKey as [key'|]; simpl.
      * destruct (negb (isValid (validateApiKey key'))); eexists _, _; reflexivity.
      * eexists _, _; reflexivity.
    + destruct (negb (isValid (validateApiKey key)));
        (eexists; exists (Some key); rewrite <- Hk, set_api_key_same; reflexivity).
  - destruct getOpenAIApiKey as [key'|]; simpl.
    + destruct (negb (isValid (validateApiKey key'))); eexists _, _; reflexivity.
    + eexists _, _; reflexivity.
Qed.

Lemma prepare_frame (args : option json) (s : State) :
  exists o k, prepare args s = (o, set_api_key k s).
Proof.
  unfold prepare, bind.
  destruct (ensure_api_key_frame s) as (o & k & E). rewrite E.
  destruct o as [key | e]; [| eauto].
  rewrite (pure_run _ _ (pure_checked_image args key)). eauto.
Qed.

End ValidationFacts.

Section ImageChecks.

Context `{Runtime}.

Lemma opt_prop_truthy (args : option json) (k : string) (v : json) :
  Js.opt_prop args k = Some v -> Js.truthy args = true.
Proof. destruct args as [[]|]; simpl; try discriminate; reflexivity. Qed.

(** With a path string in the arguments the checks are those of the
    file at the resolved path. *)
Lemma checked_image_path (args : option json) (key p : string) :
  Js.opt_prop args "image_path" = Some (JStr p) -> p <> "" ->
  checked_image args key = checked_file key (abs p).
Proof.
  intros Ha Hp. unfold checked_image.
  rewrite (opt_prop_truthy _ _ _ Ha), Ha. simpl.
  apply String.eqb_neq in Hp. rewrite Hp. reflexivity.
Qed.

Lemma existsSync_abs (p : string) (s : State) :
  existsSync (abs p) s = (Ok (bool_decide (is_Some (fs s !! abs p))), s).
Proof. unfold existsSync. unfold_monad. now rewrite abs_abs, abs_nonempty. Qed.

Lemma checked_file_missing (key p : string) (s : State) :
  fs s !! abs p = None ->
  checked_file key (abs p) s
  = (Throw ("File access error: File not found at path: " +:+ abs p), s).
Proof.
  intros E. unfold checked_file. unfold bind at 1. unfold try_catch at 1.
  unfold bind at 1. rewrite existsSync_abs, E.
  rewrite bool_decide_eq_false_2 by (intros [? ?]; discriminate). reflexivity.
Qed.

Lemma checked_file_directory (key p : string) (s : State) w entries :
  fs s !! abs p = Some (Dir w entries) ->
  checked_file key (abs p) s
  = (Throw ("File stats error: Not a file: " +:+ abs p), s).
Proof.
  intros E. unfold checked_file. unfold bind at 1. unfold try_catch at 1.
  unfold bind at 1. rewrite existsSync_abs, E.
  rewrite bool_decide_eq_true_2 by eauto. simpl.
  unfold bind at 1. unfold try_catch at 1. unfold bind at 1.
  unfold statSync. unfold_monad. rewrite abs_abs, E. reflexivity.
Qed.

Lemma checked_file_too_large (key p : string) (s : State) size r w data :
  fs s !! abs p = Some (File size r w data) ->
  MAX_FILE_SIZE < size ->
  checked_file key (abs p) s
  = (Throw ("File stats error: File too large: " +:+ toFixed2_MB size
            +:+ "MB (max: 5MB)"), s).
Proof.
  intros E Hs. unfold checked_file. unfold bind at 1. unfold try_catch at 1.
  unfold bind at 1. rewrite existsSync_abs, E.
  rewrite bool_decide_eq_true_2 by eauto. simpl.
  unfold bind at 1. unfold try_catch at 1. unfold bind at 1.
  unfold statSync. unfold_monad. rewrite abs_abs, E. simpl.
  apply Z.ltb_lt in Hs. rewrite Hs. reflexivity.
Qed.

(** The state of the checks once the file is known to be a regular
    file of an accepted size *)
Lemma checked_file_sized (key p : string) (s : State) size r w data :
  fs s !! abs p = Some (File size r w data) ->
  size <= MAX_FILE_SIZE ->
  checked_file key (abs p) s
  = (let ext := Str.toLowerCase (Path.extname (abs p)) in
     if negb (includes ALLOWED_EXTENSIONS ext) then
       (Throw ("Invalid file type: " +:+ ext +:+ ". Allowed types: "
               +:+ Str.join ", " ALLOWED_EXTENSIONS), s)
     else if r then
       (Ok {| prep_key := key; prep_imagePath := abs p;
              prep_imageBuffer := data; prep_mimeType := getMimeType (abs p) |}, s)
     else (Throw ("File read error: " +:+ EACCES "open" (abs p)), s)).
Proof.
  intros E Hs. unfold checked_file. unfold bind at 1. unfold try_catch at 1.
  unfold bind at 1. rewrite existsSync_abs, E.
  rewrite bool_decide_eq_true_2 by eauto. simpl.
  unfold bind at 1. unfold try_catch at 1. unfold bind at 1.
  unfold statSync. unfold_monad. rewrite abs_abs, E. simpl.
  apply Z.ltb_ge in Hs. rewrite Hs. simpl.
  unfold includes.
  match goal with
  | |- context [if negb ?c then _ else _] => destruct c
  end; [| reflexivity]. simpl.
  unfold probe_read, readFileSync. unfold_monad. rewrite !abs_abs, !E.
  destruct r; simpl; rewrite ?abs_abs, ?E; reflexivity.
Qed.

End ImageChecks.

(* ===================================================================== *)
(** * The extraction tool: the remote reply *)
(* ===================================================================== *)

Section RemoteFacts.

Context `{Runtime}.

Lemma pure_member (v : option json) (k : string) : pure (member v k).
Proof. unfold member. solve_pure. Qed.

Lemma pure_first_item (v : option json) : pure (first_item v).
Proof. unfold first_item. solve_pure. Qed.

Lemma pure_fullResponse_of (resp : json) : pure (fullResponse_of resp).
Proof.
  unfold fullResponse_of.
  repeat first
    [ apply pure_member | apply pure_first_item
    | apply pure_ret | apply pure_throw | apply pure_bind
    | match goal with |- forall _, _ => intro end
    | progress cbv beta
    | match goal with
      | |- pure (if ?c then _ else _) => destruct c
      | |- pure ?m =>
          match m with
          | context [match ?x with _ => _ end] => destruct x
          end
      end ].
Qed.

(** The completion text of a reply that carries a non-empty string *)
Lemma fullResponse_of_text (resp choice message : json) (others : list json)
    (text : string) (s : State) :
  Js.prop resp "choices" = Some (JArr (choice :: others)) ->
  Js.prop choice "message" = Some message ->
  Js.prop message "content" = Some (JStr text) -> text <> "" ->
  fullResponse_of resp s = (Ok text, s).
Proof.
  intros Hc Hm Ht Hne.
  destruct (prop_some_object _ _ _ Hc) as [f1 ->].
  destruct (prop_some_object _ _ _ Hm) as [f2 ->].
  destruct (prop_some_object _ _ _ Ht) as [f3 ->].
  simpl in Hc, Hm, Ht.
  unfold fullResponse_of, member, first_item. unfold_monad.
  simpl. rewrite Hc. simpl. rewrite Hm. simpl. rewrite Ht. simpl.
  apply String.eqb_neq in Hne. now rewrite Hne.
Qed.

(** The completion text of a reply whose content is empty or missing *)
Lemma fullResponse_of_empty (resp choice message : json) (others : list json)
    (s : State) :
  Js.prop resp "choices" = Some (JArr (choice :: others)) ->
  Js.prop choice "message" = Some message ->
  message <> JNull ->
  Js.truthy (Js.prop message "content") = false ->
  fullResponse_of resp s = (Ok "No text extracted", s).
Proof.
  intros Hc Hm Hn Ht.
  destruct (prop_some_object _ _ _ Hc) as [f1 ->].
  destruct (prop_some_object _ _ _ Hm) as [f2 ->].
  simpl in Hc, Hm.
  unfold fullResponse_of, member, first_item. unfold_monad.
  simpl. rewrite Hc. simpl. rewrite Hm.
  destruct message; try contradiction; simpl in *; rewrite ?Ht; reflexivity.
Qed.

Lemma on_close_exit (imagePath : string) (exit : CurlExit) (s : State) :
  exit_code exit <> 0 ->
  on_close imagePath exit s
  = (Ok (inl ("curl process exited with code " +:+ Str.of_Z (exit_code exit)
              +:+ ": " +:+ errorOutput exit)), s).
Proof.
  intros Hc. unfold on_close. apply Z.eqb_neq in Hc. now rewrite Hc.
Qed.

Lemma on_close_unparsable (imagePath : string) (exit : CurlExit) (s : State) e :
  exit_code exit = 0 ->
  JSON_parse (responseData exit) = inl e ->
  on_close imagePath exit s
  = (Ok (inl ("Failed to parse OpenAI response: " +:+ e)), s).
Proof.
  intros Hc Hp. unfold on_close. rewrite Hc. simpl.
  unfold_monad. now rewrite Hp.
Qed.

Lemma on_close_error_payload (imagePath : string) (exit : CurlExit) (s : State) resp :
  exit_code exit = 0 ->
  JSON_parse (responseData exit) = inr resp ->
  Js.truthy (Js.prop resp "error") = true ->
  on_close imagePath exit s
  = (Ok (inl ("OpenAI API error: "
              +:+ Js.display (Js.opt_prop (Js.prop resp "error") "message"))), s).
Proof.
  intros Hc Hp Ht. unfold on_close. rewrite Hc. simpl.
  unfold try_catch, bind at 1, lift. rewrite Hp.
  unfold member at 1.
  destruct resp; try discriminate Ht.
  unfold bind at 1, ret at 1. rewrite Ht.
  unfold member. destruct (Js.prop (JObj fields) "error") as [[]|]; try discriminate Ht;
    reflexivity.
Qed.

Lemma saveExtractedText_cases (imagePath text : string) (s : State) :
  (exists files',
      saveExtractedText imagePath text s
      = (Ok (txtPath_of imagePath text), set_fs files' s))
  \/ (exists e, saveExtractedText imagePath text s = (Throw e, s)).
Proof.
  unfold saveExtractedText, writeFileSync, create_file. unfold_monad.
  destruct (fs s !! abs (txtPath_of imagePath text)) as [[? ? [|] ?|]|]; eauto.
  destruct (fs s !! Path.dirname (abs (txtPath_of imagePath text)))
    as [[? ? ? ?|[|] ?]|]; eauto.
Qed.

(** What the [close] handler does with a completion text: it records
    the result, saves the text and appends the analysis, if any. *)
Lemma on_close_text (imagePath : string) (exit : CurlExit) (s : State) resp text :
  exit_code exit = 0 ->
  JSON_parse (responseData exit) = inr resp ->
  resp <> JNull ->
  Js.truthy (Js.prop resp "error") = false ->
  fullResponse_of resp s = (Ok text, s) ->
  let extractedText := extractedText_of text in
  let analysis := analysis_of text in
  let s1 := record_ocr extractedText imagePath s in
  on_close imagePath exit s
  = match saveExtractedText imagePath extractedText s1 with
    | (Ok txtPath, s2) =>
        (Ok (inr {| content := [text_item extractedText;
                                text_item (nl +:+ nl +:+ "Text has been saved to: "
                                           +:+ txtPath)];
                    isError := None |}),
         if String.eqb analysis "" then s2
         else snd (handleAppendAnalysis (append_args txtPath analysis) s2))
    | (Throw e, s2) =>
        (Ok (inr {| content := [text_item extractedText;
                                text_item (nl +:+ nl
                                           +:+ "Warning: Failed to save text file: " +:+ e)];
                    isError := None |}), s2)
    end.
Proof.
  intros Hc Hp Hn Ht Hf extractedText analysis s1.
  unfold on_close. rewrite Hc. simpl.
  unfold try_catch at 1, bind at 1, lift. rewrite Hp.
  unfold member at 1.
  destruct resp; try contradiction.
  all: unfold bind at 1, ret at 1; rewrite Ht.
  all: unfold bind at 1; rewrite Hf.
  all: unfold bind at 1, modify at 1.
  all: fold extractedText analysis s1.
  all: unfold bind at 1, try_catch at 1, bind at 1.
  all: destruct (saveExtractedText imagePath extractedText s1) as [[txtPath | e] s2];
    [| reflexivity].
  all: unfold bind at 1.
  all: destruct (String.eqb analysis ""); simpl; [reflexivity |].
  all: destruct (handleAppendAnalysis_total (append_args txtPath analysis) s2)
    as (res & files' & ticks & E & _).
  all: unfold bind at 1; rewrite E; reflexivity.
Qed.

Lemma on_close_null (imagePath : string) (exit : CurlExit) (s : State) :
  exit_code exit = 0 ->
  JSON_parse (responseData exit) = inr JNull ->
  on_close imagePath exit s
  = (Ok (inl ("Failed to parse OpenAI response: "
              +:+ "Cannot read properties of null (reading 'error')")), s).
Proof.
  intros Hc Hp. unfold on_close. rewrite Hc. simpl.
  unfold_monad. now rewrite Hp.
Qed.

Lemma on_close_no_text (imagePath : string) (exit : CurlExit) (s : State) resp e :
  exit_code exit = 0 ->
  JSON_parse (responseData exit) = inr resp ->
  resp <> JNull ->
  Js.truthy (Js.prop resp "error") = false ->
  fullResponse_of resp s = (Throw e, s) ->
  on_close imagePath exit s
  = (Ok (inl ("Failed to parse OpenAI response: " +:+ e)), s).
Proof.
  intros Hc Hp Hn Ht Hf. unfold on_close. rewrite Hc. simpl.
  unfold try_catch at 1, bind at 1, lift. rewrite Hp.
  unfold member at 1.
  destruct resp; try contradiction.
  all: unfold bind at 1, ret at 1; rewrite Ht.
  all: unfold bind at 1; rewrite Hf; reflexivity.
Qed.

(** The [close] handler rejects and leaves the process as it was, or
    resolves with a result that is not flagged as an error, after
    recording the image path and the extracted text that heads the
    result. *)
Lemma on_close_cases (imagePath : string) (exit : CurlExit) (s : State) :
  (exists reason, on_close imagePath exit s = (Ok (inl reason), s))
  \/ (exists res text files' n,
         on_close imagePath exit s
         = (Ok (inr res), set_fs files' (set_clock n (record_ocr text imagePath s)))
         /\ isError res = None
         /\ head (content res) = Some (text_item text)).
Proof.
  destruct (Z.eq_dec (exit_code exit) 0) as [Hc | Hc];
    [| left; eexists; exact (on_close_exit _ _ _ Hc)].
  destruct (JSON_parse (responseData exit)) as [e | resp] eqn:Hp;
    [left; eexists; exact (on_close_unparsable _ _ _ e Hc Hp) |].
  assert (Hd : resp = JNull \/ resp <> JNull)
    by (destruct resp; (left; reflexivity) || (right; discriminate)).
  destruct Hd as [-> | Hn];
    [left; eexists; exact (on_close_null _ _ _ Hc Hp) |].
  destruct (Js.truthy (Js.prop resp "error")) eqn:Ht;
    [left; eexists; exact (on_close_error_payload _ _ _ resp Hc Hp Ht) |].
  pose proof (pure_run _ s (pure_fullResponse_of resp)) as Hf.
  destruct (fst (fullResponse_of resp s)) as [text | e];
    [| left; eexists; exact (on_close_no_text _ _ _ resp e Hc Hp Hn Ht Hf)].
  right. rewrite (on_close_text imagePath exit s resp text Hc Hp Hn Ht Hf).
  cbv zeta.
  set (s1 := record_ocr (extractedText_of text) imagePath s).
  destruct (saveExtractedText_cases imagePath (extractedText_of text) s1)
    as [[files' E] | [e E]]; rewrite E.
  - destruct (String.eqb (analysis_of text) "").
    + eexists _, (extractedText_of text), files', (clock s1).
      split; [apply f_equal2; [reflexivity | subst s1; now destruct s]
             | split; reflexivity].
    + destruct (handleAppendAnalysis_total
                  (append_args (txtPath_of imagePath (extractedText_of text))
                               (analysis_of text))
                  (set_fs files' s1)) as (res & files'' & n & E2 & _).
      rewrite E2. eexists _, (extractedText_of text), files'', n.
      split; [apply f_equal2; [reflexivity | subst s1; now destruct s]
             | split; reflexivity].
  - eexists _, (extractedText_of text), (fs s1), (clock s1).
    split; [apply f_equal2; [reflexivity | subst s1; now destruct s]
           | split; reflexivity].
Qed.

(** The tool in terms of its two halves *)
Lemma extractTextFromImage_unfold (args : option json) (s : State) :
  extractTextFromImage args s
  = match prepare args s with
    | (Throw e, s1) => (Ok (error_result e), s1)
    | (Ok p, s1) =>
        match on_close (prep_imagePath p)
                (curl (length (spawned s1)) (requestBody p))
                (set_spawned (spawned s1 ++ [requestBody p]) s1) with
        | (Ok (inl reason), s3) => (Throw reason, s3)
        | (Ok (inr res), s3) => (Ok res, s3)
        | (Throw e, s3) => (Throw e, s3)
        end
    end.
Proof.
  unfold extractTextFromImage, spawn_curl. unfold_monad.
  destruct (prepare args s) as [[p | e] s1]; [| reflexivity].
  destruct (on_close _ _ _) as [[[reason | res] | e] s3]; reflexivity.
Qed.

(** A valid image with a key in place passes the checks, which change
    nothing. *)
Lemma prepare_ok (args : option json) (p data : string) (s : State) :
  key_ready s ->
  Js.opt_prop args "image_path" = Some (JStr p) -> p <> "" ->
  valid_image s p data ->
  exists key,
    OPENAI_API_KEY s = Some key
    /\ prepare args s
       = (Ok {| prep_key := key; prep_imagePath := abs p;
                prep_imageBuffer := data; prep_mimeType := getMimeType (abs p) |}, s).
Proof.
  intros Hk Ha Hp (size & w & Hf & Hs & He).
  destruct (ensure_api_key_ready s Hk) as (key & Hkey & E).
  exists key. split; [exact Hkey |].
  unfold prepare, bind. rewrite E, (checked_image_path args key p Ha Hp).
  rewrite (checked_file_sized key p s size true w data Hf Hs).
  cbv zeta. now rewrite He.
Qed.

(** A failed check is a soft error: the key variable apart, nothing
    changes and no remote call is made. *)
Lemma extractTextFromImage_check_failed (args : option json) (p e : string) (s : State) :
  Js.opt_prop args "image_path" = Some (JStr p) -> p <> "" ->
  (forall key, checked_file key (abs p) s = (Throw e, s)) ->
  exists res k,
    extractTextFromImage args s = (Ok res, set_api_key k s)
    /\ isError res = Some true
    /\ (key_ready s -> res = error_result e /\ set_api_key k s = s).
Proof.
  intros Ha Hp Hc. rewrite extractTextFromImage_unfold. unfold prepare, bind.
  destruct (ensure_api_key_frame s) as (o & k & E).
  destruct o as [key | e'].
  - assert (Hrun : checked_image args key (set_api_key k s)
                   = (Throw e, set_api_key k s)).
    { rewrite (checked_image_path args key p Ha Hp).
      rewrite (pure_run _ _ (pure_checked_file key (abs p))). f_equal.
      rewrite (reads_fs_checked_file key (abs p) (set_api_key k s) s eq_refl).
      now rewrite Hc. }
    rewrite E, Hrun. exists (error_result e), k. split; [reflexivity |].
    split; [reflexivity |]. intros Hk.
    destruct (ensure_api_key_ready s Hk) as (key' & _ & E').
    rewrite E' in E. injection E as _ <-. now split.
  - rewrite E. exists (error_result e'), k. split; [reflexivity |].
    split; [reflexivity |]. intros Hk.
    destruct (ensure_api_key_ready s Hk) as (key' & _ & E').
    rewrite E' in E. discriminate.
Qed.

End RemoteFacts.

(* ===================================================================== *)
(** * The size limit *)
(* ===================================================================== *)

Example MAX_FILE_SIZE_value : MAX_FILE_SIZE = 5242880.
Proof. reflexivity. Qed.

Example toFixed2_MB_examples :
  toFixed2_MB 5242881 = "5.00" /\ toFixed2_MB 6291456 = "6.00"
  /\ toFixed2_MB 5300000 = "5.05" /\ toFixed2_MB 12345678 = "11.77".
Proof. vm_compute. repeat split. Qed.

(** C6. An extraction whose input is a regular file of more than
    5 * 1024 * 1024 bytes ends in a soft error and spawns no remote call:
    the list of spawned calls and the files are as before.  With an API
    key in place the error is the File too large one and the process is
    left as it was. *)
Theorem C6_oversized_no_remote_call `{Runtime}
    (args : option json) (p : string) (s : State) size r w data :
  Js.opt_prop args "image_path" = Some (JStr p) -> p <> "" ->
  fs s !! abs p = Some (File size r w data) ->
  MAX_FILE_SIZE < size ->
  exists res s',
    extractTextFromImage args s = (Ok res, s')
    /\ isError res = Some true
    /\ spawned s' = spawned s
    /\ fs s' = fs s
    /\ (key_ready s ->
        s' = s
        /\ res = error_result ("File stats error: File too large: "
                               +:+ toFixed2_MB size +:+ "MB (max: 5MB)")).
Proof.
  intros Ha Hp Hf Hs.
  destruct (extractTextFromImage_check_failed args p _ s Ha Hp
              (fun key => checked_file_too_large key p s size r w data Hf Hs))
    as (res & k & E & He & Hk).
  exists res, (set_api_key k s). repeat split; try assumption.
  - now apply Hk.
  - now apply Hk.
Qed.

(** C6 at the 6 MiB poster of the examples. *)
Lemma C6_oversized_no_remote_call_witness :
  let rt := Demo.runtime [] Demo.unreachable in
  let s := @startup rt Demo.with_poster in
  @extractTextFromImage rt (Demo.image_args "/scans/poster.png") s
  = (Ok (error_result "File stats error: File too large: 6.00MB (max: 5MB)"), s)
  /\ spawned s = [].
Proof.
  intros rt s.
  destruct (@C6_oversized_no_remote_call rt (Demo.image_args "/scans/poster.png")
              "/scans/poster.png" s (6 * 1024 * 1024) true true "")
    as (res & s' & E & _ & _ & _ & Hk).
  - reflexivity.
  - discriminate.
  - vm_compute. reflexivity.
  - reflexivity.
  - destruct Hk as [-> ->].
    + exists Demo.key. vm_compute. repeat split. discriminate.
    + split; [exact E | reflexivity].
Defined.

(* ===================================================================== *)
(** * An empty completion *)
(* ===================================================================== *)

Example no_text_is_one_piece :
  extractedText_of "No text extracted" = "No text extracted"
  /\ analysis_of "No text extracted" = "".
Proof. vm_compute. split; reflexivity. Qed.

Lemma txtPath_of_no_text (imagePath : string) :
  txtPath_of imagePath "No text extracted"
  = Path.join (Path.dirname imagePath)
      (Path.basename imagePath (Path.extname imagePath) +:+ "-a17cc10e.txt").
Proof. unfold txtPath_of. now rewrite generateShortHash_no_text. Qed.

(** C10. When the remote service answers without error and the content
    of the completion message is empty or missing, the text
    "No text extracted" stands in for the extracted text: it is recorded
    in the correlation state with the resolved image path, it heads the
    result, its digest a17cc10e names the output file, and, where that
    file can be written, it is what the file holds. *)
Theorem C10_no_text_extracted `{Runtime}
    (args : option json) (p data key : string) (s : State)
    (resp choice message : json) (others : list json) :
  OPENAI_API_KEY s = Some key -> key <> "" -> isValid (validateApiKey key) = true ->
  Js.opt_prop args "image_path" = Some (JStr p) -> p <> "" ->
  valid_image s p data ->
  let request :=
    requestBody {| prep_key := key; prep_imagePath := abs p;
                   prep_imageBuffer := data; prep_mimeType := getMimeType (abs p) |} in
  let exit := curl (length (spawned s)) request in
  exit_code exit = 0 ->
  JSON_parse (responseData exit) = inr resp ->
  Js.truthy (Js.prop resp "error") = false ->
  Js.prop resp "choices" = Some (JArr (choice :: others)) ->
  Js.prop choice "message" = Some message ->
  message <> JNull ->
  Js.truthy (Js.prop message "content") = false ->
  let txtPath :=
    Path.join (Path.dirname (abs p))
      (Path.basename (abs p) (Path.extname (abs p)) +:+ "-a17cc10e.txt") in
  exists res s',
    extractTextFromImage args s = (Ok res, s')
    /\ isError res = None
    /\ head (content res) = Some (text_item "No text extracted")
    /\ lastOcrResult (conversationState s') = Some "No text extracted"
    /\ lastImagePath (conversationState s') = Some (JStr (abs p))
    /\ (writable_target (fs s) (abs txtPath) ->
        content res
        = [text_item "No text extracted";
           text_item (nl +:+ nl +:+ "Text has been saved to: " +:+ txtPath)]
        /\ exists r, fs s' !! abs txtPath
                     = Some (File 57 r true (ocr_section "No text extracted"))).
Proof.
  intros Hkey Hne Hval Ha Hp Himg request exit Hc Hparse Herr Hch Hmsg Hn Hcontent txtPath.
  destruct (prepare_ok args p data s) as (key' & Hkey' & Eprep); try assumption.
  { exists key. repeat split; assumption. }
  rewrite Hkey in Hkey'. injection Hkey' as <-.
  rewrite extractTextFromImage_unfold, Eprep. cbn [prep_imagePath].
  fold request. fold exit.
  set (s0 := set_spawned (spawned s ++ [request]) s).
  destruct (prop_some_object _ _ _ Hch) as [fields Hresp].
  assert (Hnn : resp <> JNull) by (rewrite Hresp; discriminate).
  pose proof (fullResponse_of_empty resp choice message others s0 Hch Hmsg Hn Hcontent) as Hf.
  rewrite (on_close_text (abs p) exit s0 resp _ Hc Hparse Hnn Herr Hf). cbv zeta.
  destruct no_text_is_one_piece as [-> ->]. simpl String.eqb. cbv iota.
  set (s1 := record_ocr "No text extracted" (abs p) s0).
  destruct (saveExtractedText_cases (abs p) "No text extracted" s1)
    as [[files' E] | [e E]].
  - rewrite E. eexists _, _. split; [reflexivity |].
    do 4 (split; [reflexivity |]).
    intros Hw. rewrite txtPath_of_no_text. fold txtPath. split; [reflexivity |].
    destruct (saveExtractedText_ok (abs p) "No text extracted" s1) as (files2 & E2 & Hr & _).
    { rewrite txtPath_of_no_text. exact Hw. }
    rewrite E in E2. injection E2 as ->.
    rewrite txtPath_of_no_text in Hr. exact Hr.
  - rewrite E. eexists _, _. split; [reflexivity |].
    do 4 (split; [reflexivity |]).
    intros Hw. exfalso.
    destruct (saveExtractedText_ok (abs p) "No text extracted" s1) as (files2 & E2 & _).
    { rewrite txtPath_of_no_text. exact Hw. }
    rewrite E in E2. discriminate.
Qed.

(** C10 at a reply whose content is the empty string. *)
Lemma C10_no_text_extracted_witness :
  let reply := Demo.completion (JStr "") in
  let rt := Demo.runtime [reply] (Demo.answers reply) in
  let s := @startup rt Demo.scans in
  exists s',
    @extractTextFromImage rt (Demo.image_args "/scans/invoice.png") s
    = (Ok {| content := [text_item "No text extracted";
                         text_item (nl +:+ nl +:+ "Text has been saved to: "
                                    +:+ "/scans/invoice-a17cc10e.txt")];
             isError := None |}, s')
    /\ lastOcrResult (conversationState s') = Some "No text extracted"
    /\ lastImagePath (conversationState s') = Some (JStr "/scans/invoice.png")
    /\ exists r, fs s' !! "/scans/invoice-a17cc10e.txt"
                 = Some (File 57 r true (ocr_section "No text extracted")).
Proof.
  intros reply rt s.
  destruct (@C10_no_text_extracted rt (Demo.image_args "/scans/invoice.png")
              "/scans/invoice.png" "(image bytes)" Demo.key s reply
              (JObj [("message", JObj [("role", JStr "assistant"); ("content", JStr "")])])
              (JObj [("role", JStr "assistant"); ("content", JStr "")]) [])
    as (res & s' & E & Herr & _ & Hocr & Hpath & Hsaved).
  - reflexivity.
  - discriminate.
  - reflexivity.
  - reflexivity.
  - discriminate.
  - exists 2048, true. split; [reflexivity |]. split; [discriminate | reflexivity].
  - reflexivity.
  - reflexivity.
  - reflexivity.
  - reflexivity.
  - reflexivity.
  - discriminate.
  - reflexivity.
  - destruct Hsaved as [Hcontent Hfile]; [vm_compute; reflexivity |].
    exists s'. destruct res as [c e]. simpl in Herr, Hcontent. subst c e.
    split; [exact E |]. split; [exact Hocr |]. split; [exact Hpath | exact Hfile].
Defined.

(* ===================================================================== *)
(** * The correlation state *)
(* ===================================================================== *)

Section CorrelationFacts.

Context `{Runtime}.

Lemma checked_file_ok_path (key q : string) (s s' : State) (prep : Prepared) :
  checked_file key q s = (Ok prep, s') -> prep_imagePath prep = q.
Proof.
  unfold checked_file, probe_read, existsSync, statSync, readFileSync. unfold_monad.
  intros E.
  repeat match type of E with
         | context [match ?x with _ => _ end] => destruct x eqn:?; try discriminate
         | context [if ?c then _ else _] => destruct c eqn:?; try discriminate
         end.
  all: injection E as <- _; reflexivity.
Qed.

(** Checks that pass were made on the resolved path of a string
    argument. *)
Lemma prepare_ok_path (args : option json) (s s1 : State) (prep : Prepared) :
  prepare args s = (Ok prep, s1) ->
  exists p, Js.opt_prop args "image_path" = Some (JStr p)
            /\ prep_imagePath prep = abs p.
Proof.
  unfold prepare, bind.
  destruct (ensure_api_key s) as [[key | e] s0]; [| discriminate].
  unfold checked_image.
  destruct (negb (Js.truthy args)); [discriminate |].
  destruct (negb (Js.truthy (Js.opt_prop args "image_path"))); [discriminate |].
  unfold path_argument, bind.
  destruct (Js.opt_prop args "image_path") as [[]|]; try discriminate.
  intros E. eexists. split; [reflexivity |].
  unfold ret in E. now apply checked_file_ok_path in E.
Qed.

(** A result that is not flagged as an error comes with the resolved
    image path and the text that heads it on record. *)
Lemma extractTextFromImage_records (args : option json) (s s' : State) res :
  extractTextFromImage args s = (Ok res, s') ->
  isError res = None ->
  exists p text,
    Js.opt_prop args "image_path" = Some (JStr p)
    /\ lastImagePath (conversationState s') = Some (JStr (abs p))
    /\ lastOcrResult (conversationState s') = Some text
    /\ head (content res) = Some (text_item text).
Proof.
  rewrite extractTextFromImage_unfold.
  destruct (prepare args s) as [[prep | e] s1] eqn:Eprep.
  - destruct (prepare_ok_path _ _ _ _ Eprep) as (p & Ha & Hpath).
    match goal with
    | |- context [on_close ?i ?x ?t] =>
        destruct (on_close_cases i x t)
          as [[reason E] | (res' & text & files' & n & E & He & Hh)]; rewrite E
    end.
    + discriminate.
    + intros Eq _. injection Eq as <- <-.
      exists p, text. rewrite <- Hpath. repeat split; [exact Ha | exact Hh].
  - intros Eq Herr. injection Eq as <- _. discriminate.
Qed.

(** A failed extraction leaves the correlation state as it was. *)
Lemma extractTextFromImage_failed (args : option json) (s s' : State) o :
  extractTextFromImage args s = (o, s') ->
  failed o ->
  conversationState s' = conversationState s.
Proof.
  rewrite extractTextFromImage_unfold.
  destruct (prepare_frame args s) as (o1 & k & Eprep). rewrite Eprep.
  destruct o1 as [prep | e].
  - match goal with
    | |- context [on_close ?i ?x ?t] =>
        destruct (on_close_cases i x t)
          as [[reason E] | (res' & text & files' & n & E & He & Hh)]; rewrite E
    end.
    + intros Eq _. now injection Eq as _ <-.
    + intros Eq Hf. injection Eq as <- _. simpl in Hf. congruence.
  - intros Eq _. now injection Eq as _ <-.
Qed.

(** [handleCallTool] with the extraction tool: the reply is the result
    of the tool, or error -32000 when the promise of the tool is
    rejected. *)
Lemma handleCallTool_extract (id : option json) (params : json) (s : State) :
  Js.prop params "name" = Some (JStr "extract_text_from_image") ->
  handleCallTool id (Some params) s
  = match extractTextFromImage (Js.prop params "arguments") s with
    | (Ok res, s1) =>
        (Ok tt, set_stdout (stdout s1 ++ [JsonRpcSuccessResponse id (ToolResult res)]) s1)
    | (Throw e, s1) =>
        (Ok tt, set_stdout (stdout s1 ++ [JsonRpcErrorResponse (id_or_error id) (-32000)
                                            ("Error executing tool: " +:+ e)]) s1)
    end.
Proof.
  intros Hn. destruct (prop_some_object _ _ _ Hn) as [pfields ->].
  unfold handleCallTool.
  change (negb (Js.truthy (Some (JObj pfields)))) with false. cbv iota.
  change (Js.opt_prop (Some (JObj pfields)) "name") with (Js.prop (JObj pfields) "name").
  rewrite Hn.
  change (Js.strict_eq_string (Some (JStr "extract_text_from_image")) (name OCR_TOOL))
    with true. cbv iota.
  change (Js.opt_prop (Some (JObj pfields)) "arguments")
    with (Js.prop (JObj pfields) "arguments").
  unfold try_catch, bind.
  destruct (extractTextFromImage _ s) as [[res | e] s1]; reflexivity.
Qed.

(** [callTool] with the extraction tool: the dispatcher stores the raw
    path, then the reply is the result of the tool, or error -32000 when
    the promise of the tool is rejected. *)
Lemma processRequest_callTool_extract (request params : json) (s : State) :
  Js.prop request "method" = Some (JStr "callTool") ->
  Js.prop request "params" = Some params ->
  Js.prop params "name" = Some (JStr "extract_text_from_image") ->
  let id := Js.prop request "id" in
  let args := Js.prop params "arguments" in
  let s0 := remember_image_path (Js.opt_prop args "image_path") s in
  processRequest request s
  = match extractTextFromImage args s0 with
    | (Ok res, s1) =>
        (Ok tt, set_stdout (stdout s1 ++ [JsonRpcSuccessResponse id (ToolResult res)]) s1)
    | (Throw e, s1) =>
        (Ok tt, set_stdout (stdout s1 ++ [JsonRpcErrorResponse (id_or_error id) (-32000)
                                            ("Error executing tool: " +:+ e)]) s1)
    end.
Proof.
  intros Hm Hp Hn id args s0.
  destruct (prop_some_object _ _ _ Hm) as [fields ->].
  destruct (prop_some_object _ _ _ Hn) as [pfields ->].
  unfold processRequest. rewrite Hm, Hp.
  unfold method_startsWith. unfold bind at 1, ret at 1.
  change (Str.startsWith "callTool" "notifications/") with false. cbv iota.
  change (Js.strict_eq_string (Some (JStr "callTool")) "initialize") with false.
  change (Js.strict_eq_string (Some (JStr "callTool")) "ListOfferings") with false.
  change (Js.strict_eq_string (Some (JStr "callTool")) "callTool") with true.
  cbv iota. unfold bind at 1, modify at 1.
  change (Js.opt_prop (Some (JObj pfields)) "arguments") with args.
  fold s0. unfold handleCallTool.
  change (negb (Js.truthy (Some (JObj pfields)))) with false. cbv iota.
  change (Js.opt_prop (Some (JObj pfields)) "name") with (Js.prop (JObj pfields) "name").
  rewrite Hn.
  change (Js.strict_eq_string (Some (JStr "extract_text_from_image")) (name OCR_TOOL))
    with true. cbv iota.
  change (Js.opt_prop (Some (JObj pfields)) "arguments") with args.
  unfold try_catch, bind.
  destruct (extractTextFromImage args s0) as [[res | e] s1]; reflexivity.
Qed.

End CorrelationFacts.

(** C8, as stated, at a request for a file that does not exist: the
    extraction fails at path validation, and the dispatcher has by then
    set lastImagePath to the path as the request spelled it. *)
Lemma C8_counterexample :
  let rt := Demo.runtime [] Demo.unreachable in
  let s := @startup rt Demo.scans in
  let s' := snd (@processRequest rt (Demo.callTool_extract 1 "missing.png") s) in
  stdout s'
  = [JsonRpcSuccessResponse (Some (JNum 1))
       (ToolResult (error_result
          "File access error: File not found at path: /home/ocr/missing.png"))]
  /\ lastImagePath (conversationState s) = None
  /\ lastImagePath (conversationState s') = Some (JStr "missing.png").
Proof. vm_compute. repeat split. Qed.

(** C8, amended. Every extraction that returns a result not flagged as
    an error has recorded the resolved image path as lastImagePath and
    the extracted text, which heads the result, as lastOcrResult.  An
    extraction that fails, by a soft error or by a rejected promise,
    leaves the correlation state as the tool found it.  The tool finds
    it as the dispatcher left it: for a callTool request whose arguments
    carry a truthy image_path the dispatcher has first set lastImagePath
    to that raw value, so after a failed request lastOcrResult is
    unchanged and lastImagePath is the raw value of the request. *)
Theorem C8_correlation_state `{Runtime} :
  (forall args s res s',
      extractTextFromImage args s = (Ok res, s') ->
      isError res = None ->
      exists p text,
        Js.opt_prop args "image_path" = Some (JStr p)
        /\ lastImagePath (conversationState s') = Some (JStr (abs p))
        /\ lastOcrResult (conversationState s') = Some text
        /\ head (content res) = Some (text_item text))
  /\ (forall args s o s',
        extractTextFromImage args s = (o, s') ->
        failed o ->
        conversationState s' = conversationState s)
  /\ (forall request params s o s1,
        Js.prop request "method" = Some (JStr "callTool") ->
        Js.prop request "params" = Some params ->
        Js.prop params "name" = Some (JStr "extract_text_from_image") ->
        let args := Js.prop params "arguments" in
        let raw := Js.opt_prop args "image_path" in
        extractTextFromImage args (remember_image_path raw s) = (o, s1) ->
        failed o ->
        let after := conversationState (snd (processRequest request s)) in
        lastOcrResult after = lastOcrResult (conversationState s)
        /\ llmResponses after = llmResponses (conversationState s)
        /\ lastImagePath after
           = if Js.truthy raw then raw else lastImagePath (conversationState s)).
Proof.
  split; [intros args s res s'; apply extractTextFromImage_records |].
  split; [intros args s o s'; apply extractTextFromImage_failed |].
  intros request params s o s1 Hm Hp Hn args raw E Hf after.
  assert (Ha : after = conversationState (remember_image_path raw s)).
  { subst after.
    rewrite (processRequest_callTool_extract request params s Hm Hp Hn). cbv zeta.
    fold args. fold raw. rewrite E.
    rewrite <- (extractTextFromImage_failed _ _ _ _ E Hf).
    destruct o; reflexivity. }
  rewrite Ha. unfold remember_image_path.
  destruct (Js.truthy raw); repeat split; reflexivity.
Qed.

(** C8, amended, in the scan directory: an extraction that succeeds
    records the resolved path and the text, and one that fails leaves
    the correlation state alone. *)
Lemma C8_correlation_state_witness :
  let reply :=
    Demo.completion (JStr ("TOTAL 42.00" +:+ nl +:+ nl +:+ "Analysis: a till receipt")) in
  let rt := Demo.runtime [reply] (Demo.answers reply) in
  let s := @startup rt Demo.scans in
  let done := snd (@extractTextFromImage rt (Demo.image_args "../../scans/invoice.png") s) in
  let missed := snd (@extractTextFromImage rt (Demo.image_args "missing.png") s) in
  lastImagePath (conversationState done) = Some (JStr "/scans/invoice.png")
  /\ lastOcrResult (conversationState done) = Some "TOTAL 42.00"
  /\ conversationState missed = conversationState s.
Proof.
  intros reply rt s done missed.
  destruct (@C8_correlation_state rt) as (Hrecord & Hfail & _).
  assert (Hdone : lastImagePath (conversationState done) = Some (JStr "/scans/invoice.png")
                  /\ lastOcrResult (conversationState done) = Some "TOTAL 42.00").
  { edestruct (Hrecord (Demo.image_args "../../scans/invoice.png") s)
      as (p & text & Hp & Hpath & Htext & Hhead).
    - vm_compute. reflexivity.
    - reflexivity.
    - injection Hp as <-. vm_compute in Hhead. injection Hhead as <-.
      vm_compute in Hpath, Htext |- *. split; [exact Hpath | exact Htext]. }
  split; [apply Hdone |]. split; [apply Hdone |].
  apply (Hfail (Demo.image_args "missing.png") s
           (fst (@extractTextFromImage rt (Demo.image_args "missing.png") s))).
  - subst missed. now destruct (@extractTextFromImage rt (Demo.image_args "missing.png") s).
  - vm_compute. reflexivity.
Defined.

(* ===================================================================== *)
(** * Failures of an extraction and the replies they get *)
(* ===================================================================== *)

(** C1, as stated, at a remote call whose transport fails: the reply is
    the protocol-level error -32000, not a result flagged isError. *)
Lemma C1_counterexample :
  let rt := Demo.runtime [] Demo.unreachable in
  let s := @startup rt Demo.scans in
  let s' := snd (@processRequest rt (Demo.callTool_extract 7 "/scans/invoice.png") s) in
  stdout s'
  = [JsonRpcErrorResponse (JNum 7) (-32000)
       ("Error executing tool: curl process exited with code 6: "
        +:+ "curl: (6) Could not resolve host: api.openai.com")]
  /\ length (spawned s') = 1%nat.
Proof. vm_compute. split; reflexivity. Qed.

Section ReplyFacts.

Context `{Runtime}.

Lemma extractTextFromImage_soft (args : option json) (p e : string) (s : State) :
  key_ready s ->
  Js.opt_prop args "image_path" = Some (JStr p) -> p <> "" ->
  (forall key, checked_file key (abs p) s = (Throw e, s)) ->
  extractTextFromImage args s = (Ok (error_result e), s).
Proof.
  intros Hk Ha Hp Hc.
  destruct (extractTextFromImage_check_failed args p e s Ha Hp Hc)
    as (res & k & E & _ & Hr).
  destruct (Hr Hk) as [-> Hs]. now rewrite E, Hs.
Qed.

Lemma extractTextFromImage_remote (args : option json) (p data key : string) (s : State) :
  OPENAI_API_KEY s = Some key -> key <> "" -> isValid (validateApiKey key) = true ->
  Js.opt_prop args "image_path" = Some (JStr p) -> p <> "" ->
  valid_image s p data ->
  let request :=
    requestBody {| prep_key := key; prep_imagePath := abs p;
                   prep_imageBuffer := data; prep_mimeType := getMimeType (abs p) |} in
  extractTextFromImage args s
  = match on_close (abs p) (curl (length (spawned s)) request)
            (set_spawned (spawned s ++ [request]) s) with
    | (Ok (inl reason), s3) => (Throw reason, s3)
    | (Ok (inr res), s3) => (Ok res, s3)
    | (Throw e, s3) => (Throw e, s3)
    end.
Proof.
  intros Hkey Hne Hval Ha Hp Himg request.
  destruct (prepare_ok args p data s) as (key' & Hkey' & Eprep); try assumption.
  { exists key. repeat split; assumption. }
  rewrite Hkey in Hkey'. injection Hkey' as <-.
  now rewrite extractTextFromImage_unfold, Eprep.
Qed.

End ReplyFacts.

(** C1, amended. With an API key in place and a path string in the
    arguments, a failure of the checks made before the remote call
    (missing file, not a regular file, oversized file, disallowed
    extension, unreadable file) is caught inside the tool and answered by
    a successful reply whose result carries isError: true and one content
    block describing the error.  A transport failure of the remote call
    and an error payload of the service reject the promise of the tool,
    and the reply is the protocol-level error -32000.  A failure to save
    the text is answered by a successful reply without isError, whose
    second content block carries a warning. *)
Theorem C1_failure_replies `{Runtime}
    (id : option json) (params : json) (p : string) (s : State) :
  Js.prop params "name" = Some (JStr "extract_text_from_image") ->
  Js.opt_prop (Js.prop params "arguments") "image_path" = Some (JStr p) -> p <> "" ->
  key_ready s ->
  let soft e :=
    (Ok tt, set_stdout (stdout s ++ [JsonRpcSuccessResponse id
                                       (ToolResult (error_result e))]) s) in
  (fs s !! abs p = None ->
   handleCallTool id (Some params) s
   = soft ("File access error: File not found at path: " +:+ abs p))
  /\ (forall w entries,
        fs s !! abs p = Some (Dir w entries) ->
        handleCallTool id (Some params) s
        = soft ("File stats error: Not a file: " +:+ abs p))
  /\ (forall size r w data,
        fs s !! abs p = Some (File size r w data) -> MAX_FILE_SIZE < size ->
        handleCallTool id (Some params) s
        = soft ("File stats error: File too large: " +:+ toFixed2_MB size
                +:+ "MB (max: 5MB)"))
  /\ (forall size r w data,
        fs s !! abs p = Some (File size r w data) -> size <= MAX_FILE_SIZE ->
        includes ALLOWED_EXTENSIONS (Str.toLowerCase (Path.extname (abs p))) = false ->
        handleCallTool id (Some params) s
        = soft ("Invalid file type: " +:+ Str.toLowerCase (Path.extname (abs p))
                +:+ ". Allowed types: .jpg, .jpeg, .png, .gif, .webp"))
  /\ (forall size w data,
        fs s !! abs p = Some (File size false w data) -> size <= MAX_FILE_SIZE ->
        includes ALLOWED_EXTENSIONS (Str.toLowerCase (Path.extname (abs p))) = true ->
        handleCallTool id (Some params) s
        = soft ("File read error: EACCES: permission denied, open '" +:+ abs p +:+ "'"))
  /\ (forall data key,
        valid_image s p data -> OPENAI_API_KEY s = Some key ->
        let request :=
          requestBody {| prep_key := key; prep_imagePath := abs p;
                         prep_imageBuffer := data;
                         prep_mimeType := getMimeType (abs p) |} in
        let exit := curl (length (spawned s)) request in
        let s0 := set_spawned (spawned s ++ [request]) s in
        let hard e :=
          (Ok tt, set_stdout (stdout s ++ [JsonRpcErrorResponse (id_or_error id) (-32000)
                                             ("Error executing tool: " +:+ e)]) s0) in
        (exit_code exit <> 0 ->
         handleCallTool id (Some params) s
         = hard ("curl process exited with code " +:+ Str.of_Z (exit_code exit)
                 +:+ ": " +:+ errorOutput exit))
        /\ (forall resp,
              exit_code exit = 0 ->
              JSON_parse (responseData exit) = inr resp ->
              Js.truthy (Js.prop resp "error") = true ->
              handleCallTool id (Some params) s
              = hard ("OpenAI API error: "
                      +:+ Js.display (Js.opt_prop (Js.prop resp "error") "message")))
        /\ (forall resp choice others message text,
              exit_code exit = 0 ->
              JSON_parse (responseData exit) = inr resp ->
              Js.truthy (Js.prop resp "error") = false ->
              Js.prop resp "choices" = Some (JArr (choice :: others)) ->
              Js.prop choice "message" = Some message ->
              Js.prop message "content" = Some (JStr text) -> text <> "" ->
              let extractedText := extractedText_of text in
              ~ writable_target (fs s) (abs (txtPath_of (abs p) extractedText)) ->
              exists e,
                handleCallTool id (Some params) s
                = (Ok tt,
                   set_stdout
                     (stdout s ++
                      [JsonRpcSuccessResponse id
                         (ToolResult
                            {| content :=
                                 [text_item extractedText;
                                  text_item (nl +:+ nl
                                             +:+ "Warning: Failed to save text file: "
                                             +:+ "Failed to save text file: " +:+ e)];
                               isError := None |})])
                     (record_ocr extractedText (abs p) s0)))).
Proof.
  intros Hn Ha Hp Hk soft.
  assert (Hsoft : forall e,
             (forall key, checked_file key (abs p) s = (Throw e, s)) ->
             handleCallTool id (Some params) s = soft e).
  { intros e Hc. rewrite (handleCallTool_extract id params s Hn).
    now rewrite (extractTextFromImage_soft _ p e s Hk Ha Hp Hc). }
  split; [intros Hf; apply Hsoft; intros key; now apply checked_file_missing |].
  split; [intros w entries Hf; apply Hsoft; intros key;
          now apply (checked_file_directory key p s w entries) |].
  split; [intros size r w data Hf Hs; apply Hsoft; intros key;
          now apply (checked_file_too_large key p s size r w data) |].
  split.
  { intros size r w data Hf Hs He. apply Hsoft. intros key.
    rewrite (checked_file_sized key p s size r w data Hf Hs). cbv zeta.
    now rewrite He. }
  split.
  { intros size w data Hf Hs He. apply Hsoft. intros key.
    rewrite (checked_file_sized key p s size false w data Hf Hs). cbv zeta.
    now rewrite He. }
  intros data key Himg Hkey request exit s0 hard.
  destruct Hk as (key' & Hkey' & Hne & Hval).
  rewrite Hkey in Hkey'. injection Hkey' as <-.
  assert (Hrun := extractTextFromImage_remote _ p data key s Hkey Hne Hval Ha Hp Himg).
  cbv zeta in Hrun. fold request in Hrun. fold exit in Hrun. fold s0 in Hrun.
  rewrite (handleCallTool_extract id params s Hn), Hrun.
  split; [| split].
  - intros Hc. now rewrite (on_close_exit (abs p) exit s0 Hc).
  - intros resp Hc Hparse Herr.
    now rewrite (on_close_error_payload (abs p) exit s0 resp Hc Hparse Herr).
  - intros resp choice others message text Hc Hparse Herr Hch Hmsg Htext Htne
           extractedText Hw.
    destruct (prop_some_object _ _ _ Hch) as [fields Hresp].
    assert (Hnn : resp <> JNull) by (rewrite Hresp; discriminate).
    pose proof (fullResponse_of_text resp choice message others text s0
                  Hch Hmsg Htext Htne) as Hf.
    rewrite (on_close_text (abs p) exit s0 resp text Hc Hparse Hnn Herr Hf). cbv zeta.
    fold extractedText.
    destruct (saveExtractedText_refused (abs p) extractedText
                (record_ocr extractedText (abs p) s0) Hw) as (e & E).
    rewrite E. exists e. reflexivity.
Qed.

(** C1, amended, in the scan directory: a missing file gets a soft
    error, an unreachable service gets error -32000. *)
Lemma C1_failure_replies_witness :
  let rt := Demo.runtime [] Demo.unreachable in
  let s := @startup rt Demo.scans in
  let call p :=
    JObj [("name", JStr "extract_text_from_image");
          ("arguments", JObj [("image_path", JStr p)])] in
  stdout (snd (@handleCallTool rt (Some (JNum 7)) (Some (call "/scans/missing.png")) s))
  = [JsonRpcSuccessResponse (Some (JNum 7))
       (ToolResult (error_result
          "File access error: File not found at path: /scans/missing.png"))]
  /\ stdout (snd (@handleCallTool rt (Some (JNum 8)) (Some (call "/scans/invoice.png")) s))
     = [JsonRpcErrorResponse (JNum 8) (-32000)
          ("Error executing tool: curl process exited with code 6: "
           +:+ "curl: (6) Could not resolve host: api.openai.com")].
Proof.
  intros rt s call.
  assert (Hk : @key_ready s).
  { exists Demo.key. split; [reflexivity |]. split; [discriminate | reflexivity]. }
  split.
  - destruct (@C1_failure_replies rt (Some (JNum 7)) (call "/scans/missing.png")
                "/scans/missing.png" s eq_refl eq_refl)
      as (Hmissing & _); [discriminate | exact Hk |].
    rewrite Hmissing by reflexivity. reflexivity.
  - destruct (@C1_failure_replies rt (Some (JNum 8)) (call "/scans/invoice.png")
                "/scans/invoice.png" s eq_refl eq_refl)
      as (_ & _ & _ & _ & _ & Hremote); [discriminate | exact Hk |].
    destruct (Hremote "(image bytes)" Demo.key) as (Hexit & _).
    + exists 2048, true. split; [reflexivity |]. split; [discriminate | reflexivity].
    + reflexivity.
    + rewrite Hexit by discriminate. reflexivity.
Defined.

(* ===================================================================== *)
(** * Analysis notifications *)
(* ===================================================================== *)

Section NotificationFacts.

Context `{Runtime}.






End NotificationFacts.




(* ===================================================================== *)
(** * The dispatcher *)
(* ===================================================================== *)

Section DispatcherFacts.

Context `{Runtime}.

(** The listener of a line never throws: whatever goes wrong inside is
    caught and answered. *)
Lemma onLine_total (line : string) (s : State) :
  exists s', onLine line s = (Ok tt, s').
Proof.
  unfold onLine, try_catch.
  match goal with
  | |- context [match ?m s with _ => _ end] => destruct (m s) as [[[] | e] s']
  end; eexists; reflexivity.
Qed.

Lemma main_total (lines : list string) (s : State) :
  exists s', main lines s = (Ok tt, s').
Proof.
  revert s. induction lines as [|line rest IH]; intros s.
  - exists s. reflexivity.
  - destruct (onLine_total line s) as [s1 E]. destruct (IH s1) as [s2 E2].
    exists s2. simpl. unfold bind. now rewrite E.
Qed.

Lemma onLine_parse_error (line e : string) (s : State) :
  JSON_parse line = inl e ->
  onLine line s
  = (Ok tt, set_stdout (stdout s ++ [JsonRpcErrorResponse (JStr "error") (-32700)
                                       ("Parse error or internal error: " +:+ e)]) s).
Proof. intros Hp. unfold onLine. unfold_monad. now rewrite Hp. Qed.

(** A line that parses but carries no method string is answered the same
    way: looking for the prefix of the method throws. *)
Lemma onLine_no_method (line : string) (v : json) (s : State) :
  JSON_parse line = inr v ->
  (forall m, Js.prop v "method" <> Some (JStr m)) ->
  exists e,
    onLine line s
    = (Ok tt, set_stdout (stdout s ++ [JsonRpcErrorResponse (JStr "error") (-32700)
                                         ("Parse error or internal error: " +:+ e)]) s).
Proof.
  intros Hp Hm. unfold onLine. unfold_monad. rewrite Hp.
  destruct v; try (eexists; reflexivity);
    unfold processRequest; unfold_monad;
    destruct (Js.prop _ "method") as [[| | | m | |] |] eqn:E;
    try (eexists; reflexivity); now destruct (Hm m).
Qed.

End DispatcherFacts.

(** C4, as stated, at a malformed line: the one reply has code -32700,
    and its id is the string "error", not null. *)
Lemma C4_counterexample :
  let rt := Demo.runtime [] Demo.unreachable in
  let s := @startup rt Demo.scans in
  @JSON_parse rt "{oops" = inl "Unexpected token in JSON at position 1"
  /\ stdout (snd (@onLine rt "{oops" s))
     = [JsonRpcErrorResponse (JStr "error") (-32700)
          "Parse error or internal error: Unexpected token in JSON at position 1"]
  /\ JStr "error" <> JNull.
Proof. split; [reflexivity |]. split; [reflexivity | discriminate]. Qed.

(** C4, amended. For every input line that fails to parse, the
    dispatcher writes exactly one error reply, with code -32700 and with
    the string "error" as its id, changes nothing else, and goes on with
    the lines that follow; no input makes the dispatcher throw. *)
Theorem C4_parse_error `{Runtime} (line e : string) (rest : list string) (s : State) :
  JSON_parse line = inl e ->
  let reply :=
    JsonRpcErrorResponse (JStr "error") (-32700)
      ("Parse error or internal error: " +:+ e) in
  onLine line s = (Ok tt, set_stdout (stdout s ++ [reply]) s)
  /\ main (line :: rest) s = main rest (set_stdout (stdout s ++ [reply]) s)
  /\ id_or_error None = JStr "error"
  /\ (forall lines s0, exists s1, main lines s0 = (Ok tt, s1)).
Proof.
  intros Hp reply.
  pose proof (onLine_parse_error line e s Hp) as E. fold reply in E.
  split; [exact E |]. split; [| split; [reflexivity | apply main_total]].
  simpl. unfold bind. now rewrite E.
Qed.

(** C4, amended, at a malformed line followed by a well-formed one. *)
Lemma C4_parse_error_witness :
  let ping := JObj [("jsonrpc", JStr "2.0"); ("id", JNum 2); ("method", JStr "ping")] in
  let rt := Demo.runtime [ping] Demo.unreachable in
  let s := @startup rt Demo.scans in
  stdout (snd (@main rt ["{oops"; Demo.stringify ping] s))
  = [JsonRpcErrorResponse (JStr "error") (-32700)
       "Parse error or internal error: Unexpected token in JSON at position 1";
     JsonRpcErrorResponse (JNum 2) (-32601) "Method not supported: ping"].
Proof.
  intros ping rt s.
  destruct (@C4_parse_error rt "{oops" "Unexpected token in JSON at position 1"
              [Demo.stringify ping] s eq_refl) as (_ & Hmain & _).
  rewrite Hmain. reflexivity.
Defined.

(* ===================================================================== *)
(** * The shapes of a tools/call request *)
(* ===================================================================== *)

(** C2 on the code. A bare string resolves to the extraction tool with
    that string as image_path and the tool is run on it; an unrecognised
    shape gets error -32602.  The shape [{name: "append_analysis",
    arguments: {text_file_path, analysis}}] resolves to the tool name
    without an image path and [handleToolsCall] answers error -32602 as
    well, while [handleCallTool] runs the append tool on the same
    parameters. *)
Theorem C2_tools_call_shapes `{Runtime} (id : option json) (s : State) :
  let append :=
    JObj [("name", JStr "append_analysis");
          ("arguments", JObj [("text_file_path", JStr "x.txt");
                              ("analysis", JStr "note")])] in
  let unknown := JObj [("foo", JNum 1)] in
  let invalid message :=
    (Ok tt, set_stdout (stdout s ++ [JsonRpcErrorResponse (id_or_error id) (-32602)
                                       message]) s) in
  normalize_call (Some (JStr "photo.jpg"))
  = (Some (JStr "extract_text_from_image"), Some (JStr "photo.jpg"))
  /\ toolParams (Some (JStr "photo.jpg")) = Some (JObj [("image_path", JStr "photo.jpg")])
  /\ handleToolsCall id (Some (JStr "photo.jpg")) s
     = try_catch
         (res <- extractTextFromImage (Some (JObj [("image_path", JStr "photo.jpg")])) ;;
          sendResponse id (ToolResult res))
         (fun e => sendError id (-32000) ("Error executing tool: " +:+ e)) s
  /\ normalize_call (Some unknown) = (None, None)
  /\ handleToolsCall id (Some unknown) s
     = invalid ("Invalid params: tool name could not be determined from params: "
                +:+ JSON_stringify unknown)
  /\ normalize_call (Some append) = (Some (JStr "append_analysis"), None)
  /\ handleToolsCall id (Some append) s
     = invalid ("Invalid params: Please provide a path to a local image file "
                +:+ "as a simple string parameter")
  /\ handleCallTool id (Some append) s
     = try_catch
         (res <- handleAppendAnalysis (append_args "x.txt" "note") ;;
          sendResponse id (ToolResult res))
         (fun e => sendError id (-32000) ("Error executing tool: " +:+ e)) s.
Proof. repeat split; reflexivity. Qed.
(* ===================================================================== *)
(** * The API key *)
(* ===================================================================== *)

Module KeyFacts.







Lemma rev_nil (s : string) : Str.rev s = "" -> s = "".
Proof.
  intros E. apply (f_equal String.length) in E.
  rewrite StrFacts.rev_length in E. now destruct s.
Qed.



End KeyFacts.



Section KeyDiscovery.

Context `{Runtime}.

Lemma usable_dec (v : string) :
  (negb (String.eqb v "") && negb (String.eqb v "your-api-key-here"))%bool = true
  /\ isValid (validateApiKey (Js.trim v)) = true <-> usable v.
Proof.
  unfold usable. rewrite andb_true_iff, !negb_true_iff, !String.eqb_neq. tauto.
Qed.

Lemma getOpenAIApiKey_loop_some (names : list string) (key : string) :
  getOpenAIApiKey_loop names = Some key ->
  exists pre envVar post v,
    names = pre ++ envVar :: post
    /\ process_env envVar = Some v /\ usable v /\ key = Js.trim v
    /\ forall n v', In n pre -> process_env n = Some v' -> ~ usable v'.
Proof.
  induction names as [|n names IH]; simpl; [discriminate |].
  assert (Hskip : (forall v', process_env n = Some v' -> ~ usable v') ->
                  getOpenAIApiKey_loop names = Some key ->
                  exists pre envVar post v,
                    n :: names = pre ++ envVar :: post
                    /\ process_env envVar = Some v /\ usable v /\ key = Js.trim v
                    /\ forall n' v', In n' pre -> process_env n' = Some v' -> ~ usable v').
  { intros Hn E. destruct (IH E) as (pre & envVar & post & v & -> & Hv & Hu & Hk & Hpre).
    exists (n :: pre), envVar, post, v.
    split; [reflexivity |]. do 3 (split; [assumption |]).
    intros n' v' [<- | Hin]; [apply Hn | now apply Hpre]. }
  destruct (process_env n) as [v|] eqn:En; [| apply Hskip; discriminate].
  destruct (negb (String.eqb v "") && negb (String.eqb v "your-api-key-here"))%bool eqn:Ev.
  - destruct (isValid (validateApiKey (Js.trim v))) eqn:Eval.
    + intros [= <-]. exists [], n, names, v.
      split; [reflexivity |]. split; [assumption |].
      split; [now apply usable_dec |]. split; [reflexivity |].
      intros ? ? [].
    + apply Hskip. intros v' [= <-] Hu. apply usable_dec in Hu as [_ Hu]. congruence.
  - apply Hskip. intros v' [= <-] Hu. apply usable_dec in Hu as [Hu _]. congruence.
Qed.


Lemma getOpenAIApiKey_sound (key : string) :
  getOpenAIApiKey = Some key -> key <> "" /\ isValid (validateApiKey key) = true.
Proof.
  intros E. destruct (getOpenAIApiKey_loop_some _ _ E) as (_ & _ & _ & v & _ & _ & Hu & -> & _).
  destruct Hu as (_ & _ & Hv). split; [| exact Hv].
  intros E0. rewrite E0 in Hv. discriminate.
Qed.

End KeyDiscovery.



(* ===================================================================== *)
(** * What a run leaves in place *)
(* ===================================================================== *)

Section StepsFacts.

Variable R : State -> State -> Prop.
Hypothesis R_refl : forall s, R s s.
Hypothesis R_trans : forall s1 s2 s3, R s1 s2 -> R s2 s3 -> R s1 s3.

Lemma steps_ret {A} (a : A) : steps R (ret a).
Proof. intros s. apply R_refl. Qed.

Lemma steps_throw {A} (e : string) : steps R (@throw A e).
Proof. intros s. apply R_refl. Qed.

Lemma steps_gets {A} (f : State -> A) : steps R (gets f).
Proof. intros s. apply R_refl. Qed.

Lemma steps_lift {A} (o : outcome A) : steps R (lift o).
Proof. intros s. apply R_refl. Qed.

Lemma steps_pure {A} (m : M A) : pure m -> steps R m.
Proof. intros Hm s. rewrite Hm. apply R_refl. Qed.

Lemma steps_bind {A B} (m : M A) (k : A -> M B) :
  steps R m -> (forall a, steps R (k a)) -> steps R (bind m k).
Proof.
  intros Hm Hk s. unfold bind. specialize (Hm s).
  destruct (m s) as [[a | e] s']; simpl in *; [| exact Hm].
  exact (R_trans _ _ _ Hm (Hk a s')).
Qed.

Lemma steps_try_catch {A} (m : M A) (h : string -> M A) :
  steps R m -> (forall e, steps R (h e)) -> steps R (try_catch m h).
Proof.
  intros Hm Hh s. unfold try_catch. specialize (Hm s).
  destruct (m s) as [[a | e] s']; simpl in *; [exact Hm |].
  exact (R_trans _ _ _ Hm (Hh e s')).
Qed.

Lemma steps_modify (f : State -> State) :
  (forall s, R s (f s)) -> steps R (modify f).
Proof. intros Hf s. apply Hf. Qed.

End StepsFacts.

(** Takes a computation apart along its binds, handlers and case
    distinctions; [leaf] closes what is left.  [refl] and [trans] are
    the proofs that the relation is a preorder. *)
Ltac steps_with refl trans leaf :=
  repeat first
    [ leaf
    | apply (steps_ret _ refl) | apply (steps_throw _ refl)
    | apply (steps_gets _ refl) | apply (steps_lift _ refl)
    | apply (steps_bind _ trans) | apply (steps_try_catch _ trans)
    | match goal with |- forall _, _ => intro end
    | progress cbv beta
    | match goal with
      | |- steps _ (if ?c then _ else _) => destruct c eqn:?
      | |- steps _ (let '(_, _) := ?x in _) => destruct x eqn:?
      | |- steps _ ?m =>
          match m with
          | context [match ?x with _ => _ end] => destruct x eqn:?
          end
      end ].

Module SafeFacts.

Lemma grows_refl {A} (l : list A) : grows l l.
Proof. exists []. now rewrite app_nil_r. Qed.

Lemma grows_trans {A} (l1 l2 l3 : list A) : grows l1 l2 -> grows l2 l3 -> grows l1 l3.
Proof. intros [m1 ->] [m2 ->]. exists (m1 ++ m2). now rewrite app_assoc. Qed.

Lemma grows_snoc {A} (l : list A) (x : A) : grows l (l ++ [x]).
Proof. now exists [x]. Qed.

Lemma fs_safe_refl (files : gmap string node) : fs_safe files files.
Proof.
  intros q. destruct (files !! q) as [[size r w data | w entries] |] eqn:E.
  - exists size, data. now split.
  - exists []. now rewrite app_nil_r.
  - intros nd Hn. discriminate.
Qed.

Lemma fs_safe_trans (f1 f2 f3 : gmap string node) :
  fs_safe f1 f2 -> fs_safe f2 f3 -> fs_safe f1 f3.
Proof.
  intros H12 H23 q. specialize (H12 q). specialize (H23 q).
  destruct (f1 !! q) as [[size r w data | w entries] |] eqn:E1.
  - destruct H12 as (size2 & data2 & E2 & Hk2). rewrite E2 in H23.
    destruct H23 as (size3 & data3 & E3 & Hk3).
    exists size3, data3. split; [exact E3 |].
    intros Hq. destruct (Hk2 Hq) as [<- <-]. now apply Hk3.
  - destruct H12 as (more2 & E2). rewrite E2 in H23.
    destruct H23 as (more3 & E3). exists (more2 ++ more3).
    now rewrite E3, app_assoc.
  - intros nd E3. destruct (f2 !! q) as [nd2|] eqn:E2.
    + destruct (H12 nd2 eq_refl) as (Hq & size & data & ->).
      split; [exact Hq |]. destruct H23 as (size3 & data3 & E3' & _).
      rewrite E3' in E3. injection E3 as <-. eauto.
    + now apply H23.
Qed.

Lemma safe_step_refl (s : State) : safe_step s s.
Proof.
  split; [auto |]. split; [apply fs_safe_refl |].
  split; [apply grows_refl |]. split; [lia |].
  split; apply grows_refl.
Qed.

Lemma safe_step_trans (s1 s2 s3 : State) :
  safe_step s1 s2 -> safe_step s2 s3 -> safe_step s1 s3.
Proof.
  intros (K1 & F1 & S1 & C1 & L1 & O1) (K2 & F2 & S2 & C2 & L2 & O2).
  split; [auto |]. split; [exact (fs_safe_trans _ _ _ F1 F2) |].
  split; [exact (grows_trans _ _ _ S1 S2) |]. split; [lia |].
  split; [exact (grows_trans _ _ _ L1 L2) | exact (grows_trans _ _ _ O1 O2)].
Qed.

(** Writing to a name that ends in [.txt], over a file that may be
    written or at a free name in a directory that may be written, is
    safe. *)
Lemma fs_safe_write (files : gmap string node) (p text' : string) size r data :
  files !! p = Some (File size r true data) ->
  Str.endsWith p ".txt" = true ->
  forall size', fs_safe files (<[p := File size' r true text']> files).
Proof.
  intros Hp Ht size' q. destruct (decide (q = p)) as [-> | Hq].
  - rewrite Hp. exists size', text'. split; [apply lookup_insert_eq |].
    intros Hn. congruence.
  - rewrite lookup_insert_ne by congruence. exact (fs_safe_refl files q).
Qed.

Lemma fs_safe_create (files : gmap string node) (p parent name text' : string) entries :
  files !! p = None ->
  files !! parent = Some (Dir true entries) ->
  Str.endsWith p ".txt" = true ->
  forall size',
    fs_safe files (<[p := File size' true true text']>
                     (<[parent := Dir true (entries ++ [name])]> files)).
Proof.
  intros Hp Hd Ht size' q. destruct (decide (q = p)) as [-> | Hq].
  - rewrite Hp. intros nd. rewrite lookup_insert_eq. intros [= <-]. eauto.
  - rewrite lookup_insert_ne by congruence.
    destruct (decide (q = parent)) as [-> | Hq'].
    + rewrite Hd, lookup_insert_eq. eauto.
    + rewrite lookup_insert_ne by congruence. exact (fs_safe_refl files q).
Qed.

End SafeFacts.

Module TxtFacts.

Lemma split_acc_slash (X cur : string) :
  Path.split_acc (X +:+ "/") cur = Path.split_acc X cur ++ [""%string].
Proof.
  revert cur. induction X as [|x X IH]; intros cur; [reflexivity |].
  rewrite StrFacts.app_cons. simpl.
  destruct (Path.is_sep x); [now rewrite IH | apply IH].
Qed.

(** An empty last segment is dropped. *)
Lemma normalize_acc_drop_empty (allow : bool) (pre res : list string) :
  Path.normalize_acc allow (pre ++ [""%string]) res = Path.normalize_acc allow pre res.
Proof.
  revert res. induction pre as [|p pre IH]; intros res; simpl; [reflexivity |].
  destruct (String.eqb p "" || String.eqb p ".")%bool; [apply IH |].
  destruct (String.eqb p ".."); [| apply IH].
  destruct res as [|top below]; [apply IH |].
  destruct (String.eqb top ".."); apply IH.
Qed.

Lemma endsWith_txt_app (a : string) : Str.endsWith (a +:+ ".txt") ".txt" = true.
Proof. apply StrFacts.endsWith_app. Qed.

Lemma normalizeString_txt_slash (Z : string) (allow : bool) :
  exists P, Path.normalizeString ((Z +:+ ".txt") +:+ "/") allow = P +:+ ".txt".
Proof.
  destruct (PathFacts.split_acc_app Z EmptyString) as (pre & l & _ & E2).
  assert (Hord : ordinary (l +:+ ".txt")).
  { apply PathFacts.long_ordinary. rewrite StrFacts.app_length. simpl. lia. }
  exists (joined_prefix (Path.normalize_acc allow pre []) +:+ l).
  unfold Path.normalizeString, Path.segments.
  rewrite split_acc_slash, (E2 ".txt" eq_refl), normalize_acc_drop_empty.
  rewrite (PathFacts.normalize_acc_snoc _ _ _ _ Hord), PathFacts.join_snoc.
  now rewrite StrFacts.app_assoc.
Qed.

(** Resolving, normalising and joining keep a [.txt] ending. *)
Lemma resolve_txt (cwd p : string) :
  Str.endsWith p ".txt" = true -> Str.endsWith (Path.resolve cwd p) ".txt" = true.
Proof.
  intros Hp. destruct (StrFacts.endsWith_split _ _ Hp) as [Y ->].
  unfold Path.resolve.
  rewrite PathFacts.eqb_app_nonempty by (simpl; lia).
  destruct (Path.isAbsolute (Y +:+ ".txt")).
  - destruct (normalizeString_txt_slash Y false) as [P ->].
    rewrite <- StrFacts.app_assoc. apply endsWith_txt_app.
  - replace (cwd +:+ "/" +:+ (Y +:+ ".txt") +:+ "/")
      with (((cwd +:+ "/" +:+ Y) +:+ ".txt") +:+ "/")
      by now rewrite !StrFacts.app_assoc.
    destruct (normalizeString_txt_slash (cwd +:+ "/" +:+ Y) false) as [P ->].
    rewrite <- StrFacts.app_assoc. apply endsWith_txt_app.
Qed.

Lemma normalize_txt (X : string) :
  Str.endsWith X ".txt" = true -> Str.endsWith (Path.normalize X) ".txt" = true.
Proof.
  intros HX. destruct (StrFacts.endsWith_split _ _ HX) as [Y ->].
  destruct Y as [|y Y]; [reflexivity |].
  destruct (PathFacts.normalize_hashed (String y Y)) as [P HP]; [discriminate |].
  specialize (HP "" eq_refl).
  change ("" +:+ ".txt") with ".txt" in HP. rewrite HP. apply endsWith_txt_app.
Qed.

Lemma join_txt (a f : string) :
  Str.endsWith f ".txt" = true -> Str.endsWith (Path.join a f) ".txt" = true.
Proof.
  intros Hf. destruct (StrFacts.endsWith_split _ _ Hf) as [Y ->].
  unfold Path.join.
  rewrite (PathFacts.eqb_app_nonempty Y ".txt") by (simpl; lia).
  destruct (String.eqb a ""); apply normalize_txt.
  - apply endsWith_txt_app.
  - rewrite <- !StrFacts.app_assoc. apply endsWith_txt_app.
Qed.

Lemma txtPath_of_txt (imagePath text : string) :
  Str.endsWith (txtPath_of imagePath text) ".txt" = true.
Proof.
  unfold txtPath_of. apply join_txt.
  rewrite <- !StrFacts.app_assoc. apply endsWith_txt_app.
Qed.

Lemma last_filter_In {A} (keep : A -> bool) (l : list A) (x : A) :
  list.last (List.filter keep l) = Some x -> In x l /\ keep x = true.
Proof.
  intros E. apply last_Some in E as [l' E].
  apply filter_In. rewrite E. apply in_or_app. right. now left.
Qed.

End TxtFacts.

Section SafeRun.

Context `{Runtime}.

Lemma abs_txt (p : string) :
  Str.endsWith p ".txt" = true -> Str.endsWith (abs p) ".txt" = true.
Proof. apply TxtFacts.resolve_txt. Qed.

(** Closes [safe_step s s'] when [s'] differs from [s] in parts the
    relation does not read. *)
Ltac safe_frame :=
  split; [intros Hk; exact Hk |]; split; [apply SafeFacts.fs_safe_refl |];
  split; [apply SafeFacts.grows_refl |]; split; [simpl; lia |];
  split; apply SafeFacts.grows_refl.

Lemma safe_now : steps safe_step now.
Proof.
  intros s. unfold now. simpl.
  split; [auto |]. split; [apply SafeFacts.fs_safe_refl |].
  split; [apply SafeFacts.grows_refl |]. split; [simpl; lia |].
  split; apply SafeFacts.grows_refl.
Qed.

Lemma safe_write_stdout (r : JsonRpcResponse) : steps safe_step (write_stdout r).
Proof.
  intros s. unfold write_stdout, modify. simpl.
  split; [auto |]. split; [apply SafeFacts.fs_safe_refl |].
  split; [apply SafeFacts.grows_refl |]. split; [simpl; lia |].
  split; [apply SafeFacts.grows_refl | apply SafeFacts.grows_snoc].
Qed.

Lemma safe_spawn_curl (req : OpenAIRequest) : steps safe_step (spawn_curl req).
Proof.
  intros s. unfold spawn_curl. simpl.
  split; [auto |]. split; [apply SafeFacts.fs_safe_refl |].
  split; [apply SafeFacts.grows_snoc |]. split; [simpl; lia |].
  split; apply SafeFacts.grows_refl.
Qed.

Lemma safe_set_api_key : steps safe_step (modify (set_api_key getOpenAIApiKey)).
Proof.
  intros s. unfold modify. simpl.
  split; [intros _ key E; now apply getOpenAIApiKey_sound |].
  split; [apply SafeFacts.fs_safe_refl |].
  split; [apply SafeFacts.grows_refl |]. split; [simpl; lia |].
  split; apply SafeFacts.grows_refl.
Qed.

Lemma safe_record_ocr (text imagePath : string) :
  steps safe_step (modify (record_ocr text imagePath)).
Proof. intros s. unfold modify. simpl. safe_frame. Qed.

Lemma safe_push_llmResponse (r : LlmResponse) :
  steps safe_step (modify (push_llmResponse r)).
Proof.
  intros s. unfold modify. simpl.
  split; [auto |]. split; [apply SafeFacts.fs_safe_refl |].
  split; [apply SafeFacts.grows_refl |]. split; [simpl; lia |].
  split; [apply SafeFacts.grows_snoc | apply SafeFacts.grows_refl].
Qed.

Lemma safe_remember_image_path (v : option json) :
  steps safe_step (modify (remember_image_path v)).
Proof.
  intros s. unfold modify, remember_image_path. simpl.
  destruct (Js.truthy v); safe_frame.
Qed.

Lemma safe_set_clientInfo (c : option json) :
  steps safe_step (modify (set_clientInfo c)).
Proof. intros s. unfold modify. simpl. safe_frame. Qed.

Lemma safe_set_fs (files' : gmap string node) (s : State) :
  fs_safe (fs s) files' -> safe_step s (set_fs files' s).
Proof.
  intros Hf. split; [auto |]. split; [exact Hf |].
  split; [apply SafeFacts.grows_refl |]. split; [simpl; lia |].
  split; apply SafeFacts.grows_refl.
Qed.

Lemma safe_writeFileSync (p text : string) :
  Str.endsWith (abs p) ".txt" = true -> steps safe_step (writeFileSync p text).
Proof.
  intros Ht s. unfold writeFileSync, create_file. unfold_monad.
  destruct (fs s !! abs p) as [[size r [|] data | w entries] |] eqn:Ep;
    try apply SafeFacts.safe_step_refl.
  - apply safe_set_fs. now apply (SafeFacts.fs_safe_write _ _ _ size r data).
  - destruct (fs s !! Path.dirname (abs p)) as [[? ? ? ? | [|] entries] |] eqn:Ed;
      try apply SafeFacts.safe_step_refl.
    apply safe_set_fs. now apply SafeFacts.fs_safe_create.
Qed.

Lemma safe_appendFileSync (p text : string) :
  Str.endsWith (abs p) ".txt" = true -> steps safe_step (appendFileSync p text).
Proof.
  intros Ht s. unfold appendFileSync, create_file. unfold_monad.
  destruct (fs s !! abs p) as [[size r [|] data | w entries] |] eqn:Ep;
    try apply SafeFacts.safe_step_refl.
  - apply safe_set_fs. now apply (SafeFacts.fs_safe_write _ _ _ size r data).
  - destruct (fs s !! Path.dirname (abs p)) as [[? ? ? ? | [|] entries] |] eqn:Ed;
      try apply SafeFacts.safe_step_refl.
    apply safe_set_fs. now apply SafeFacts.fs_safe_create.
Qed.

Ltac safe_leaf :=
  first
    [ apply safe_now | apply safe_write_stdout | apply safe_spawn_curl
    | apply safe_set_api_key | apply safe_record_ocr | apply safe_push_llmResponse
    | apply safe_remember_image_path | apply safe_set_clientInfo
    | apply (steps_pure _ SafeFacts.safe_step_refl);
      first [ apply pure_existsSync | apply pure_statSync | apply pure_readFileSync
            | apply pure_readdirSync | apply pure_path_argument
            | apply pure_checked_image | apply pure_member | apply pure_first_item
            | apply pure_fullResponse_of ] ].

Ltac safe_steps leaf :=
  steps_with SafeFacts.safe_step_refl SafeFacts.safe_step_trans ltac:(first [leaf | safe_leaf]).

Lemma safe_handleAppendAnalysis (args : option json) :
  steps safe_step (handleAppendAnalysis args).
Proof.
  unfold handleAppendAnalysis, existsSync_any. cbv zeta.
  safe_steps ltac:(apply safe_appendFileSync; apply abs_txt;
                   match goal with
                   | E : negb (Str.endsWith _ ".txt") = false |- _ =>
                       apply negb_false_iff in E; exact E
                   end).
Qed.

Lemma safe_saveExtractedText (imagePath text : string) :
  steps safe_step (saveExtractedText imagePath text).
Proof.
  unfold saveExtractedText. cbv zeta.
  safe_steps ltac:(apply safe_writeFileSync; apply abs_txt; apply TxtFacts.txtPath_of_txt).
Qed.

Lemma safe_appendLlmResponseToFile (txtPath : string) (response : option json) :
  Str.endsWith txtPath ".txt" = true ->
  steps safe_step (appendLlmResponseToFile txtPath response).
Proof.
  intros Ht. unfold appendLlmResponseToFile. cbv zeta.
  safe_steps ltac:(apply safe_appendFileSync; apply abs_txt; exact Ht).
Qed.

Lemma safe_logLlmResponse (response : option json) :
  steps safe_step (logLlmResponse response).
Proof.
  unfold logLlmResponse. cbv zeta.
  safe_steps ltac:(apply safe_appendLlmResponseToFile; apply TxtFacts.join_txt;
                   match goal with
                   | E : list.last (List.filter (matches _) _) = Some _ |- _ =>
                       apply TxtFacts.last_filter_In in E as [_ E];
                       apply andb_true_iff in E as [_ E]; exact E
                   end).
Qed.

Lemma safe_handleNotification (method : string) (params : option json) :
  steps safe_step (handleNotification method params).
Proof.
  unfold handleNotification. cbv zeta.
  safe_steps ltac:(first [apply safe_logLlmResponse | apply safe_handleAppendAnalysis]).
Qed.

Lemma safe_on_close (imagePath : string) (exit : CurlExit) :
  steps safe_step (on_close imagePath exit).
Proof.
  unfold on_close. cbv zeta.
  safe_steps ltac:(first [apply safe_saveExtractedText | apply safe_handleAppendAnalysis]).
Qed.

Lemma safe_extractTextFromImage (args : option json) :
  steps safe_step (extractTextFromImage args).
Proof.
  unfold extractTextFromImage, prepare, ensure_api_key. cbv zeta.
  safe_steps ltac:(apply safe_on_close).
Qed.

Lemma safe_handleCallTool (id params : option json) :
  steps safe_step (handleCallTool id params).
Proof.
  unfold handleCallTool, sendResponse, sendError. cbv zeta.
  safe_steps ltac:(first [apply safe_extractTextFromImage | apply safe_handleAppendAnalysis]).
Qed.

Lemma safe_handleToolsCall (id params : option json) :
  steps safe_step (handleToolsCall id params).
Proof.
  unfold handleToolsCall, sendResponse, sendError. cbv zeta.
  safe_steps ltac:(apply safe_extractTextFromImage).
Qed.

Lemma safe_processRequest (request : json) : steps safe_step (processRequest request).
Proof.
  unfold processRequest, method_startsWith, handleInitialize, handleListOfferings,
    handleToolsList, sendResponse, sendError.
  cbv zeta.
  safe_steps ltac:(first [ apply safe_logLlmResponse | apply safe_handleNotification
                         | apply safe_handleCallTool | apply safe_handleToolsCall ]).
Qed.

Lemma safe_onLine (line : string) : steps safe_step (onLine line).
Proof.
  unfold onLine, sendError.
  safe_steps ltac:(apply safe_processRequest).
Qed.

Lemma safe_main (lines : list string) : steps safe_step (main lines).
Proof.
  induction lines as [|line rest IH]; simpl.
  - apply (steps_ret _ SafeFacts.safe_step_refl).
  - apply (steps_bind _ SafeFacts.safe_step_trans); [apply safe_onLine | intros _; exact IH].
Qed.

Lemma key_sound_startup (files : gmap string node) : key_sound (startup files).
Proof. intros key E. now apply getOpenAIApiKey_sound. Qed.

End SafeRun.

(** X4. In every state the server reaches from start-up, whatever the
    input lines, the key variable is unset or holds a key that is not
    empty and passes [validateApiKey].  So the key checks at the head of
    the extraction tool can fail in one way only: no key is available. *)
Theorem X4_key_stays_sound `{Runtime} (files : gmap string node) (lines : list string) :
  let s := snd (main lines (startup files)) in
  (forall key, OPENAI_API_KEY s = Some key ->
               key <> "" /\ isValid (validateApiKey key) = true)
  /\ (forall e s', ensure_api_key s = (Throw e, s') ->
        e = "OpenAI API key is not available. Please set the environment variable."
        /\ getOpenAIApiKey = None).
Proof.
  intros s.
  assert (Hk : key_sound s).
  { destruct (safe_main lines (startup files)) as (Hkey & _).
    apply Hkey, key_sound_startup. }
  split; [exact Hk |].
  intros e s'. unfold ensure_api_key. unfold_monad.
  destruct (OPENAI_API_KEY s) as [key|] eqn:Ekey.
  - destruct (Hk key Ekey) as [Hne Hv]. apply String.eqb_neq in Hne.
    rewrite Hne, Hv. discriminate.
  - destruct getOpenAIApiKey as [key'|] eqn:Eg; simpl.
    + destruct (getOpenAIApiKey_sound key' Eg) as [_ Hv]. rewrite Hv. discriminate.
    + intros [= <- _]. now split.
Qed.

(** X15. Whatever lines the server is fed, a regular file that exists
    stays a regular file with the permissions it had, and if its name
    does not end in [.txt] its size and contents are as they were: the
    images are never written to. *)
Theorem X15_files_are_kept `{Runtime} (lines : list string) (s : State)
    (q : string) size r w data :
  fs s !! q = Some (File size r w data) ->
  exists size' data',
    fs (snd (main lines s)) !! q = Some (File size' r w data')
    /\ (Str.endsWith q ".txt" = false -> size' = size /\ data' = data).
Proof.
  intros Hq. destruct (safe_main lines s) as (_ & Hfs & _).
  specialize (Hfs q). now rewrite Hq in Hfs.
Qed.

(** X15 at a run that extracts the text of the image of the scans: the
    image is as it was. *)
Lemma X15_files_are_kept_witness :
  let call := Demo.callTool_extract 1 "/scans/invoice.png" in
  let rt := Demo.runtime [call] (Demo.answers (Demo.completion (JStr "TOTAL 42.00"))) in
  let s := @startup rt Demo.scans in
  fs (snd (@main rt [Demo.stringify call] s)) !! "/scans/invoice.png"
  = Some (File 2048 true true "(image bytes)").
Proof.
  intros call rt s.
  destruct (@X15_files_are_kept rt [Demo.stringify call] s "/scans/invoice.png"
              2048 true true "(image bytes)" eq_refl)
    as (size' & data' & E & Hsame).
  destruct (Hsame eq_refl) as [-> ->]. exact E.
Defined.

(** X16. Whatever lines the server is fed, a directory stays a
    directory, with its permission, and only gains entries; and every
    path that is new after the run is a regular file whose name ends in
    [.txt]. *)
Theorem X16_only_text_files_are_made `{Runtime} (lines : list string) (s : State) :
  let s' := snd (main lines s) in
  (forall q w entries,
      fs s !! q = Some (Dir w entries) ->
      exists more, fs s' !! q = Some (Dir w (entries ++ more)))
  /\ (forall q nd,
        fs s !! q = None -> fs s' !! q = Some nd ->
        Str.endsWith q ".txt" = true /\ exists size data, nd = File size true true data).
Proof.
  intros s'. destruct (safe_main lines s) as (_ & Hfs & _). split.
  - intros q w entries Hq. specialize (Hfs q). now rewrite Hq in Hfs.
  - intros q nd Hq Hn. specialize (Hfs q). rewrite Hq in Hfs. now apply Hfs.
Qed.

(* ===================================================================== *)
(** * What a handler leaves untouched *)
(* ===================================================================== *)

Section SameFacts.

Context {X : Type} (f : State -> X).

Lemma same_refl (s : State) : same f s s.
Proof. reflexivity. Qed.

Lemma same_trans (s1 s2 s3 : State) : same f s1 s2 -> same f s2 s3 -> same f s1 s3.
Proof. unfold same. congruence. Qed.

End SameFacts.

Ltac same_leaf :=
  match goal with
  | |- steps (same _) now => intros ?; exact eq_refl
  | |- steps (same _) (spawn_curl _) => intros ?; exact eq_refl
  | |- steps (same _) (write_stdout _) => intros ?; exact eq_refl
  | |- steps (same _) (sendResponse _ _) => intros ?; exact eq_refl
  | |- steps (same _) (sendError _ _ _) => intros ?; exact eq_refl
  | |- steps (same _) (modify (remember_image_path _)) =>
      intros ?; unfold same, modify, remember_image_path; simpl;
      destruct (Js.truthy _); exact eq_refl
  | |- steps (same _) (modify _) => intros ?; exact eq_refl
  | |- steps (same _) (writeFileSync _ _) =>
      let s := fresh "s" in
      intros s; unfold same, writeFileSync, create_file; unfold_monad;
      repeat match goal with
             | |- context [match ?x with _ => _ end] => destruct x
             end; exact eq_refl
  | |- steps (same _) (appendFileSync _ _) =>
      let s := fresh "s" in
      intros s; unfold same, appendFileSync, create_file; unfold_monad;
      repeat match goal with
             | |- context [match ?x with _ => _ end] => destruct x
             end; exact eq_refl
  | |- steps (same ?f) _ =>
      apply (steps_pure _ (same_refl f));
      first [ apply pure_existsSync | apply pure_statSync | apply pure_readFileSync
            | apply pure_readdirSync | apply pure_path_argument
            | apply pure_checked_image | apply pure_member | apply pure_first_item
            | apply pure_fullResponse_of ]
  end.

Ltac same_steps leaf :=
  match goal with
  | |- steps (same ?f) _ =>
      steps_with (same_refl f) (same_trans f) ltac:(first [leaf | same_leaf])
  end.

Section SameRun.

Context `{Runtime}.

(** The tools write nothing to stdout and leave the client info and the
    log alone. *)
Lemma silent_handleAppendAnalysis (args : option json) :
  steps (same stdout) (handleAppendAnalysis args)
  /\ steps (same clientInfo) (handleAppendAnalysis args)
  /\ steps (same log_of) (handleAppendAnalysis args)
  /\ steps (same spawned) (handleAppendAnalysis args).
Proof.
  repeat split; unfold handleAppendAnalysis, existsSync_any; cbv zeta; same_steps fail.
Qed.

Lemma silent_saveExtractedText (imagePath text : string) :
  steps (same stdout) (saveExtractedText imagePath text)
  /\ steps (same clientInfo) (saveExtractedText imagePath text)
  /\ steps (same log_of) (saveExtractedText imagePath text)
  /\ steps (same spawned) (saveExtractedText imagePath text).
Proof. repeat split; unfold saveExtractedText; cbv zeta; same_steps fail. Qed.

Lemma silent_on_close (imagePath : string) (exit : CurlExit) :
  steps (same stdout) (on_close imagePath exit)
  /\ steps (same clientInfo) (on_close imagePath exit)
  /\ steps (same log_of) (on_close imagePath exit)
  /\ steps (same spawned) (on_close imagePath exit).
Proof.
  repeat split; unfold on_close; cbv zeta;
    same_steps ltac:(first [ apply silent_saveExtractedText
                           | apply silent_handleAppendAnalysis ]).
Qed.

Lemma silent_extractTextFromImage (args : option json) :
  steps (same stdout) (extractTextFromImage args)
  /\ steps (same clientInfo) (extractTextFromImage args)
  /\ steps (same log_of) (extractTextFromImage args).
Proof.
  repeat split; unfold extractTextFromImage, prepare, ensure_api_key; cbv zeta;
    same_steps ltac:(apply silent_on_close).
Qed.

Lemma silent_logLlmResponse (response : option json) :
  steps (same stdout) (logLlmResponse response)
  /\ steps (same clientInfo) (logLlmResponse response)
  /\ steps (same spawned) (logLlmResponse response).
Proof.
  repeat split; unfold logLlmResponse, appendLlmResponseToFile; cbv zeta; same_steps fail.
Qed.



End SameRun.

(* ===================================================================== *)
(** * The replies *)
(* ===================================================================== *)

Section Replies.

Context `{Runtime}.

Lemma sendError_run (id : option json) (code : Z) (message : string) (s : State) :
  sendError id code message s
  = (Ok tt, set_stdout (stdout s ++ [JsonRpcErrorResponse (id_or_error id) code message]) s).
Proof. reflexivity. Qed.

Lemma sendResponse_run (id : option json) (res : result) (s : State) :
  sendResponse id res s
  = (Ok tt, set_stdout (stdout s ++ [JsonRpcSuccessResponse id res]) s).
Proof. reflexivity. Qed.

(** A tool that is silent itself, run under the [try] of a handler, is
    answered by one reply: its result, or the error of the [catch]. *)
Lemma tool_reply (m : M McpToolResult) (id : option json) (s : State) :
  steps (same stdout) m ->
  exists r s',
    try_catch (res <- m ;; sendResponse id (ToolResult res))
              (fun e => sendError id (-32000) ("Error executing tool: " +:+ e)) s
    = (Ok tt, s')
    /\ stdout s' = stdout s ++ [r]
    /\ match m s with
       | (Ok res, _) => r = JsonRpcSuccessResponse id (ToolResult res)
       | (Throw e, _) =>
           r = JsonRpcErrorResponse (id_or_error id) (-32000) ("Error executing tool: " +:+ e)
       end.
Proof.
  intros Hm. specialize (Hm s). unfold same in Hm. unfold try_catch, bind.
  destruct (m s) as [[res | e] s1]; simpl in Hm.
  - rewrite sendResponse_run. eexists _, _. split; [reflexivity |].
    simpl. rewrite Hm. split; reflexivity.
  - rewrite sendError_run. eexists _, _. split; [reflexivity |].
    simpl. rewrite Hm. split; reflexivity.
Qed.

Lemma tool_reply_answers (m : M McpToolResult) (id : option json) (s : State) :
  steps (same stdout) m ->
  at_most_one (spawned s) (spawned (snd (m s))) ->
  exists r s',
    try_catch (res <- m ;; sendResponse id (ToolResult res))
              (fun e => sendError id (-32000) ("Error executing tool: " +:+ e)) s
    = (Ok tt, s')
    /\ stdout s' = stdout s ++ [r] /\ answers_to id r
    /\ at_most_one (spawned s) (spawned s').
Proof.
  intros Hm Hc. destruct (tool_reply m id s Hm) as (r & s' & E & Hs & Hr).
  exists r, s'. split; [exact E |]. split; [exact Hs |].
  unfold try_catch, bind in E.
  destruct (m s) as [[res | e] s1]; subst r;
    (split; [reflexivity |]); simpl in Hc;
    [rewrite sendResponse_run in E | rewrite sendError_run in E];
    injection E as <-; exact Hc.
Qed.

(** The extraction tool spawns [curl] once, or not at all. *)
Lemma extractTextFromImage_calls (args : option json) (s : State) :
  at_most_one (spawned s) (spawned (snd (extractTextFromImage args s))).
Proof.
  rewrite extractTextFromImage_unfold.
  destruct (prepare_frame args s) as (o & k & E). rewrite E.
  destruct o as [p | e]; [| now left].
  right. exists (requestBody p).
  match goal with
  | |- context [on_close ?i ?x ?st] =>
      pose proof (proj2 (proj2 (proj2 (silent_on_close i x))) st) as Hs;
      unfold same in Hs; destruct (on_close i x st) as [[[reason | res] | e] s3]
  end; simpl in *; exact Hs.
Qed.

Lemma handleAppendAnalysis_calls (args : option json) (s : State) :
  at_most_one (spawned s) (spawned (snd (handleAppendAnalysis args s))).
Proof. left. apply (proj2 (proj2 (proj2 (silent_handleAppendAnalysis args)))). Qed.

Ltac one_reply :=
  rewrite sendError_run; eexists _, _;
  split; [reflexivity |]; split; [reflexivity |]; split; [reflexivity | now left].

Lemma handleCallTool_reply (id params : option json) (s : State) :
  exists r s',
    handleCallTool id params s = (Ok tt, s')
    /\ stdout s' = stdout s ++ [r] /\ answers_to id r
    /\ at_most_one (spawned s) (spawned s').
Proof.
  unfold handleCallTool.
  destruct (negb (Js.truthy params)); [one_reply |].
  cbv zeta.
  destruct (Js.strict_eq_string _ (name OCR_TOOL));
    [apply tool_reply_answers;
     [apply silent_extractTextFromImage | apply extractTextFromImage_calls] |].
  destruct (Js.strict_eq_string _ (name APPEND_ANALYSIS_TOOL));
    [apply tool_reply_answers;
     [apply silent_handleAppendAnalysis | apply handleAppendAnalysis_calls] |].
  one_reply.
Qed.

Lemma handleToolsCall_reply (id params : option json) (s : State) :
  exists r s',
    handleToolsCall id params s = (Ok tt, s')
    /\ stdout s' = stdout s ++ [r] /\ answers_to id r
    /\ at_most_one (spawned s) (spawned s').
Proof.
  unfold handleToolsCall.
  destruct (negb (Js.truthy params)); [one_reply |].
  destruct (normalize_call params) as [toolName imagePath].
  destruct (negb (Js.truthy toolName)); [one_reply |].
  destruct (negb (Js.truthy imagePath)); [one_reply |].
  destruct (Js.strict_eq_string toolName (name OCR_TOOL));
    [apply tool_reply_answers;
     [apply silent_extractTextFromImage | apply extractTextFromImage_calls] |].
  one_reply.
Qed.

Lemma handleInitialize_run (id params : option json) (s : State) :
  let sent := Js.opt_prop params "clientInfo" in
  let known := if Js.truthy sent then sent else clientInfo s in
  handleInitialize id params s
  = (Ok tt,
     set_stdout
       (stdout s ++
        [JsonRpcSuccessResponse id
           (McpInitializeResponse PROTOCOL_VERSION serverInfo_
              [ (name OCR_TOOL, (description OCR_TOOL, parameters OCR_TOOL));
                (name APPEND_ANALYSIS_TOOL,
                 (description APPEND_ANALYSIS_TOOL, parameters APPEND_ANALYSIS_TOOL)) ]
              (reported_client known))])
       (set_clientInfo known s)).
Proof.
  intros sent known. unfold handleInitialize. unfold_monad. subst known sent.
  destruct params as [[]|]; simpl; try (destruct s; reflexivity).
  - destruct b; destruct s; reflexivity.
  - destruct (n =? 0); destruct s; reflexivity.
  - destruct (String.eqb s0 ""); destruct s; reflexivity.
  - destruct (Js.truthy (Js.assoc "clientInfo" fields)); destruct s; reflexivity.
Qed.

Lemma handleListOfferings_run (id : option json) (s : State) :
  handleListOfferings id s
  = (Ok tt,
     set_stdout
       (stdout s ++
        [JsonRpcSuccessResponse id
           (McpListOfferingsResponse PROTOCOL_VERSION serverInfo_
              [OCR_TOOL; APPEND_ANALYSIS_TOOL] (reported_client (clientInfo s)))]) s).
Proof. reflexivity. Qed.

Lemma stdout_remember (v : option json) (s : State) :
  stdout (remember_image_path v s) = stdout s.
Proof. unfold remember_image_path. now destruct (Js.truthy v). Qed.

Lemma spawned_remember (v : option json) (s : State) :
  spawned (remember_image_path v s) = spawned s.
Proof. unfold remember_image_path. now destruct (Js.truthy v). Qed.

(** The listener of an analysis notification never throws. *)
Lemma logLlmResponse_total (response : option json) (s : State) :
  exists s', logLlmResponse response s = (Ok tt, s').
Proof.
  unfold logLlmResponse, now, modify, gets.
  unfold bind at 1. unfold bind at 1. unfold bind at 1.
  destruct (Js.truthy _); [| eexists; reflexivity].
  unfold try_catch.
  match goal with
  | |- context [match ?m ?st with _ => _ end] => destruct (m st) as [[[] | e] s2]
  end; eexists; reflexivity.
Qed.

(** A request that is not a notification gets one reply, under its id. *)
Lemma processRequest_reply (request : json) (m : string) (s : State) :
  Js.prop request "method" = Some (JStr m) ->
  Str.startsWith m "notifications/" = false ->
  exists r s',
    processRequest request s = (Ok tt, s')
    /\ stdout s' = stdout s ++ [r] /\ answers_to (Js.prop request "id") r
    /\ at_most_one (spawned s) (spawned s').
Proof.
  intros Hm Hn. destruct (prop_some_object _ _ _ Hm) as [fields ->].
  unfold processRequest. rewrite Hm. unfold method_startsWith.
  unfold bind at 1, ret. rewrite Hn.
  destruct (Js.strict_eq_string _ "initialize").
  { rewrite handleInitialize_run. cbv zeta. eexists _, _.
    split; [reflexivity |]. split; [reflexivity |]. split; [reflexivity | now left]. }
  destruct (Js.strict_eq_string _ "ListOfferings").
  { rewrite handleListOfferings_run. eexists _, _.
    split; [reflexivity |]. split; [reflexivity |]. split; [reflexivity | now left]. }
  destruct (Js.strict_eq_string _ "callTool").
  { unfold bind, modify.
    match goal with
    | |- context [handleCallTool ?i ?p (remember_image_path ?v s)] =>
        destruct (handleCallTool_reply i p (remember_image_path v s))
          as (r & s' & E & Hs & Hr & Hc)
    end.
    rewrite E. exists r, s'. rewrite stdout_remember in Hs.
    rewrite spawned_remember in Hc. now repeat split. }
  destruct (Js.strict_eq_string _ "tools/list").
  { eexists _, _.
    split; [reflexivity |]. split; [reflexivity |]. split; [reflexivity | now left]. }
  destruct (Js.strict_eq_string _ "tools/call").
  { unfold bind, modify.
    match goal with
    | |- context [handleToolsCall ?i ?p (remember_image_path ?v s)] =>
        destruct (handleToolsCall_reply i p (remember_image_path v s))
          as (r & s' & E & Hs & Hr & Hc)
    end.
    rewrite E. exists r, s'. rewrite stdout_remember in Hs.
    rewrite spawned_remember in Hc. now repeat split. }
  one_reply.
Qed.

(** A notification gets no reply. *)
Lemma processRequest_notification (request : json) (m : string) (s : State) :
  Js.prop request "method" = Some (JStr m) ->
  Str.startsWith m "notifications/" = true ->
  exists s',
    processRequest request s = (Ok tt, s')
    /\ stdout s' = stdout s
    /\ spawned s' = spawned s
    /\ (m <> "notifications/llm_response" -> s' = s).
Proof.
  intros Hm Hn. destruct (prop_some_object _ _ _ Hm) as [fields ->].
  unfold processRequest. rewrite Hm. unfold method_startsWith.
  unfold bind at 1, ret. rewrite Hn.
  change (Js.strict_eq_string (Some (JStr m)) "notifications/llm_response")
    with (String.eqb m "notifications/llm_response").
  destruct (String.eqb m "notifications/llm_response") eqn:El.
  - destruct (logLlmResponse_total (Js.prop (JObj fields) "params") s) as [s' E].
    exists s'. split; [exact E |].
    destruct (silent_logLlmResponse (Js.prop (JObj fields) "params")) as (Ho & _ & Hc).
    specialize (Ho s). specialize (Hc s). unfold same in Ho, Hc. rewrite E in Ho, Hc.
    split; [exact Ho |]. split; [exact Hc |].
    intros Hne. apply String.eqb_eq in El. contradiction.
  - exists s. unfold handleNotification.
    change (Js.display (Some (JStr m))) with m. rewrite El.
    repeat split; reflexivity.
Qed.

End Replies.

Section LineFacts.

Context `{Runtime}.

Lemma onLine_parsed (line : string) (request : json) (s : State) :
  JSON_parse line = inr request ->
  onLine line s
  = match processRequest request s with
    | (Ok a, s') => (Ok a, s')
    | (Throw e, s') =>
        sendError None (-32700) ("Parse error or internal error: " +:+ e) s'
    end.
Proof. intros Hp. unfold onLine, try_catch, bind, lift. now rewrite Hp. Qed.

(** A line is answered by at most one reply and makes at most one
    remote call. *)
Lemma onLine_bounds (line : string) (s : State) :
  at_most_one (stdout s) (stdout (snd (onLine line s)))
  /\ at_most_one (spawned s) (spawned (snd (onLine line s))).
Proof.
  destruct (JSON_parse line) as [e | request] eqn:Hp.
  { rewrite (onLine_parse_error line e s Hp). split; [right; eauto | now left]. }
  assert (Hd : (exists m, Js.prop request "method" = Some (JStr m))
               \/ forall m, Js.prop request "method" <> Some (JStr m)).
  { destruct (Js.prop request "method") as [[| | | m | |] |];
      try (right; intros m'; discriminate). left. eauto. }
  destruct Hd as [[m Hm] | Hno].
  - rewrite (onLine_parsed line request s Hp).
    destruct (Str.startsWith m "notifications/") eqn:Hn.
    + destruct (processRequest_notification request m s Hm Hn) as (s' & E & Ho & Hc & _).
      rewrite E. simpl. rewrite Ho, Hc. split; now left.
    + destruct (processRequest_reply request m s Hm Hn) as (r & s' & E & Ho & _ & Hc).
      rewrite E. simpl. rewrite Ho. split; [right; eauto | exact Hc].
  - destruct (onLine_no_method line request s Hp Hno) as [e E].
    rewrite E. split; [right; eauto | now left].
Qed.

Lemma main_bounds (lines : list string) (s : State) :
  (exists replies,
      stdout (snd (main lines s)) = stdout s ++ replies
      /\ (length replies <= length lines)%nat)
  /\ (exists calls,
        spawned (snd (main lines s)) = spawned s ++ calls
        /\ (length calls <= length lines)%nat).
Proof.
  revert s. induction lines as [|line rest IH]; intros s.
  - split; exists []; simpl; rewrite app_nil_r; split; auto.
  - simpl. unfold bind.
    destruct (onLine_total line s) as [s1 E]. rewrite E.
    destruct (onLine_bounds line s) as [Ho Hc]. rewrite E in Ho, Hc. simpl in Ho, Hc.
    destruct (IH s1) as ((replies & Er & Hr) & (calls & Ec & Hl)).
    split.
    + destruct Ho as [Ho | [r Ho]]; rewrite Ho in Er.
      * exists replies. split; [exact Er | simpl; lia].
      * exists (r :: replies). rewrite Er, <- app_assoc. split; [reflexivity | simpl; lia].
    + destruct Hc as [Hc | [c Hc]]; rewrite Hc in Ec.
      * exists calls. split; [exact Ec | simpl; lia].
      * exists (c :: calls). rewrite Ec, <- app_assoc. split; [reflexivity | simpl; lia].
Qed.

End LineFacts.





(** X12. Over a whole run stdout, the list of remote calls and the log
    of analysis notifications are only added to, and the run writes at
    most one reply and makes at most one remote call per input line. *)
Theorem X12_append_only `{Runtime} (lines : list string) (s : State) :
  let s' := snd (main lines s) in
  (exists replies,
      stdout s' = stdout s ++ replies /\ (length replies <= length lines)%nat)
  /\ (exists calls,
        spawned s' = spawned s ++ calls /\ (length calls <= length lines)%nat)
  /\ (exists entries,
        llmResponses (conversationState s')
        = llmResponses (conversationState s) ++ entries).
Proof.
  intros s'. destruct (main_bounds lines s) as [Hr Hc].
  split; [exact Hr |]. split; [exact Hc |].
  destruct (safe_main lines s) as (_ & _ & _ & _ & Hl & _). exact Hl.
Qed.

Section SessionFacts.

Context `{Runtime}.







End SessionFacts.



Section AppendEffect.

Context `{Runtime}.

Lemma existsSync_any_true (v : option json) (s s1 : State) :
  existsSync_any v s = (Ok true, s1) ->
  exists p, v = Some (JStr p) /\ p <> "" /\ is_Some (fs s !! abs p).
Proof.
  unfold existsSync_any, existsSync. unfold_monad.
  destruct v as [[| | | p | |] |]; try discriminate.
  intros [= E _]. apply andb_true_iff in E as [Hp Hs].
  exists p. split; [reflexivity |]. split.
  - apply negb_true_iff, String.eqb_neq in Hp. exact Hp.
  - now apply bool_decide_eq_true in Hs.
Qed.


End AppendEffect.




(* ===================================================================== *)
(** * The extraction tool, from its arguments to the remote call *)
(* ===================================================================== *)

(** X5. Without an API key, none stored and none in the environment,
    the extraction tool answers every call, whatever its arguments, with
    the soft error that no key is available: no file is looked at, no
    remote call is made. *)
Theorem X5_no_api_key `{Runtime} (args : option json) (s : State) :
  OPENAI_API_KEY s = None \/ OPENAI_API_KEY s = Some "" ->
  getOpenAIApiKey = None ->
  extractTextFromImage args s
  = (Ok (error_result
           "OpenAI API key is not available. Please set the environment variable."),
     set_api_key None s).
Proof.
  intros Hk Hg. unfold extractTextFromImage, prepare, ensure_api_key. unfold_monad.
  destruct Hk as [-> | ->]; simpl; rewrite Hg; reflexivity.
Qed.

(** X5 on a machine without a key, at an image that is there. *)
Lemma X5_no_api_key_witness :
  let rt := Bare.runtime [] Demo.unreachable in
  let s := @startup rt Demo.scans in
  @extractTextFromImage rt (Demo.image_args "/scans/invoice.png") s
  = (Ok (error_result
           "OpenAI API key is not available. Please set the environment variable."), s).
Proof.
  intros rt s.
  exact (@X5_no_api_key rt (Demo.image_args "/scans/invoice.png") s
           (or_introl eq_refl) eq_refl).
Defined.

Section ArgumentFacts.

Context `{Runtime}.

Lemma extractTextFromImage_invalid (args : option json) (e : string) (s : State) :
  key_ready s ->
  (forall key, checked_image args key s = (Throw e, s)) ->
  extractTextFromImage args s = (Ok (error_result e), s).
Proof.
  intros Hk Hc. destruct (ensure_api_key_ready s Hk) as (key & _ & E).
  rewrite extractTextFromImage_unfold. unfold prepare, bind.
  now rewrite E, Hc.
Qed.



End ArgumentFacts.

(** X6. With a key in place, a call of the extraction tool whose
    arguments are missing, or whose image_path is missing, empty or not
    a string, is answered by a soft error that leaves the process as it
    was: no file is looked at and no remote call is made. *)
Theorem X6_argument_checks `{Runtime} (args : option json) (s : State) :
  key_ready s ->
  let image_path := Js.opt_prop args "image_path" in
  (Js.truthy args = false ->
   extractTextFromImage args s
   = (Ok (error_result "Arguments are required but were undefined"), s))
  /\ (Js.truthy args = true -> Js.truthy image_path = false ->
      extractTextFromImage args s
      = (Ok (error_result "image_path is required but was missing"), s))
  /\ (Js.truthy image_path = true -> Js.is_string image_path = false ->
      exists e, extractTextFromImage args s = (Ok (error_result e), s)).
Proof.
  intros Hk image_path. split; [| split].
  - intros Ha. apply (extractTextFromImage_invalid args _ s Hk).
    intros key. unfold checked_image. now rewrite Ha.
  - intros Ha Hi. apply (extractTextFromImage_invalid args _ s Hk).
    intros key. unfold checked_image. rewrite Ha. cbv zeta. fold image_path.
    now rewrite Hi.
  - intros Hi Hs.
    assert (Ha : Js.truthy args = true).
    { subst image_path. destruct args as [[]|]; try discriminate Hi; reflexivity. }
    destruct image_path as [[| b | n | p | items | fields] |] eqn:Ei;
      try discriminate Hs; try discriminate Hi.
    all: eexists; apply (extractTextFromImage_invalid args _ s Hk).
    all: intros key; unfold checked_image; rewrite Ha; cbv zeta.
    all: fold image_path; rewrite Ei, Hi; reflexivity.
Qed.

(** X6 at a call without arguments and at one whose image_path is a
    number. *)
Lemma X6_argument_checks_witness :
  let rt := Demo.runtime [] Demo.unreachable in
  let s := @startup rt Demo.scans in
  @extractTextFromImage rt None s
  = (Ok (error_result "Arguments are required but were undefined"), s)
  /\ exists e,
       @extractTextFromImage rt (Some (JObj [("image_path", JNum 7)])) s
       = (Ok (error_result e), s).
Proof.
  intros rt s.
  assert (Hk : key_ready s).
  { exists Demo.key. split; [reflexivity |]. split; [discriminate | reflexivity]. }
  split.
  - apply (@X6_argument_checks rt None s Hk). reflexivity.
  - apply (@X6_argument_checks rt (Some (JObj [("image_path", JNum 7)])) s Hk);
      reflexivity.
Defined.



(* ===================================================================== *)
(** * The text file of an extraction *)
(* ===================================================================== *)

Section SplitShape.

Local Abbreviation nlnl := (nl +:+ nl).

(** The pieces of a text: the text whole, or what stands before the
    first blank line that a heading follows, then the pieces of the
    rest. *)
Lemma split_acc_shape (s cur : string) :
  split_acc s cur = [Str.rev cur +:+ s]
  \/ exists pre post,
       s = pre +:+ nlnl +:+ post /\ at_heading post = true
       /\ split_acc s cur = (Str.rev cur +:+ pre) :: split_acc post EmptyString.
Proof.
  revert cur. induction s as [|c s IH]; intros cur.
  - left. simpl. now rewrite StrFacts.app_nil_r.
  - destruct s as [|c' s''].
    + left. simpl. now rewrite StrFacts.rev_cons.
    + change (split_acc (String c (String c' s'')) cur)
        with (if (is_newline c && is_newline c' && at_heading s'')%bool
              then Str.rev cur :: split_acc s'' EmptyString
              else split_acc (String c' s'') (String c cur)).
      destruct (is_newline c && is_newline c' && at_heading s'')%bool eqn:E.
      * apply andb_true_iff in E as [E Hh]. apply andb_true_iff in E as [Ec Ec'].
        apply is_newline_true in Ec, Ec'. subst c c'.
        right. exists EmptyString, s''. split; [reflexivity |]. split; [exact Hh |].
        now rewrite StrFacts.app_nil_r.
      * destruct (IH (String c cur)) as [E1 | (pre & post & Es & Hh & E1)].
        -- left. rewrite E1, StrFacts.rev_cons, StrFacts.app_assoc. reflexivity.
        -- right. exists (String c pre), post. split; [| split; [exact Hh |]].
           ++ rewrite StrFacts.app_cons. now rewrite Es.
           ++ rewrite E1, StrFacts.rev_cons, StrFacts.app_assoc. reflexivity.
Qed.

Lemma at_heading_nonempty (s : string) : at_heading s = true -> s <> "".
Proof. intros Hh ->. discriminate Hh. Qed.

End SplitShape.

(** X9. The split of the completion text loses nothing.  Either the
    analysis is empty and the extracted text is the whole completion, or
    the analysis starts with one of the four headings and the completion
    is the extracted text, a blank line, and the analysis. *)
Theorem X9_split_is_lossless (fullResponse : string) :
  let extractedText := extractedText_of fullResponse in
  let analysis := analysis_of fullResponse in
  (analysis = "" /\ extractedText = fullResponse)
  \/ (at_heading analysis = true
      /\ fullResponse = extractedText +:+ nl +:+ nl +:+ analysis).
Proof.
  unfold extractedText_of, analysis_of, split_headings. cbv zeta.
  destruct (split_acc_shape fullResponse EmptyString)
    as [E | (pre & post & Es & Hh & E)]; rewrite E.
  - left. split; reflexivity.
  - right.
    assert (Hj : Str.join (nl +:+ nl) (split_acc post EmptyString) = post)
      by apply (proj1 (join_split_acc post)).
    destruct (split_acc post EmptyString) as [|q rest] eqn:Eq.
    + now apply split_acc_nonempty in Eq.
    + rewrite Hj. split; [exact Hh |]. rewrite Es. reflexivity.
Qed.

Section SaveFacts.

Context `{Runtime}.

Lemma writeFileSync_twice (p text : string) (s : State) :
  snd (writeFileSync p text (snd (writeFileSync p text s))) = snd (writeFileSync p text s).
Proof.
  unfold writeFileSync, create_file. unfold_monad.
  destruct (fs s !! abs p) as [[size r [|] data | w entries] |] eqn:Ep;
    cbn [snd fs set_fs]; rewrite ?Ep; try reflexivity.
  - rewrite lookup_insert_eq. unfold set_fs. cbn [snd fs OPENAI_API_KEY conversationState
      clientInfo stdout spawned clock]. now rewrite insert_insert_eq.
  - destruct (fs s !! Path.dirname (abs p)) as [[? ? ? ? | [|] entries] |] eqn:Ed;
      cbn [snd fs set_fs]; rewrite ?Ep, ?Ed; try reflexivity.
    rewrite lookup_insert_eq. unfold set_fs. cbn [snd fs OPENAI_API_KEY conversationState
      clientInfo stdout spawned clock]. now rewrite insert_insert_eq.
Qed.

End SaveFacts.

(** X19. Saving the same text for the same image a second time changes
    nothing: the second save writes the same contents to the same file,
    and the directory gains no second entry. *)
Theorem X19_save_is_idempotent `{Runtime} (imagePath text : string) (s : State) :
  let once := saveExtractedText imagePath text s in
  let twice := saveExtractedText imagePath text (snd once) in
  snd twice = snd once /\ fst twice = fst once.
Proof.
  unfold saveExtractedText. cbv zeta. unfold try_catch, bind, ret, throw.
  pose proof (writeFileSync_twice (txtPath_of imagePath text) (ocr_section text) s) as Ht.
  destruct (writeFileSync (txtPath_of imagePath text) (ocr_section text) s)
    as [[[] | e] s1] eqn:E1; simpl in *.
  - destruct (writeFileSync (txtPath_of imagePath text) (ocr_section text) s1)
      as [[[] | e] s2] eqn:E2; simpl in *; subst s2; [now split |].
    exfalso. revert E1 E2. unfold writeFileSync, create_file. unfold_monad.
    destruct (fs s !! abs (txtPath_of imagePath text)) as [[size r [|] data | w entries] |];
      try discriminate.
    + intros [= <-]. simpl. rewrite lookup_insert_eq. discriminate.
    + destruct (fs s !! Path.dirname (abs (txtPath_of imagePath text)))
        as [[? ? ? ? | [|] entries] |]; try discriminate.
      intros [= <-]. simpl. rewrite lookup_insert_eq. discriminate.
  - assert (Hs : s1 = s).
    { revert E1. unfold writeFileSync, create_file. unfold_monad.
      destruct (fs s !! abs (txtPath_of imagePath text))
        as [[size r [|] data | w entries] |]; try discriminate; try (now intros [= _ <-]).
      destruct (fs s !! Path.dirname (abs (txtPath_of imagePath text)))
        as [[? ? ? ? | [|] entries] |]; try discriminate; now intros [= _ <-]. }
    subst s1. rewrite E1. now split.
Qed.

(** X8. When the checks pass, the service answers with a text and
    the place of the text file can be written, the extraction tool
    leaves in that file the OCR section of the extracted text, followed,
    when the completion holds an analysis, by one analysis section with
    the time of the call and that analysis.  The reply carries the
    extracted text and the path of the file. *)
Theorem X8_text_and_analysis_saved `{Runtime}
    (args : option json) (p data key : string) (s : State)
    (resp choice message : json) (others : list json) (text : string) :
  OPENAI_API_KEY s = Some key -> key <> "" -> isValid (validateApiKey key) = true ->
  Js.opt_prop args "image_path" = Some (JStr p) -> p <> "" ->
  valid_image s p data ->
  let request :=
    requestBody {| prep_key := key; prep_imagePath := abs p;
                   prep_imageBuffer := data; prep_mimeType := getMimeType (abs p) |} in
  let exit := curl (length (spawned s)) request in
  exit_code exit = 0 ->
  JSON_parse (responseData exit) = inr resp ->
  Js.truthy (Js.prop resp "error") = false ->
  Js.prop resp "choices" = Some (JArr (choice :: others)) ->
  Js.prop choice "message" = Some message ->
  Js.prop message "content" = Some (JStr text) -> text <> "" ->
  let extractedText := extractedText_of text in
  let analysis := analysis_of text in
  let txtPath := txtPath_of (abs p) extractedText in
  writable_target (fs s) (abs txtPath) ->
  let saved := ocr_section extractedText in
  let section := analysis_section (Date_toISOString (clock s)) analysis in
  exists s' r,
    extractTextFromImage args s
    = (Ok {| content := [text_item extractedText;
                         text_item (nl +:+ nl +:+ "Text has been saved to: " +:+ txtPath)];
             isError := None |}, s')
    /\ fs s' !! abs txtPath
       = Some (if String.eqb analysis ""
               then File (byte_length saved) r true saved
               else File (byte_length saved + byte_length section) r true
                         (saved +:+ section))
    /\ lastOcrResult (conversationState s') = Some extractedText
    /\ lastImagePath (conversationState s') = Some (JStr (abs p)).
Proof.
  intros Hkey Hne Hval Ha Hp Himg request exit Hc Hparse Herr Hch Hmsg Htext Htne
         extractedText analysis txtPath Hw saved section.
  destruct (prepare_ok args p data s) as (key' & Hkey' & Eprep); try assumption.
  { exists key. repeat split; assumption. }
  rewrite Hkey in Hkey'. injection Hkey' as <-.
  rewrite extractTextFromImage_unfold, Eprep. cbn [prep_imagePath].
  fold request. fold exit.
  set (s0 := set_spawned (spawned s ++ [request]) s).
  destruct (prop_some_object _ _ _ Hch) as [fields Hresp].
  assert (Hnn : resp <> JNull) by (rewrite Hresp; discriminate).
  pose proof (fullResponse_of_text resp choice message others text s0
                Hch Hmsg Htext Htne) as Hf.
  rewrite (on_close_text (abs p) exit s0 resp text Hc Hparse Hnn Herr Hf). cbv zeta.
  fold extractedText. fold analysis.
  set (s1 := record_ocr extractedText (abs p) s0).
  destruct (saveExtractedText_ok (abs p) extractedText s1 Hw) as (files' & E & [r Hr] & _).
  fold txtPath in E, Hr. fold saved in Hr. rewrite E.
  destruct (String.eqb analysis "") eqn:Ean.
  - exists (set_fs files' s1), r. split; [reflexivity |].
    split; [exact Hr |]. split; reflexivity.
  - assert (Htxt : Str.endsWith txtPath ".txt" = true) by apply TxtFacts.txtPath_of_txt.
    assert (Hpne : txtPath <> "") by (intros E0; rewrite E0 in Htxt; discriminate).
    pose proof (handleAppendAnalysis_appends
                  (JObj [("text_file_path"%string, JStr txtPath);
                         ("analysis"%string, JStr analysis)])
                  txtPath (set_fs files' s1) _ r _ eq_refl Hpne Hr Htxt) as Happ.
    cbv zeta in Happ.
    unfold append_args. rewrite Happ.
    eexists _, r. split; [reflexivity |]. cbn [snd fs set_fs].
    split; [apply lookup_insert_eq |]. split; reflexivity.
Qed.

(** X8 at a completion that holds a text and an analysis. *)
Lemma X8_text_and_analysis_saved_witness :
  let content := "TOTAL 42.00" +:+ nl +:+ nl +:+ "Analysis: a till receipt" in
  let reply := Demo.completion (JStr content) in
  let rt := Demo.runtime [reply] (Demo.answers reply) in
  let s := @startup rt Demo.scans in
  exists s' r,
    @extractTextFromImage rt (Demo.image_args "/scans/invoice.png") s
    = (Ok {| content := [text_item "TOTAL 42.00";
                         text_item (nl +:+ nl +:+ "Text has been saved to: "
                                    +:+ "/scans/invoice-1e130ed0.txt")];
             isError := None |}, s')
    /\ fs s' !! "/scans/invoice-1e130ed0.txt"
       = Some (File 133 r true
                 (ocr_section "TOTAL 42.00"
                  +:+ analysis_section "2025-05-01T12:00:00.000Z"
                        "Analysis: a till receipt")).
Proof.
  intros content reply rt s.
  destruct (@X8_text_and_analysis_saved rt (Demo.image_args "/scans/invoice.png")
              "/scans/invoice.png" "(image bytes)" Demo.key s reply
              (JObj [("message", JObj [("role", JStr "assistant");
                                       ("content", JStr content)])])
              (JObj [("role", JStr "assistant"); ("content", JStr content)]) [] content)
    as (s' & r & E & Hfile & _).
  - reflexivity.
  - discriminate.
  - reflexivity.
  - reflexivity.
  - discriminate.
  - exists 2048, true. split; [reflexivity |]. split; [discriminate | reflexivity].
  - reflexivity.
  - reflexivity.
  - reflexivity.
  - reflexivity.
  - reflexivity.
  - reflexivity.
  - discriminate.
  - vm_compute. reflexivity.
  - exists s', r. split; [exact E |]. exact Hfile.
Defined.

(* ===================================================================== *)
(** * The shapes of a tools/call request that name an image *)
(* ===================================================================== *)


